(** * COLi / Tiramisu core: a shallow embedding and its checked properties

    The embedding comes first, module by module as the sources are laid out:
    - [Cxx]: the pieces of the C++ standard library the code leans on
      ([std::string] searching and editing, integer conversions);
    - [Parser]: [coli::parser] of [include/coli/core.h];
    - [Isl]: the Presburger values the core hands around;
    - [Core]: [coli::computation] and [coli::library] of [include/coli/core.h];
    - [ScheduleAlgebra]: split, interchange and tile;
    - [AutoScheduler]: [exhaustive_generator] of
      [src/auto_scheduler/tiramisu_states_generator.cpp];
    - [Tutorial], [GeneratorTrees]: the program of [tutorials/tutorial_01.cpp]
      and a few syntax trees, to run the embedding on;
    - [Loops], [ParserPrinting], [AutoSchedulerPasses], [CoreObjects]: the
      printing side of [coli::parser], the tiling and unrolling passes with
      [generate_states], and the constructors of [library] and [buffer];
    - [PassTrees], [MoreTutorial]: more values to run these on.
    The properties follow, in the modules whose names end in [Facts] or in
    [Examples]. *)

From Stdlib Require Import ZArith Lia List Bool Ascii String.
From stdpp Require Import base option list gmap strings.

Set Warnings "-register-all".

Local Open Scope string_scope.
Local Open Scope Z_scope.

(** ** Failure

    An [assert] that does not hold, an exception of the standard library, a
    NULL handle that is dereferenced and an error of the Presburger library
    all end the call; the embedding returns them as errors. *)

Inductive error : Type :=
| AssertionFailed (what : string)
| OutOfRange
| NullPointer
| SpaceMismatch
| InvalidLevel
| InvalidFactor.

Inductive result (A : Type) : Type :=
| Ok (a : A)
| Err (e : error).

Arguments Ok {A} a.
Arguments Err {A} e.

#[global] Instance result_ret : MRet result := fun _ a => Ok a.
#[global] Instance result_bind : MBind result :=
  fun _ _ f m => match m with Ok a => f a | Err e => Err e end.
#[global] Instance result_fmap : FMap result :=
  fun _ _ f m => match m with Ok a => Ok (f a) | Err e => Err e end.

Definition assert (b : bool) (what : string) : result unit :=
  if b then Ok tt else Err (AssertionFailed what).

Definition is_ok {A : Type} (r : result A) : bool :=
  match r with Ok _ => true | Err _ => false end.

(** ** The C++ side: integers and [std::string] *)

Module Cxx.

(** [size_t] is 64 bits wide, [int] 32 bits; both are carried by [Z]. *)
Definition size_t_modulus : Z := 2 ^ 64.
Definition npos : Z := size_t_modulus - 1.

(** Arithmetic on [size_t] wraps around. *)
Definition to_size_t (z : Z) : Z := z mod size_t_modulus.

(** Storing a [size_t] (or an [int] expression) into an [int] keeps the low
    32 bits, read as a signed number. *)
Definition to_int (z : Z) : Z := (z + 2 ^ 31) mod 2 ^ 32 - 2 ^ 31.

Definition size (s : string) : Z := Z.of_nat (String.length s).

Fixpoint take (n : nat) (s : string) : string :=
  match n, s with
  | S k, String c s' => String c (take k s')
  | _, _ => EmptyString
  end.

Fixpoint drop (n : nat) (s : string) : string :=
  match n, s with
  | S k, String _ s' => drop k s'
  | _, _ => s
  end.

Fixpoint mem (c : ascii) (s : string) : bool :=
  match s with
  | EmptyString => false
  | String d s' => if Ascii.eqb c d then true else mem c s'
  end.

(** First position at which [pat] starts in [s], if any. *)
Fixpoint first_occurrence (pat s : string) : option nat :=
  if String.prefix pat s then Some 0%nat
  else match s with
       | EmptyString => None
       | String _ s' => S <$> first_occurrence pat s'
       end.

(** [s.find(pat, pos)]: the first position at or after [pos] where [pat]
    starts, [npos] when there is none (or [pos] lies past the end). *)
Definition find (s pat : string) (pos : Z) : Z :=
  if size s <? pos then npos
  else match first_occurrence pat (drop (Z.to_nat pos) s) with
       | Some k => pos + Z.of_nat k
       | None => npos
       end.

(** [s.substr(pos, n)] throws [std::out_of_range] when [pos > size()] and
    clamps [n] to the characters that are left. *)
Definition substr (s : string) (pos n : Z) : result string :=
  if size s <? pos then Err OutOfRange
  else Ok (take (Z.to_nat (Z.min n (size s - pos))) (drop (Z.to_nat pos) s)).

(** [s.erase(pos, n)]. *)
Definition erase (s : string) (pos n : Z) : result string :=
  if size s <? pos then Err OutOfRange
  else Ok (take (Z.to_nat pos) s
           ++ drop (Z.to_nat (pos + Z.min n (size s - pos))) s).

(** [s.insert(pos, t)]. *)
Definition insert (s : string) (pos : Z) (t : string) : result string :=
  if size s <? pos then Err OutOfRange
  else Ok (take (Z.to_nat pos) s ++ t ++ drop (Z.to_nat pos) s).

(** [strcmp(a, b) == 0] on two non-NULL C strings. *)
Definition strcmp_eq (a b : string) : bool := String.eqb a b.

End Cxx.

(** ** [coli::parser]: literals of sets and relations *)

Module Parser.
Import Cxx.

(** [parser::space]: the dimension names of one tuple. *)
Record space : Type := mk_space { dimensions : list string }.

(** [parser::constraint]: the conjuncts of the constraint part. *)
Record constraint : Type := mk_constraint { constraints : list string }.

(** [parser::map]: the parsed tokens of a relation literal. *)
Record map : Type := mk_map {
  parameters : space;
  domain_name : string;
  range_name : string;
  domain : space;
  range : space;
  map_constraints : constraint
}.

(** The default constructors leave every vector empty. *)
Definition space_empty : space := mk_space [].
Definition constraint_empty : constraint := mk_constraint [].

Section Literal.

(** [coli::split_string] and [parser::space::parse] are declared in core.h;
    their bodies live in a translation unit outside the sources at hand.
    The parser is embedded over both: [split_string str delimiter vector]
    is the vector after the call, [space_parse str sp] the space after
    [sp.parse(str)]. *)
Variable split_string : string -> string -> list string -> list string.
Variable space_parse : string -> space -> space.

(** [constraint::parse]. *)
Definition constraint_parse (str : string) (c : constraint) : result constraint :=
  _ ← assert (negb (String.eqb str "")) "str.empty() == false";
  Ok (mk_constraint (split_string str "and" (constraints c))).

(** [constraint::add]. *)
Definition constraint_add (str : string) (c : constraint) : result constraint :=
  _ ← assert (negb (String.eqb str "")) "str.empty() == false";
  Ok (mk_constraint (constraints c ++ [str])).

(** [map::map(std::string map_str)].  Every position is stored in an [int];
    the asserts compare that [int] with the [size_t] constant [npos].  The
    dump under [DEBUG2] prints and changes nothing; it is left out. *)
Definition map_new (map_str : string) : result map :=
  let map_begin := to_int (to_size_t (find map_str "{" 0 + 1)) in
  let map_end := to_int (to_size_t (find map_str "}" 0 - 1)) in
  _ ← assert (negb (to_size_t map_begin =? npos)) "map_begin != std::string::npos";
  _ ← assert (negb (to_size_t map_end =? npos)) "map_end != std::string::npos";
  let domain_space_begin :=
    to_int (to_size_t (find map_str "[" (to_size_t map_begin) + 1)) in
  let domain_space_begin_pre_bracket :=
    to_int (to_size_t (find map_str "[" (to_size_t map_begin) - 1)) in
  let domain_space_end :=
    to_int (to_size_t (find map_str "]" (to_size_t map_begin) - 1)) in
  _ ← assert (negb (to_size_t domain_space_begin =? npos))
        "domain_space_begin != std::string::npos";
  _ ← assert (negb (to_size_t domain_space_end =? npos))
        "domain_space_end != std::string::npos";
  domain_name ← substr map_str (to_size_t map_begin)
    (to_size_t (to_int (domain_space_begin_pre_bracket - map_begin + 1)));
  domain_space_str ← substr map_str (to_size_t domain_space_begin)
    (to_size_t (to_int (domain_space_end - domain_space_begin + 1)));
  let domain := space_parse domain_space_str space_empty in
  let pos_arrow := to_int (find map_str "->" (to_size_t domain_space_end)) in
  let first_char_after_arrow := to_int (pos_arrow + 2) in
  _ ← assert (negb (to_size_t pos_arrow =? npos)) "pos_arrow != std::string::npos";
  let range_space_begin :=
    to_int (to_size_t (find map_str "[" (to_size_t first_char_after_arrow) + 1)) in
  let range_space_begin_pre_bracket :=
    to_int (to_size_t (find map_str "[" (to_size_t first_char_after_arrow) - 1)) in
  let range_space_end :=
    to_int (to_size_t (find map_str "]" (to_size_t first_char_after_arrow) - 1)) in
  _ ← assert (negb (to_size_t range_space_begin =? npos))
        "range_space_begin != std::string::npos";
  _ ← assert (negb (to_size_t range_space_end =? npos))
        "range_space_end != std::string::npos";
  range_name ← substr map_str (to_size_t first_char_after_arrow)
    (to_size_t (to_int (range_space_begin_pre_bracket - first_char_after_arrow + 1)));
  range_space_str ← substr map_str (to_size_t range_space_begin)
    (to_size_t (to_int (range_space_end - range_space_begin + 1)));
  let range := space_parse range_space_str space_empty in
  let column_pos := to_int (to_size_t (find map_str ":" 0 + 1)) in
  constraints ←
    (if negb (to_size_t column_pos =? npos)
     then constraints_str ← substr map_str (to_size_t column_pos)
            (to_size_t (to_int (map_end - column_pos + 1)));
          constraint_parse constraints_str constraint_empty
     else Ok constraint_empty);
  Ok {| parameters := space_empty;
        domain_name := domain_name;
        range_name := range_name;
        domain := domain;
        range := range;
        map_constraints := constraints |}.

(** The text of a relation literal, cut at the delimiters the constructor
    looks for: [{name[dims]sep1->rname[rdims]sep2:cons}].  White space
    belongs to the piece it stands in. *)
Definition map_literal (name dims sep1 rname rdims sep2 cons : string) : string :=
  "{" ++ name ++ "[" ++ dims ++ "]" ++ sep1 ++ "->" ++ rname ++ "[" ++ rdims ++ "]"
      ++ sep2 ++ ":" ++ cons ++ "}".

(** The same without a constraint part. *)
Definition map_literal_unconstrained (name dims sep1 rname rdims sep2 : string) : string :=
  "{" ++ name ++ "[" ++ dims ++ "]" ++ sep1 ++ "->" ++ rname ++ "[" ++ rdims ++ "]"
      ++ sep2 ++ "}".

(** The text of a set literal: [{name[dims]sep:cons}]. *)
Definition set_literal (name dims sep cons : string) : string :=
  "{" ++ name ++ "[" ++ dims ++ "]" ++ sep ++ ":" ++ cons ++ "}".

End Literal.

(** [s] holds none of the characters of [cs]. *)
Definition free_of (cs s : string) : bool :=
  forallb (fun c => negb (mem c s)) (list_ascii_of_string cs).

(** A stand-in for [coli::split_string], for running the parser:
    the pieces of [str] between the occurrences of [delimiter], pushed at
    the back of [vector].  [skip] counts the characters of a delimiter
    that is being stepped over, [token] is the piece read so far. *)
Fixpoint split_pieces (delimiter : string) (skip : nat) (str token : string)
  : list string :=
  match str with
  | EmptyString => [token]
  | String c str' =>
      match skip with
      | S k => split_pieces delimiter k str' token
      | O =>
          if String.prefix delimiter str
          then token :: split_pieces delimiter (String.length delimiter - 1) str' ""
          else split_pieces delimiter 0 str' (token ++ String c "")
      end
  end.

Definition split_string_model (str delimiter : string) (vector : list string)
  : list string :=
  vector ++ split_pieces delimiter 0 str "".

Definition space_parse_model (str : string) (sp : space) : space :=
  mk_space (split_string_model str "," (dimensions sp)).

End Parser.


(** ** Presburger values

    The Presburger library is an external collaborator.  Its values are
    embedded by what the core observes of them: the tuple (name and number of
    dimensions) of each side, and the points a set holds or a relation
    relates.  Parameters are held fixed: a value denotes its points under one
    valuation of the parameters.  A NULL handle is [None]. *)

Module Isl.

(** [isl_dim_set] and [isl_dim_out] are one enumerator in isl. *)
Inductive isl_dim_type : Type := isl_dim_param | isl_dim_in | isl_dim_out.
Definition isl_dim_set : isl_dim_type := isl_dim_out.

(** A tuple: its name, if it has one, and its number of dimensions. *)
Record isl_tuple : Type := mk_tuple {
  tuple_name : option string;
  tuple_dim : nat
}.

#[global] Instance isl_tuple_eq_dec : EqDecision isl_tuple.
Proof. solve_decision. Defined.

Inductive isl_space : Type :=
| set_space (t : isl_tuple)
| map_space (t_in t_out : isl_tuple).

Record isl_set : Type := mk_set {
  set_tuple : isl_tuple;
  set_contains : list Z -> Prop
}.

Record isl_map : Type := mk_isl_map {
  map_in : isl_tuple;
  map_out : isl_tuple;
  map_relates : list Z -> list Z -> Prop
}.

(** A union keeps one piece per space. *)
Definition isl_union_set : Type := list isl_set.
Definition isl_union_map : Type := list isl_map.

(** Handles are reference counted; a copy is the same value. *)
Definition isl_set_copy (s : option isl_set) : option isl_set := s.
Definition isl_map_copy (m : option isl_map) : option isl_map := m.
Definition isl_union_map_copy (m : option isl_union_map) : option isl_union_map := m.

Definition isl_set_get_space (s : option isl_set) : option isl_space :=
  s' ← s; Some (set_space (set_tuple s')).

Definition isl_space_get_tuple_name (sp : option isl_space) (type : isl_dim_type)
  : option string :=
  sp' ← sp;
  match sp', type with
  | set_space t, isl_dim_out => tuple_name t
  | map_space t _, isl_dim_in => tuple_name t
  | map_space _ t, isl_dim_out => tuple_name t
  | _, _ => None
  end.

Definition isl_map_get_tuple_name (m : option isl_map) (type : isl_dim_type)
  : option string :=
  m' ← m;
  match type with
  | isl_dim_in => tuple_name (map_in m')
  | isl_dim_out => tuple_name (map_out m')
  | isl_dim_param => None
  end.

Definition isl_space_map_from_set (sp : option isl_space) : option isl_space :=
  sp' ← sp;
  match sp' with
  | set_space t => Some (map_space t t)
  | map_space _ _ => None
  end.

(** The identity on a whole space; both sides need as many dimensions. *)
Definition isl_map_identity (sp : option isl_space) : option isl_map :=
  sp' ← sp;
  match sp' with
  | map_space t_in t_out =>
      if decide (tuple_dim t_in = tuple_dim t_out)
      then Some {| map_in := t_in;
                   map_out := t_out;
                   map_relates := fun x y => length x = tuple_dim t_in /\ y = x |}
      else None
  | set_space _ => None
  end.

Definition isl_map_set_tuple_name (m : option isl_map) (type : isl_dim_type)
  (s : string) : option isl_map :=
  m' ← m;
  match type with
  | isl_dim_in =>
      Some {| map_in := mk_tuple (Some s) (tuple_dim (map_in m'));
              map_out := map_out m';
              map_relates := map_relates m' |}
  | isl_dim_out =>
      Some {| map_in := map_in m';
              map_out := mk_tuple (Some s) (tuple_dim (map_out m'));
              map_relates := map_relates m' |}
  | isl_dim_param => None
  end.

(** The image of a set under a relation; the set has to live in the
    domain space of the relation. *)
Definition isl_set_apply (s : option isl_set) (m : option isl_map) : option isl_set :=
  s' ← s; m' ← m;
  if decide (set_tuple s' = map_in m')
  then Some {| set_tuple := map_out m';
               set_contains := fun y =>
                 exists x, set_contains s' x /\ map_relates m' x y |}
  else None.

(** [m1] followed by [m2]. *)
Definition isl_map_apply_range (m1 m2 : option isl_map) : option isl_map :=
  a ← m1; b ← m2;
  if decide (map_out a = map_in b)
  then Some {| map_in := map_in a;
               map_out := map_out b;
               map_relates := fun x z =>
                 exists y, map_relates a x y /\ map_relates b y z |}
  else None.

(** Each piece of the union map, cut down to the points of its domain that
    some piece of the union set in the same space holds. *)
Definition isl_union_map_intersect_domain (um : option isl_union_map)
  (us : option isl_union_set) : option isl_union_map :=
  um' ← um; us' ← us;
  Some (List.map (fun m =>
          {| map_in := map_in m;
             map_out := map_out m;
             map_relates := fun x y =>
               map_relates m x y
               /\ exists s, In s us' /\ set_tuple s = map_in m /\ set_contains s x |})
        um').

(** Two sets with the same tuple and the same points. *)
Definition set_equiv (a b : isl_set) : Prop :=
  set_tuple a = set_tuple b /\ forall p, set_contains a p <-> set_contains b p.

(** Two relations with the same tuples that relate the same points. *)
Definition map_equiv (a b : isl_map) : Prop :=
  map_in a = map_in b /\ map_out a = map_out b
  /\ forall x y, map_relates a x y <-> map_relates b x y.

End Isl.

(** ** [coli::computation], [coli::function], [coli::library] *)

Module Core.
Import Cxx Isl.

(** An isl context; of its options the core sets one. *)
Record isl_ctx : Type := mk_ctx { ast_build_atomic_upper_bound : Z }.

(** The two callbacks core.h declares for the AST generator. *)
Inductive callback : Type := for_code_generator_after_for | stmt_code_generator.

(** An AST build: its context and the callbacks installed on it, each with
    its [user] pointer. *)
Record isl_ast_build : Type := mk_build {
  build_ctx : nat;
  after_each_for : option (callback * option nat);
  at_each_domain : option (callback * option nat)
}.

(** The message of the assertion in [set_schedule]. *)
Definition names_message : string :=
  "Domain and range space names in the mapping from iteration space to processor-time must be identical.".

Section Program.

(** Values of the back end and of the AST generator, which the core stores
    and never looks into. *)
Context {Expr Stmt isl_ast_expr isl_ast_node : Type}.

(** Reading and printing of Presburger values, as the library does them. *)
Variable isl_set_read_from_str : string -> option isl_set.
Variable isl_set_to_str : isl_set -> string.
Variable isl_map_read_from_str : string -> option isl_map.

(** The AST generator: it reads the options of the build's context. *)
Variable isl_ast_build_node_from_schedule_map :
  gmap nat isl_ctx -> option isl_ast_build -> option isl_union_map -> option isl_ast_node.

(** [class computation].  Objects are referred to by handle: [ctx] is the
    handle of an isl context, [function] that of the owning function. *)
Record computation : Type := mk_computation {
  ctx : option nat;
  time_processor_space : option isl_set;
  iter_space : option isl_set;
  schedule : option isl_map;
  function : option nat;
  name : string;
  expression : Expr;
  stmt : option Stmt;
  access : option isl_map;
  index_expr : option isl_ast_expr
}.

(** [class function], without its Halide-typed members ([arguments],
    [halide_stmt], [buffers_list]), which no method below touches. *)
Record function_t : Type := mk_function {
  fn_library : option nat;
  fn_name : string;
  body : list nat
}.

(** [class library]. *)
Record library : Type := mk_library {
  lib_name : string;
  functions : list nat;
  lib_ctx : option nat;
  ast : option isl_ast_node;
  parallel_dimensions : gmap string Z;
  vector_dimensions : gmap string Z
}.

(** The objects alive in a run, by handle, and the global
    [computations_list]. *)
Record world : Type := mk_world {
  contexts : gmap nat isl_ctx;
  libraries : gmap nat library;
  function_objects : gmap nat function_t;
  computation_objects : gmap nat computation;
  computations_list : gmap string nat
}.

(** Following a pointer: NULL and dangling handles end the call. *)
Definition deref {A : Type} (store : gmap nat A) (p : option nat) : result A :=
  match p with
  | None => Err NullPointer
  | Some h => match store !! h with Some a => Ok a | None => Err NullPointer end
  end.

Definition set_schedule_field (m : option isl_map) (c : computation) : computation :=
  {| ctx := ctx c; time_processor_space := time_processor_space c;
     iter_space := iter_space c; schedule := m; function := function c;
     name := name c; expression := expression c; stmt := stmt c;
     access := access c; index_expr := index_expr c |}.

Definition set_time_processor_space_field (s : option isl_set) (c : computation)
  : computation :=
  {| ctx := ctx c; time_processor_space := s;
     iter_space := iter_space c; schedule := schedule c; function := function c;
     name := name c; expression := expression c; stmt := stmt c;
     access := access c; index_expr := index_expr c |}.

Definition set_access_field (m : option isl_map) (c : computation) : computation :=
  {| ctx := ctx c; time_processor_space := time_processor_space c;
     iter_space := iter_space c; schedule := schedule c; function := function c;
     name := name c; expression := expression c; stmt := stmt c;
     access := m; index_expr := index_expr c |}.

(** *** Methods of [computation]

    A method takes the object and returns its result with the object after
    the call. *)

Definition get_access (c : computation) : result (option isl_map * computation) :=
  Ok (access c, c).

Definition get_iteration_space_representation (c : computation)
  : result (option isl_set * computation) :=
  _ ← assert (bool_decide (is_Some (iter_space c))) "iter_space != NULL";
  Ok (iter_space c, c).

Definition get_time_processor_representation (c : computation)
  : result (option isl_set * computation) :=
  Ok (time_processor_space c, c).

Definition get_schedule (c : computation) : result (option isl_map * computation) :=
  Ok (schedule c, c).

Definition get_name (c : computation) : result (string * computation) :=
  Ok (name c, c).

(** [computation::get_time_processor_identity_relation]. *)
Definition get_time_processor_identity_relation (c : computation)
  : result (option isl_map * computation) :=
  '(tp, c) ← get_time_processor_representation c;
  _ ← assert (bool_decide (is_Some tp)) "get_time_processor_representation() != NULL";
  '(tp, c) ← get_time_processor_representation c;
  let sp := isl_set_get_space tp in
  let out := isl_map_identity (isl_space_map_from_set sp) in
  let out := isl_map_set_tuple_name out isl_dim_out "" in
  Ok (out, c).

(** [computation::gen_time_processor_IR]. *)
Definition gen_time_processor_IR (c : computation) : result (unit * computation) :=
  '(it, c) ← get_iteration_space_representation c;
  _ ← assert (bool_decide (is_Some it)) "this->get_iteration_space_representation() != NULL";
  '(sc, c) ← get_schedule c;
  _ ← assert (bool_decide (is_Some sc)) "this->get_schedule() != NULL";
  '(it, c) ← get_iteration_space_representation c;
  '(sc, c) ← get_schedule c;
  Ok (tt, set_time_processor_space_field
            (isl_set_apply (isl_set_copy it) (isl_map_copy sc)) c).

(** [computation::SetWriteAccess]. *)
Definition SetWriteAccess (access_str : string) (c : computation)
  : result (unit * computation) :=
  _ ← assert (0 <? size access_str) "access_str.length() > 0";
  Ok (tt, set_access_field (isl_map_read_from_str access_str) c).

(** [computation::set_schedule(isl_map* map)].  [strcmp] reads both names; a
    NULL name (a NULL map, a tuple without a name) is a NULL dereference. *)
Definition set_schedule (map : option isl_map) (c : computation)
  : result (unit * computation) :=
  match isl_map_get_tuple_name map isl_dim_in, isl_map_get_tuple_name map isl_dim_out with
  | Some name_in, Some name_out =>
      let diff := strcmp_eq name_in name_out in
      _ ← assert diff
        "Domain and range space names in the mapping from iteration space to processor-time must be identical.";
      Ok (tt, set_schedule_field map c)
  | _, _ => Err NullPointer
  end.

(** Modelled from the spec: [computation::set_schedule(std::string)], which
    core.h declares ("The input string must be in the ISL map format") and
    no file under src/ defines.  The text is read as a relation
    (parse-relation-from-text of the facade) and handed to
    [set_schedule(isl_map* map)]. *)
Definition set_schedule_str (map_str : string) (c : computation)
  : result (unit * computation) :=
  set_schedule (isl_map_read_from_str map_str) c.

(** The text [set_identity_schedule] builds: [domain] and
    [schedule_map_str] both start as the printed iteration set. *)
Definition identity_schedule_text (domain schedule_map_str : string) : result string :=
  domain ← erase domain (find domain "{" 0) 1;
  domain ← erase domain (find domain "}" 0) 1;
  domain ←
    (if negb (find schedule_map_str ":" 0 =? npos)
     then erase domain (find domain ":" 0)
            (to_size_t (size domain - find domain ":" 0))
     else Ok domain);
  if negb (find schedule_map_str ":" 0 =? npos)
  then insert schedule_map_str (find schedule_map_str ":" 0) (" -> " ++ domain)
  else insert schedule_map_str (to_size_t (find schedule_map_str "]" 0 + 1))
         (" -> " ++ domain).

(** [isl_set_to_str] of a NULL set is a NULL string. *)
Definition set_text (s : option isl_set) : result string :=
  match s with
  | Some s' => Ok (isl_set_to_str s')
  | None => Err NullPointer
  end.

(** [computation::set_identity_schedule]. *)
Definition set_identity_schedule (c : computation) : result (unit * computation) :=
  '(it, c) ← get_iteration_space_representation c;
  domain ← set_text it;
  '(it, c) ← get_iteration_space_representation c;
  schedule_map_str ← set_text it;
  schedule_map_str ← identity_schedule_text domain schedule_map_str;
  set_schedule_str schedule_map_str c.

(** Modelled from the spec: [function::add_computation], declared in core.h
    ("Add a computation to the function.  The order in which computations
    are added to the function is not important") and defined outside src/:
    the handle joins [body]. *)
Definition add_computation (cpt : nat) (f : function_t) : function_t :=
  {| fn_library := fn_library f; fn_name := fn_name f; body := body f ++ [cpt] |}.

(** [std::map::insert]: a key that is already bound keeps its value. *)
Definition map_insert_if_absent {V : Type} (k : string) (v : V) (m : gmap string V)
  : gmap string V :=
  match m !! k with Some _ => m | None => <[k := v]> m end.

(** [computation::computation(expr, iteration_space_str, fct)].  The new
    object gets a handle that is not in use. *)
Definition computation_new (expr : Expr) (iteration_space_str : string)
  (fct : option nat) (w : world) : result (nat * world) :=
  _ ← assert (bool_decide (is_Some fct)) "fct != NULL";
  _ ← assert (0 <? size iteration_space_str) "Empty iteration space";
  f ← deref (function_objects w) fct;
  _ ← assert (bool_decide (is_Some (fn_library f))) "fct->get_library() != NULL";
  l ← deref (libraries w) (fn_library f);
  let this := fresh (dom (computation_objects w)) in
  let iter_space := isl_set_read_from_str iteration_space_str in
  match isl_space_get_tuple_name (isl_set_get_space iter_space) isl_dim_set with
  | None => Err NullPointer
  | Some name =>
      let c := {| ctx := lib_ctx l; time_processor_space := None;
                  iter_space := iter_space; schedule := None; function := fct;
                  name := name; expression := expr; stmt := None;
                  access := None; index_expr := None |} in
      let registry := map_insert_if_absent name this (computations_list w) in
      let fs := match fct with
                | Some h => <[h := add_computation this f]> (function_objects w)
                | None => function_objects w
                end in
      '(_, c) ← set_identity_schedule c;
      Ok (this, {| contexts := contexts w;
                   libraries := libraries w;
                   function_objects := fs;
                   computation_objects := <[this := c]> (computation_objects w);
                   computations_list := registry |})
  end.

(** *** Methods of [library] *)

Definition set_ast_field (a : option isl_ast_node) (l : library) : library :=
  {| lib_name := lib_name l; functions := functions l; lib_ctx := lib_ctx l;
     ast := a; parallel_dimensions := parallel_dimensions l;
     vector_dimensions := vector_dimensions l |}.

Definition get_ctx (l : library) : result (option nat * library) := Ok (lib_ctx l, l).

(** [library::parallelize]. *)
Definition parallelize (comp : string) (lev : Z) (l : library) : result (bool * library) :=
  _ ← assert (0 <? size comp) "comp.length() > 0";
  _ ← assert (0 <=? lev) "lev >= 0";
  match parallel_dimensions l !! comp with
  | None => Ok (false, l)
  | Some second => Ok (second =? lev, l)
  end.

(** [library::vectorize]. *)
Definition vectorize (comp : string) (lev : Z) (l : library) : result (bool * library) :=
  _ ← assert (0 <? size comp) "comp.length() > 0";
  _ ← assert (0 <=? lev) "lev >= 0";
  match vector_dimensions l !! comp with
  | None => Ok (false, l)
  | Some second => Ok (second =? lev, l)
  end.

(** Modelled from the spec: [library::add_parallel_dimension], declared in
    core.h only.  "Record (C, L) in the Program's tag map; do not modify the
    relation.  ... re-tagging replaces." *)
Definition add_parallel_dimension (computation_name : string) (vec_dim : Z)
  (l : library) : result (unit * library) :=
  Ok (tt, {| lib_name := lib_name l; functions := functions l; lib_ctx := lib_ctx l;
             ast := ast l;
             parallel_dimensions := <[computation_name := vec_dim]> (parallel_dimensions l);
             vector_dimensions := vector_dimensions l |}).

(** Modelled from the spec: [library::add_vector_dimension], declared in
    core.h only; as [add_parallel_dimension], on the vector tags. *)
Definition add_vector_dimension (computation_name : string) (vec_dim : Z)
  (l : library) : result (unit * library) :=
  Ok (tt, {| lib_name := lib_name l; functions := functions l; lib_ctx := lib_ctx l;
             ast := ast l;
             parallel_dimensions := parallel_dimensions l;
             vector_dimensions := <[computation_name := vec_dim]> (vector_dimensions l) |}).

(** [library::get_time_processor_representation] and
    [library::get_time_processor_identity_relation] are declared in core.h
    and defined outside src/: what they return for the library [this] in a
    given state of the program is left open. *)
Variable library_get_time_processor_representation :
  world -> nat -> option isl_union_set.
Variable library_get_time_processor_identity_relation :
  world -> nat -> option isl_union_map.

Definition isl_ast_build_alloc (ctx : option nat) : option isl_ast_build :=
  cx ← ctx; Some {| build_ctx := cx; after_each_for := None; at_each_domain := None |}.

Definition isl_ast_build_set_after_each_for (build : option isl_ast_build)
  (fn : callback) (user : option nat) : option isl_ast_build :=
  b ← build;
  Some {| build_ctx := build_ctx b; after_each_for := Some (fn, user);
          at_each_domain := at_each_domain b |}.

Definition isl_ast_build_set_at_each_domain (build : option isl_ast_build)
  (fn : callback) (user : option nat) : option isl_ast_build :=
  b ← build;
  Some {| build_ctx := build_ctx b; after_each_for := after_each_for b;
          at_each_domain := Some (fn, user) |}.

(** The option lives in the context, which the program shares. *)
Definition isl_options_set_ast_build_atomic_upper_bound (ctx : option nat) (val : Z)
  (w : world) : world :=
  match ctx with
  | Some cx =>
      {| contexts := alter (fun _ => mk_ctx val) cx (contexts w);
         libraries := libraries w;
         function_objects := function_objects w;
         computation_objects := computation_objects w;
         computations_list := computations_list w |}
  | None => w
  end.

(** [library::gen_isl_ast], on the library with handle [this]. *)
Definition gen_isl_ast (this : nat) (w : world) : result (unit * world) :=
  l ← deref (libraries w) (Some this);
  _ ← assert (bool_decide (is_Some (library_get_time_processor_representation w this)))
        "this->get_time_processor_representation() != NULL";
  _ ← assert (bool_decide (is_Some (library_get_time_processor_identity_relation w this)))
        "this->get_time_processor_identity_relation() != NULL";
  '(ctx, l) ← get_ctx l;
  let ast_build := isl_ast_build_alloc ctx in
  let w := isl_options_set_ast_build_atomic_upper_bound ctx 1 w in
  let ast_build :=
    isl_ast_build_set_after_each_for ast_build for_code_generator_after_for None in
  let ast_build :=
    isl_ast_build_set_at_each_domain ast_build stmt_code_generator None in
  let sched := library_get_time_processor_identity_relation w this in
  let sched := isl_union_map_intersect_domain sched
                 (library_get_time_processor_representation w this) in
  let ast := isl_ast_build_node_from_schedule_map (contexts w) ast_build
               (isl_union_map_copy sched) in
  Ok (tt, {| contexts := contexts w;
             libraries := <[this := set_ast_field ast l]> (libraries w);
             function_objects := function_objects w;
             computation_objects := computation_objects w;
             computations_list := computations_list w |}).

(** [library::get_isl_ast]. *)
Definition get_isl_ast (l : library) : result (option isl_ast_node * library) :=
  _ ← assert (bool_decide (is_Some (ast l)))
        "Generate the ISL ast using gen_isl_ast() before calling get_isl_ast().";
  Ok (ast l, l).

End Program.

End Core.

(** ** The schedule algebra: split, interchange, tile

    core.h declares [computation::split], [computation::interchange] and
    [computation::tile]; their bodies are in a file outside src/.  They are
    embedded from the specification of the schedule algebra. *)

Module ScheduleAlgebra.
Import Isl Core.

(** [i_d] becomes the pair [⌊i_d / f⌋, i_d mod f]. *)
Definition split_point (d : nat) (f : Z) (t : list Z) : list Z :=
  match t !! d with
  | Some x => take d t ++ [x / f; x mod f] ++ drop (S d) t
  | None => t
  end.

(** Dimensions [d1] and [d2] change places. *)
Definition interchange_point (d1 d2 : nat) (t : list Z) : list Z :=
  match t !! d1, t !! d2 with
  | Some x, Some y => <[d1 := y]> (<[d2 := x]> t)
  | _, _ => t
  end.

(** Dimensions [d], [d+1] become [(d^o, (d+1)^o, d^i, (d+1)^i)]. *)
Definition tile_point (d : nat) (f1 f2 : Z) (t : list Z) : list Z :=
  match t !! d, t !! S d with
  | Some a, Some b =>
      take d t ++ [a / f1; b / f2; a mod f1; b mod f2] ++ drop (S (S d)) t
  | _, _ => t
  end.

(** The relation [{C[t] -> C[g t]}] over tuples of [n_in] dimensions. *)
Definition transformation (C : string) (n_in n_out : nat) (g : list Z -> list Z)
  : isl_map :=
  {| map_in := mk_tuple (Some C) n_in;
     map_out := mk_tuple (Some C) n_out;
     map_relates := fun t t' => length t = n_in /\ t' = g t |}.

Section Transformations.

Context {Expr Stmt isl_ast_expr : Type}.
Abbreviation computation := (@computation Expr Stmt isl_ast_expr).

(** The current schedule followed by a transformation of its range. *)
Definition transform_schedule (s : isl_map) (T : isl_map) (c : computation)
  : result (unit * computation) :=
  match isl_map_apply_range (Some s) (Some T) with
  | Some s' => Ok (tt, set_schedule_field (Some s') c)
  | None => Err SpaceMismatch
  end.

(** Modelled from the spec: [computation::split], declared in core.h only.
    "Replace iterator i_d with two iterators ... The schedule becomes
    {C[...,i_d,...] -> C[...,⌊i_d/f⌋, i_d mod f,...]} composed with the current
    schedule.  New out-arity is m+1.  Fails with InvalidLevel if d ≥ m or
    f ≤ 0." *)
Definition split (d : nat) (f : Z) (c : computation) : result (unit * computation) :=
  match schedule c with
  | None => Err NullPointer
  | Some s =>
      let m := tuple_dim (map_out s) in
      if bool_decide (m ≤ d)%nat || (f <=? 0) then Err InvalidLevel
      else transform_schedule s (transformation (name c) m (S m) (split_point d f)) c
  end.

(** Modelled from the spec: [computation::interchange], declared in core.h
    only.  "Swap output dimensions d₁ and d₂.  Fails if either index is out
    of range or equal." *)
Definition interchange (d1 d2 : nat) (c : computation) : result (unit * computation) :=
  match schedule c with
  | None => Err NullPointer
  | Some s =>
      let m := tuple_dim (map_out s) in
      if bool_decide (m ≤ d1)%nat || bool_decide (m ≤ d2)%nat || bool_decide (d1 = d2)
      then Err InvalidLevel
      else transform_schedule s (transformation (name c) m m (interchange_point d1 d2)) c
  end.

(** Modelled from the spec: [computation::tile], declared in core.h only.
    "Contract: d₁ < d₂, d₂ = d₁+1, f₁, f₂ > 0.  After the operation the loop
    order is (d₁^o, d₂^o, d₁^i, d₂^i) at levels d₁, d₂, d₁+2, d₂+2."  The
    transformation is written from that loop order, not from the sequence
    of splits it is compared with below. *)
Definition tile (d1 d2 : nat) (f1 f2 : Z) (c : computation)
  : result (unit * computation) :=
  match schedule c with
  | None => Err NullPointer
  | Some s =>
      let m := tuple_dim (map_out s) in
      if negb (bool_decide (d2 = S d1)) || bool_decide (m ≤ d2)%nat then Err InvalidLevel
      else if (f1 <=? 0) || (f2 <=? 0) then Err InvalidFactor
      else transform_schedule s
             (transformation (name c) m (S (S m)) (tile_point d1 f1 f2)) c
  end.

(** [split(d, f1); split(d+2, f2); interchange(d+1, d+2)]. *)
Definition split_split_interchange (d : nat) (f1 f2 : Z) (c : computation)
  : result (unit * computation) :=
  '(_, c) ← split d f1 c;
  '(_, c) ← split (d + 2) f2 c;
  interchange (d + 1) (d + 2) c.

(** The named transformations, and a sequence of them applied in order. *)
Inductive transformation_t : Type :=
| Split (d : nat) (f : Z)
| Interchange (d1 d2 : nat)
| Tile (d1 d2 : nat) (f1 f2 : Z).

Definition apply_transformation (t : transformation_t) (c : computation)
  : result (unit * computation) :=
  match t with
  | Split d f => split d f c
  | Interchange d1 d2 => interchange d1 d2 c
  | Tile d1 d2 f1 f2 => tile d1 d2 f1 f2 c
  end.

Fixpoint apply_transformations (ts : list transformation_t) (c : computation)
  : result computation :=
  match ts with
  | [] => Ok c
  | t :: ts' => '(_, c') ← apply_transformation t c; apply_transformations ts' c'
  end.

(** The image of the iteration set under the schedule: what
    [gen_time_processor_IR] stores. *)
Definition image (c : computation) : option isl_set :=
  isl_set_apply (iter_space c) (schedule c).

(** Whether two runs ended alike: both failed, or both returned and the
    objects they left satisfy [R]. *)
Definition alike (R : computation -> computation -> Prop)
  (a b : result (unit * computation)) : Prop :=
  match a, b with
  | Ok (_, ca), Ok (_, cb) => R ca cb
  | Err _, Err _ => True
  | _, _ => False
  end.

(** The same iteration set, and the same image of it under the schedule. *)
Definition same_image (ca cb : computation) : Prop :=
  iter_space ca = iter_space cb
  /\ match image ca, image cb with
     | Some a, Some b => set_equiv a b
     | None, None => True
     | _, _ => False
     end.

(** The invariant of the data model, on names: the domain of the schedule
    carries the tuple name of the iteration set. *)
Definition schedule_domain_is_iteration_set (c : computation) : Prop :=
  exists n : string,
    isl_space_get_tuple_name (isl_set_get_space (iter_space c)) isl_dim_set = Some n
    /\ isl_map_get_tuple_name (schedule c) isl_dim_in = Some n.

End Transformations.

End ScheduleAlgebra.

(** ** The exhaustive state generator: fusion and interchange passes *)

Module AutoScheduler.

Inductive optimization_type : Type := FUSION | TILING | INTERCHANGE | UNROLLING.

(** A node of the syntax tree: one loop level.  The fields are those the
    generator reads; computations are referred to by handle. *)
Inductive ast_node : Type :=
  mk_ast_node (name : string) (low_bound up_bound : Z) (unrolled : bool) (depth : Z)
              (computations : list nat) (children : list ast_node).

Definition name (n : ast_node) : string :=
  match n with mk_ast_node x _ _ _ _ _ _ => x end.
Definition low_bound (n : ast_node) : Z :=
  match n with mk_ast_node _ x _ _ _ _ _ => x end.
Definition up_bound (n : ast_node) : Z :=
  match n with mk_ast_node _ _ x _ _ _ _ => x end.
Definition unrolled (n : ast_node) : bool :=
  match n with mk_ast_node _ _ _ x _ _ _ => x end.
Definition depth (n : ast_node) : Z :=
  match n with mk_ast_node _ _ _ _ x _ _ => x end.
Definition computations (n : ast_node) : list nat :=
  match n with mk_ast_node _ _ _ _ _ x _ => x end.
Definition children (n : ast_node) : list ast_node :=
  match n with mk_ast_node _ _ _ _ _ _ x => x end.

(** [optimization_info].  A field the generator does not assign holds no
    value. *)
Record optimization_info : Type := mk_optimization_info {
  type : optimization_type;
  node : option ast_node;
  nb_l : option Z;
  l0 : option Z;
  l1 : option Z;
  l2 : option Z;
  l0_fact : option Z;
  l1_fact : option Z;
  l2_fact : option Z;
  comps : list (option nat)
}.

Record syntax_tree : Type := mk_syntax_tree {
  roots : list ast_node;
  optims_info : list optimization_info
}.

(** [new syntax_tree()]. *)
Definition syntax_tree_new : syntax_tree := {| roots := []; optims_info := [] |}.

(** Modelled from the spec: [syntax_tree::copy_and_return_node], which the
    generator calls and no file under src/ defines.  "Each candidate is a
    cloned syntax tree": the nodes of [ast] are copied into [new_ast], and
    the copy of [node_to_find] is returned. *)
Definition copy_and_return_node (ast new_ast : syntax_tree) (node_to_find : ast_node)
  : syntax_tree * ast_node :=
  ({| roots := (roots new_ast ++ roots ast)%list; optims_info := optims_info new_ast |},
   node_to_find).

Definition push_optim_info (info : optimization_info) (t : syntax_tree) : syntax_tree :=
  {| roots := roots t; optims_info := (optims_info t ++ [info])%list |}.

Section Generator.

(** Methods of [ast_node] the generator calls; their bodies are outside
    src/. *)
Variable get_loop_levels_chain_depth : ast_node -> Z.
Variable get_rightmost_computation : ast_node -> option nat.
Variable get_leftmost_computation : ast_node -> option nat.
(** [get_all_computations node comps] is [comps] after the call. *)
Variable get_all_computations : ast_node -> list (option nat) -> list (option nat).

(** The body of the innermost [if] of [generate_fusions]: the candidate
    for [tree_level[i]] and [tree_level[j]]. *)
Definition fusion_candidate (ast : syntax_tree) (i j : nat) (node_i node_j : ast_node)
  : syntax_tree :=
  let new_ast := syntax_tree_new in
  let '(new_ast, new_node) := copy_and_return_node ast new_ast node_i in
  let optim_info :=
    {| type := FUSION;
       node := Some new_node;
       comps := [get_rightmost_computation node_i; get_leftmost_computation node_j];
       nb_l := Some 2;
       l0 := Some (Z.of_nat i);
       l1 := Some (Z.of_nat j);
       l2 := None;
       l0_fact := Some (depth node_i);
       l1_fact := None;
       l2_fact := None |} in
  push_optim_info optim_info new_ast.

(** The test of the innermost [if]. *)
Definition same_loop (a b : ast_node) : bool :=
  String.eqb (name a) (name b)
  && (low_bound a =? low_bound b)
  && (up_bound a =? up_bound b).

(** The loop over [j], for a given [i]. *)
Definition generate_fusions_j (ast : syntax_tree) (tree_level : list ast_node)
  (i : nat) (node_i : ast_node) (states : list syntax_tree) : list syntax_tree :=
  fold_left
    (fun (states : list syntax_tree) j =>
       match tree_level !! j with
       | Some node_j =>
           if unrolled node_j then states
           else if same_loop node_i node_j
                then (states ++ [fusion_candidate ast i j node_i node_j])%list
                else states
       | None => states
       end)
    (seq (S i) (length tree_level - S i)) states.

(** The loop over [i]. *)
Definition generate_fusions_level (ast : syntax_tree) (tree_level : list ast_node)
  (states : list syntax_tree) : list syntax_tree :=
  fold_left
    (fun (states : list syntax_tree) i =>
       match tree_level !! i with
       | Some node_i =>
           if unrolled node_i then states
           else generate_fusions_j ast tree_level i node_i states
       | None => states
       end)
    (seq 0 (length tree_level)) states.

(** [generate_fusions(node->children, states, ast)]. *)
Fixpoint generate_fusions_children (ast : syntax_tree) (node : ast_node)
  (states : list syntax_tree) {struct node} : list syntax_tree :=
  match node with
  | mk_ast_node _ _ _ _ _ _ children =>
      let states := generate_fusions_level ast children states in
      fold_left (fun states child => generate_fusions_children ast child states)
        children states
  end.

(** [exhaustive_generator::generate_fusions]; [states] is returned as it is
    after the call. *)
Definition generate_fusions (tree_level : list ast_node) (states : list syntax_tree)
  (ast : syntax_tree) : list syntax_tree :=
  let states := generate_fusions_level ast tree_level states in
  fold_left (fun states node => generate_fusions_children ast node states)
    tree_level states.

(** The body of the [for] of [generate_interchanges]. *)
Definition interchange_candidate (ast : syntax_tree) (node_ : ast_node) (i : Z)
  : syntax_tree :=
  let new_ast := syntax_tree_new in
  let '(new_ast, new_node) := copy_and_return_node ast new_ast node_ in
  let optim_info :=
    {| type := INTERCHANGE;
       node := Some new_node;
       nb_l := Some 2;
       l0 := Some (depth node_);
       l1 := Some i;
       l2 := None;
       l0_fact := None;
       l1_fact := None;
       l2_fact := None;
       comps := get_all_computations new_node [] |} in
  push_optim_info optim_info new_ast.

(** The [if (!node->unrolled)] block. *)
Definition generate_interchanges_node (ast : syntax_tree) (node_ : ast_node)
  (states : list syntax_tree) : list syntax_tree :=
  if negb (unrolled node_)
  then
    let branch_depth := get_loop_levels_chain_depth node_ in
    fold_left (fun (states : list syntax_tree) i =>
                 (states ++ [interchange_candidate ast node_ i])%list)
      (seqZ (depth node_ + 1) (branch_depth - (depth node_ + 1))) states
  else states.

(** [exhaustive_generator::generate_interchanges]. *)
Fixpoint generate_interchanges (node_ : ast_node) (states : list syntax_tree)
  (ast : syntax_tree) {struct node_} : list syntax_tree :=
  let states := generate_interchanges_node ast node_ states in
  match node_ with
  | mk_ast_node _ _ _ _ _ _ children =>
      fold_left (fun states child => generate_interchanges child states ast)
        children states
  end.

(** *** What the passes are expected to emit *)

(** The positions [(i, j)], [i < j], of a level of [n] nodes, in the order
    of the two loops. *)
Definition sibling_pairs (n : nat) : list (nat * nat) :=
  seq 0 n ≫= fun i => pair i <$> seq (S i) (n - S i).

(** The two nodes are loops with the same iterator name and bounds, and
    neither is unrolled. *)
Definition fusable (tree_level : list ast_node) (ij : nat * nat) : bool :=
  match tree_level !! ij.1, tree_level !! ij.2 with
  | Some a, Some b => negb (unrolled a) && negb (unrolled b) && same_loop a b
  | _, _ => false
  end.

Definition fusable_pairs (tree_level : list ast_node) : list (nat * nat) :=
  filter (fun ij => fusable tree_level ij = true) (sibling_pairs (length tree_level)).

(** The candidate a pair of positions stands for. *)
Definition fusion_candidate_at (ast : syntax_tree) (tree_level : list ast_node)
  (ij : nat * nat) : option syntax_tree :=
  match tree_level !! ij.1, tree_level !! ij.2 with
  | Some a, Some b => Some (fusion_candidate ast ij.1 ij.2 a b)
  | _, _ => None
  end.

(** One candidate for each fusable pair of a level. *)
Definition level_fusions (ast : syntax_tree) (tree_level : list ast_node)
  : list syntax_tree :=
  omap (fusion_candidate_at ast tree_level) (fusable_pairs tree_level).

(** A node and everything below it, in the order of the traversal. *)
Fixpoint nodes_of (node_ : ast_node) : list ast_node :=
  match node_ with
  | mk_ast_node _ _ _ _ _ _ children => node_ :: (children ≫= nodes_of)
  end.

(** The levels of the tree: the given one, then the children of each node,
    in the order of the traversal. *)
Definition tree_levels (tree_level : list ast_node) : list (list ast_node) :=
  tree_level :: (children <$> (tree_level ≫= nodes_of)).

(** The depths strictly between the node's own and that of its chain. *)
Definition chain_depths (node_ : ast_node) : list Z :=
  seqZ (depth node_ + 1) (get_loop_levels_chain_depth node_ - (depth node_ + 1)).

(** One candidate for each depth of the chain, for a node that is not
    unrolled; none for an unrolled one. *)
Definition node_interchanges (ast : syntax_tree) (node_ : ast_node) : list syntax_tree :=
  if unrolled node_ then []
  else interchange_candidate ast node_ <$> chain_depths node_.

(** What a candidate of the fusion pass looks like. *)
Definition fusion_of (ast : syntax_tree) (tree_level : list ast_node)
  (ij : nat * nat) (s : syntax_tree) : Prop :=
  exists a b info,
    tree_level !! ij.1 = Some a /\ tree_level !! ij.2 = Some b
    /\ s = fusion_candidate ast ij.1 ij.2 a b
    /\ roots s = roots ast
    /\ optims_info s = [info]
    /\ type info = FUSION
    /\ l0 info = Some (Z.of_nat ij.1) /\ l1 info = Some (Z.of_nat ij.2).

(** What a candidate of the interchange pass looks like. *)
Definition interchange_of (ast : syntax_tree) (node_ : ast_node) (i : Z)
  (s : syntax_tree) : Prop :=
  exists info,
    s = interchange_candidate ast node_ i
    /\ roots s = roots ast
    /\ optims_info s = [info]
    /\ type info = INTERCHANGE
    /\ l0 info = Some (depth node_) /\ l1 info = Some i.

End Generator.

(** Stand-ins for the methods of [ast_node], for running the generator. *)

(** Modelled from the spec: [ast_node::get_loop_levels_chain_depth]; the
    "perfect-nest chain" of a node goes down as long as a node has a single
    child and no computation of its own. *)
Fixpoint get_loop_levels_chain_depth_model (n : ast_node) : Z :=
  match n with
  | mk_ast_node _ _ _ _ d comps [child] =>
      match comps with
      | [] => get_loop_levels_chain_depth_model child
      | _ => d + 1
      end
  | mk_ast_node _ _ _ _ d _ _ => d + 1
  end.

Fixpoint get_leftmost_computation_model (n : ast_node) : option nat :=
  match n with
  | mk_ast_node _ _ _ _ _ (c :: _) _ => Some c
  | mk_ast_node _ _ _ _ _ [] (child :: _) => get_leftmost_computation_model child
  | mk_ast_node _ _ _ _ _ [] [] => None
  end.

Fixpoint get_rightmost_computation_model (n : ast_node) : option nat :=
  match n with
  | mk_ast_node _ _ _ _ _ comps children =>
      match last (get_rightmost_computation_model <$> children) with
      | Some r => r
      | None => last comps
      end
  end.

Fixpoint get_all_computations_model (n : ast_node) (comps : list (option nat))
  : list (option nat) :=
  match n with
  | mk_ast_node _ _ _ _ _ cs children =>
      fold_left (fun acc child => get_all_computations_model child acc) children
        (comps ++ (Some <$> cs))%list
  end.

End AutoScheduler.

(** ** The program of tutorial_01.cpp

    One library, one function, one computation over
    [{S0[i,j]: 0<=i<=1000 and 0<=j<=1000}].  The Presburger library is
    represented by its answers on the literals of the tutorial, the back end
    by the constant the computation stores. *)

Module Tutorial.
Import Isl Core ScheduleAlgebra.

Definition S0_text : string := "{S0[i,j]: 0<=i<=1000 and 0<=j<=1000}".

Definition S0_printed : string :=
  "{ S0[i, j] : 0 <= i <= 1000 and 0 <= j <= 1000 }".

Definition S0_tuple : isl_tuple := mk_tuple (Some "S0") 2.

Definition S0_iteration_set : isl_set :=
  {| set_tuple := S0_tuple;
     set_contains := fun p =>
       match p with
       | [i; j] => 0 <= i <= 1000 /\ 0 <= j <= 1000
       | _ => False
       end |}.

(** [{ S0[i, j] -> S0[i, j] : 0 <= i <= 1000 and 0 <= j <= 1000 }]. *)
Definition S0_identity : isl_map :=
  {| map_in := S0_tuple;
     map_out := S0_tuple;
     map_relates := fun x y => set_contains S0_iteration_set x /\ y = x |}.

(** [{S0[i,j]->buf0[i, j]}]. *)
Definition S0_access : isl_map :=
  {| map_in := S0_tuple;
     map_out := mk_tuple (Some "buf0") 2;
     map_relates := fun x y => length x = 2%nat /\ y = x |}.

(** [{ X[i, j] -> X[i, j] }]: a relation between tuples of another name. *)
Definition X_identity : isl_map :=
  {| map_in := mk_tuple (Some "X") 2;
     map_out := mk_tuple (Some "X") 2;
     map_relates := fun x y => length x = 2%nat /\ y = x |}.

Definition isl_set_read_from_str (s : string) : option isl_set :=
  if String.eqb s S0_text then Some S0_iteration_set else None.

Definition isl_set_to_str (s : isl_set) : string :=
  if decide (set_tuple s = S0_tuple) then S0_printed else "{  }".

Definition isl_map_read_from_str (s : string) : option isl_map :=
  if String.eqb s "{ S0[i, j]  ->  S0[i, j] : 0 <= i <= 1000 and 0 <= j <= 1000 }"
  then Some S0_identity
  else if String.eqb s "{S0[i,j]->buf0[i, j]}" then Some S0_access
  else None.

(** An AST node is represented by what it was generated from. *)
Definition isl_ast_node : Type :=
  gmap nat isl_ctx * option isl_ast_build * option isl_union_map.

Definition isl_ast_build_node_from_schedule_map (contexts : gmap nat isl_ctx)
  (build : option isl_ast_build) (sched : option isl_union_map)
  : option isl_ast_node :=
  Some (contexts, build, sched).

Abbreviation computation := (@computation Z unit unit).
Abbreviation world := (@world Z unit unit isl_ast_node).

Definition library0 : @library isl_ast_node :=
  {| lib_name := "library0"; functions := [0%nat]; lib_ctx := Some 0%nat;
     ast := None; parallel_dimensions := ∅; vector_dimensions := ∅ |}.

Definition function0 : function_t :=
  {| fn_library := Some 0%nat; fn_name := "function0"; body := [] |}.

(** The program before [computation0] is declared. *)
Definition world0 : world :=
  {| contexts := {[ 0%nat := mk_ctx 0 ]};
     libraries := {[ 0%nat := library0 ]};
     function_objects := {[ 0%nat := function0 ]};
     computation_objects := ∅;
     computations_list := ∅ |}.

(** [computation0], as its constructor leaves it. *)
Definition computation0 : computation :=
  {| ctx := Some 0%nat; time_processor_space := None;
     iter_space := Some S0_iteration_set; schedule := Some S0_identity;
     function := Some 0%nat; name := "S0"; expression := 3; stmt := None;
     access := None; index_expr := None |}.

Definition world1 : world :=
  {| contexts := {[ 0%nat := mk_ctx 0 ]};
     libraries := {[ 0%nat := library0 ]};
     function_objects := {[ 0%nat := add_computation 0%nat function0 ]};
     computation_objects := {[ 0%nat := computation0 ]};
     computations_list := {[ "S0" := 0%nat ]} |}.

(** Modelled from the spec: [library::get_time_processor_representation],
    declared in core.h only.  "The Program's time-processor set is the union
    over all TP_i ... Fails with EmptyProgram if no computation has been
    scheduled": the pieces are the time-processor sets of the computations
    of the functions of the library, NULL when one is missing or there is
    none. *)
Definition library_computations (w : world) (this : nat) : option (list computation) :=
  l ← libraries w !! this;
  fs ← mapM (fun h => function_objects w !! h) (functions l);
  mapM (fun h => computation_objects w !! h) (concat (body <$> fs)).

Definition library_get_time_processor_representation (w : world) (this : nat)
  : option isl_union_set :=
  cs ← library_computations w this;
  match cs with
  | [] => None
  | _ => mapM time_processor_space cs
  end.

(** Modelled from the spec: [library::get_time_processor_identity_relation],
    declared in core.h only.  "The Program's time-processor identity
    relation is the identity on that union, with the range tuple names
    erased (empty string)". *)
Definition library_get_time_processor_identity_relation (w : world) (this : nat)
  : option isl_union_map :=
  cs ← library_computations w this;
  match cs with
  | [] => None
  | _ => mapM (fun c => match get_time_processor_identity_relation c with
                        | Ok (r, _) => r
                        | Err _ => None
                        end) cs
  end.

(** [computation0] after [Tile(0, 1, 32, 32)]. *)
Definition computation0_tiled : computation :=
  match apply_transformations [Tile 0 1 32 32] computation0 with
  | Ok c => c
  | Err _ => computation0
  end.

(** [computation0] after [gen_time_processor_IR]. *)
Definition S0_time_processor : isl_set :=
  {| set_tuple := S0_tuple;
     set_contains := fun y =>
       exists x, set_contains S0_iteration_set x /\ map_relates S0_identity x y |}.

Definition computation0_lowered : computation :=
  set_time_processor_space_field (Some S0_time_processor) computation0.

(** The program once [computation0] is lowered. *)
Definition world2 : world :=
  {| contexts := contexts world1;
     libraries := libraries world1;
     function_objects := function_objects world1;
     computation_objects := {[ 0%nat := computation0_lowered ]};
     computations_list := computations_list world1 |}.

(** The text without its blanks, to compare two literals token by token. *)
Fixpoint without_blanks (s : string) : string :=
  match s with
  | EmptyString => EmptyString
  | String c s' =>
      if Ascii.eqb c " " then without_blanks s' else String c (without_blanks s')
  end.

(** The iteration set of the example in the comment of the constructor,
    [for (i=0; i<N; i++) for (j=0; j<M; j++) S0], as the library prints it,
    and its identity schedule. *)
Definition parametric_set_printed : string :=
  "[N, M] -> { S0[i, j] : 0 <= i < N and 0 <= j < M }".

Definition parametric_identity_schedule : string :=
  "[N, M] -> { S0[i, j] -> S0[i, j] : 0 <= i < N and 0 <= j < M }".

(** What [identity_schedule_text] makes of [parametric_set_printed]. *)
Definition parametric_text_built : string :=
  "[N, M] -> { S0[i, j]  -> [N, M] ->  S0[i, j] : 0 <= i < N and 0 <= j < M }".

End Tutorial.

(** ** Small syntax trees *)

Module GeneratorTrees.
Import AutoScheduler.

(** A loop [i] over [0..10) around a loop [j] over [0..20) with one
    computation; the outer loop is flagged unrolled. *)
Definition inner_loop : ast_node := mk_ast_node "j" 0 20 false 1 [7%nat] [].
Definition unrolled_nest : ast_node := mk_ast_node "i" 0 10 true 0 [] [inner_loop].
Definition plain_nest : ast_node := mk_ast_node "i" 0 10 false 0 [] [inner_loop].

Definition unrolled_tree : syntax_tree := {| roots := [unrolled_nest]; optims_info := [] |}.
Definition plain_tree : syntax_tree := {| roots := [plain_nest]; optims_info := [] |}.

(** Four sibling loops: the first two and the last agree on name and
    bounds, the last is unrolled, the third has other bounds. *)
Definition siblings : list ast_node :=
  [ mk_ast_node "i" 0 10 false 0 [1%nat] [];
    mk_ast_node "i" 0 10 false 0 [2%nat] [];
    mk_ast_node "i" 0 5 false 0 [3%nat] [];
    mk_ast_node "i" 0 10 true 0 [4%nat] [] ].

Definition siblings_tree : syntax_tree := {| roots := siblings; optims_info := [] |}.

End GeneratorTrees.

(** ** More of the sources: loops, printing, constructors, the other passes *)

(** A [for] loop over a container whose body may end the call. *)
Module Loops.

Definition for_each {A S : Type} (xs : list A) (body : S -> A -> result S)
  : S -> result S :=
  (fix go (xs : list A) (s : S) {struct xs} : result S :=
     match xs with
     | [] => Ok s
     | x :: rest =>
         match body s x with
         | Ok s' => go rest s'
         | Err e => Err e
         end
     end) xs.

(** [std::vector::at]: [std::out_of_range] past the end. *)
Definition at_ {A : Type} (v : list A) (i : nat) : result A :=
  match v !! i with
  | Some a => Ok a
  | None => Err OutOfRange
  end.

(** [v[i]] without a check; past the end the behaviour is undefined and the
    call is taken to end there. *)
Definition index {A : Type} (v : list A) (i : nat) : result A :=
  match v !! i with
  | Some a => Ok a
  | None => Err OutOfRange
  end.

End Loops.

(** [get_str], [replace], [empty] of [coli::parser]. *)
Module ParserPrinting.
Import Cxx Parser Loops.

(** The loop of [space::get_str] and of [constraint::get_str], which differ
    in the separator: [i] runs over the positions of the vector. *)
Definition get_str_loop (separator : string) (v : list string) : result string :=
  for_each (seq 0 (length v))
    (fun (result_ : string) i =>
       let result_ := if negb (Nat.eqb i 0) then result_ ++ separator else result_ in
       x ← at_ v i;
       Ok (result_ ++ x))
    "".

(** [space::get_str]. *)
Definition space_get_str (sp : space) : result string :=
  get_str_loop "," (dimensions sp).

(** [space::replace]. *)
Definition space_replace (in_ out1 out2 : string) (sp : space) : space :=
  let new_dimensions :=
    fold_left
      (fun (new_dimensions : list string) dim =>
         if String.eqb dim in_
         then ((new_dimensions ++ [out1]) ++ [out2])%list
         else (new_dimensions ++ [dim])%list)
      (dimensions sp) [] in
  mk_space new_dimensions.

(** [space::empty]. *)
Definition space_is_empty (sp : space) : bool :=
  match dimensions sp with [] => true | _ => false end.

(** [constraint::get_str]. *)
Definition constraint_get_str (c : constraint) : result string :=
  get_str_loop " and " (constraints c).

(** [constraint::empty]. *)
Definition constraint_is_empty (c : constraint) : bool :=
  match constraints c with [] => true | _ => false end.

(** [map::get_str]. *)
Definition map_get_str (m : map) : result string :=
  d ← space_get_str (domain m);
  r ← space_get_str (range m);
  let result_ := "{" ++ domain_name m ++ "[" ++ d ++ "] ->" ++ range_name m ++ "[" ++ r ++ "]" in
  result_ ←
    (if negb (constraint_is_empty (map_constraints m))
     then c ← constraint_get_str (map_constraints m); Ok (result_ ++ " :" ++ c)
     else Ok result_);
  Ok (result_ ++ " }").

(** The text the loop of [get_str] appends for the elements that are
    left: each behind a separator, but for the first of the vector. *)
Fixpoint joined_from (separator : string) (first : bool) (rest : list string) : string :=
  match rest with
  | [] => ""
  | x :: rest' => (if first then "" else separator) ++ x ++ joined_from separator false rest'
  end.

End ParserPrinting.

(** The tiling and unrolling passes and the entry point of
    [exhaustive_generator]. *)
Module AutoSchedulerPasses.
Import Loops AutoScheduler.

Section Passes.

(** Methods of [ast_node], as in [AutoScheduler]. *)
Variable get_loop_levels_chain_depth : ast_node -> Z.
Variable get_rightmost_computation : ast_node -> option nat.
Variable get_leftmost_computation : ast_node -> option nat.
Variable get_all_computations : ast_node -> list (option nat) -> list (option nat).
(** [ast_node::get_extent] and [can_split_iterator], declared in headers
    outside src/, and the two lists of factors the generator is built with. *)
Variable get_extent : ast_node -> Z.
Variable can_split_iterator : Z -> Z -> bool.
Variable tiling_factors_list : list Z.
Variable unrolling_factors_list : list Z.

(** The candidate of a tiling with two levels. *)
Definition tiling_candidate_2 (ast : syntax_tree) (node_ : ast_node)
  (tiling_size1 tiling_size2 : Z) : syntax_tree :=
  let new_ast := syntax_tree_new in
  let '(new_ast, new_node) := copy_and_return_node ast new_ast node_ in
  let optim_info :=
    {| type := TILING;
       node := Some new_node;
       nb_l := Some 2;
       l0 := Some (depth node_);
       l1 := Some (depth node_ + 1);
       l2 := None;
       l0_fact := Some tiling_size1;
       l1_fact := Some tiling_size2;
       l2_fact := None;
       comps := get_all_computations new_node [] |} in
  push_optim_info optim_info new_ast.

(** The candidate of a tiling with three levels. *)
Definition tiling_candidate_3 (ast : syntax_tree) (node_ : ast_node)
  (tiling_size1 tiling_size2 tiling_size3 : Z) : syntax_tree :=
  let new_ast := syntax_tree_new in
  let '(new_ast, new_node) := copy_and_return_node ast new_ast node_ in
  let optim_info :=
    {| type := TILING;
       node := Some new_node;
       nb_l := Some 3;
       l0 := Some (depth node_);
       l1 := Some (depth node_ + 1);
       l2 := Some (depth node_ + 2);
       l0_fact := Some tiling_size1;
       l1_fact := Some tiling_size2;
       l2_fact := Some tiling_size3;
       comps := get_all_computations new_node [] |} in
  push_optim_info optim_info new_ast.

(** The loop over [tiling_size3]. *)
Definition generate_tilings_3 (ast : syntax_tree) (node_ node3 : ast_node)
  (tiling_size1 tiling_size2 : Z) (states : list syntax_tree)
  : result (list syntax_tree) :=
  for_each tiling_factors_list
    (fun (states : list syntax_tree) tiling_size3 =>
       if negb (can_split_iterator (get_extent node3) tiling_size3)
       then Ok states
       else Ok (states
                ++ [tiling_candidate_3 ast node_ tiling_size1 tiling_size2 tiling_size3])%list)
    states.

(** The loop over [tiling_size2]. *)
Definition generate_tilings_2 (ast : syntax_tree) (node_ node2 : ast_node)
  (branch_depth tiling_size1 : Z) (states : list syntax_tree)
  : result (list syntax_tree) :=
  for_each tiling_factors_list
    (fun (states : list syntax_tree) tiling_size2 =>
       if negb (can_split_iterator (get_extent node2) tiling_size2)
       then Ok states
       else
         let states :=
           (states ++ [tiling_candidate_2 ast node_ tiling_size1 tiling_size2])%list in
         if depth node_ + 2 <? branch_depth
         then node3 ← index (children node2) 0;
              generate_tilings_3 ast node_ node3 tiling_size1 tiling_size2 states
         else Ok states)
    states.

(** The part of [generate_tilings] before the recursion. *)
Definition generate_tilings_node (ast : syntax_tree) (node_ : ast_node)
  (states : list syntax_tree) : result (list syntax_tree) :=
  let branch_depth := get_loop_levels_chain_depth node_ in
  if depth node_ + 1 <? branch_depth
  then
    for_each tiling_factors_list
      (fun (states : list syntax_tree) tiling_size1 =>
         if negb (can_split_iterator (get_extent node_) tiling_size1)
         then Ok states
         else node2 ← index (children node_) 0;
              generate_tilings_2 ast node_ node2 branch_depth tiling_size1 states)
      states
  else Ok states.

(** [exhaustive_generator::generate_tilings]. *)
Fixpoint generate_tilings (node_ : ast_node) (states : list syntax_tree)
  (ast : syntax_tree) {struct node_} : result (list syntax_tree) :=
  match generate_tilings_node ast node_ states with
  | Err e => Err e
  | Ok states =>
      match node_ with
      | mk_ast_node _ _ _ _ _ _ children =>
          for_each children (fun states child => generate_tilings child states ast)
            states
      end
  end.

(** The body of the [for] of [generate_unrollings]. *)
Definition unrolling_candidate (ast : syntax_tree) (node_ : ast_node)
  (unrolling_factor : Z) : syntax_tree :=
  let new_ast := syntax_tree_new in
  let '(new_ast, new_node) := copy_and_return_node ast new_ast node_ in
  let optim_info :=
    {| type := UNROLLING;
       node := Some new_node;
       nb_l := Some 1;
       l0 := Some (depth node_);
       l1 := None;
       l2 := None;
       l0_fact := Some unrolling_factor;
       l1_fact := None;
       l2_fact := None;
       comps := get_all_computations new_node [] |} in
  push_optim_info optim_info new_ast.

(** The [if (!node->unrolled)] block of [generate_unrollings]. *)
Definition generate_unrollings_node (ast : syntax_tree) (node_ : ast_node)
  (states : list syntax_tree) : list syntax_tree :=
  if negb (unrolled node_)
  then
    fold_left
      (fun (states : list syntax_tree) unrolling_factor =>
         if negb (get_extent node_ =? unrolling_factor)
            && negb (can_split_iterator (get_extent node_) unrolling_factor)
         then states
         else (states ++ [unrolling_candidate ast node_ unrolling_factor])%list)
      unrolling_factors_list states
  else states.

(** [exhaustive_generator::generate_unrollings]. *)
Fixpoint generate_unrollings (node_ : ast_node) (states : list syntax_tree)
  (ast : syntax_tree) {struct node_} : list syntax_tree :=
  let states := generate_unrollings_node ast node_ states in
  match node_ with
  | mk_ast_node _ _ _ _ _ _ children =>
      fold_left (fun states child => generate_unrollings child states ast)
        children states
  end.

(** [exhaustive_generator::generate_states].  The four enumerators of
    [optimization_type] are the four cases; [default] is not reached. *)
Definition generate_states (ast : syntax_tree) (optim : optimization_type)
  : result (list syntax_tree) :=
  let states : list syntax_tree := [] in
  match optim with
  | FUSION =>
      Ok (generate_fusions get_rightmost_computation get_leftmost_computation
            (roots ast) states ast)
  | TILING =>
      for_each (roots ast) (fun states root => generate_tilings root states ast) states
  | INTERCHANGE =>
      Ok (fold_left
            (fun states root =>
               generate_interchanges get_loop_levels_chain_depth get_all_computations
                 root states ast)
            (roots ast) states)
  | UNROLLING =>
      Ok (fold_left (fun states root => generate_unrollings root states ast)
            (roots ast) states)
  end.

(** *** What the two passes are expected to emit *)

(** The factors of the unrolling list the test of the loop lets through. *)
Definition unrolling_factors (node_ : ast_node) : list Z :=
  filter (fun f => get_extent node_ = f \/ can_split_iterator (get_extent node_) f = true)
    unrolling_factors_list.

(** One candidate for each such factor, for a node that is not unrolled. *)
Definition node_unrollings (ast : syntax_tree) (node_ : ast_node) : list syntax_tree :=
  if unrolled node_ then []
  else unrolling_candidate ast node_ <$> unrolling_factors node_.

(** What a candidate of the unrolling pass looks like. *)
Definition unrolling_of (ast : syntax_tree) (node_ : ast_node) (f : Z)
  (s : syntax_tree) : Prop :=
  exists info,
    s = unrolling_candidate ast node_ f
    /\ roots s = roots ast
    /\ optims_info s = [info]
    /\ type info = UNROLLING
    /\ nb_l info = Some 1
    /\ l0 info = Some (depth node_) /\ l0_fact info = Some f.

(** The tiling factors that split the extent of a node. *)
Definition tiling_factors (node_ : ast_node) : list Z :=
  filter (fun f => can_split_iterator (get_extent node_) f = true) tiling_factors_list.

(** The chain of a node reaches one, two levels below it. *)
Definition tiles_2 (node_ : ast_node) : bool :=
  depth node_ + 1 <? get_loop_levels_chain_depth node_.
Definition tiles_3 (node_ : ast_node) : bool :=
  depth node_ + 2 <? get_loop_levels_chain_depth node_.

(** The tilings of [node_] with its first child [node2] and, where the
    chain goes on, the first child [node3] of that one: each tiling of two
    levels is followed by the tilings of three levels that extend it. *)
Definition node_tilings (ast : syntax_tree) (node_ : ast_node) : list syntax_tree :=
  if tiles_2 node_
  then
    tiling_factors node_ ≫= fun f1 =>
    match children node_ with
    | [] => []
    | node2 :: _ =>
        tiling_factors node2 ≫= fun f2 =>
        tiling_candidate_2 ast node_ f1 f2 ::
        (if tiles_3 node_
         then match children node2 with
              | [] => []
              | node3 :: _ => tiling_candidate_3 ast node_ f1 f2 <$> tiling_factors node3
              end
         else [])
    end
  else [].

(** The first children are there wherever the pass reads them. *)
Definition chain_present (node_ : ast_node) : Prop :=
  tiles_2 node_ = true -> tiling_factors node_ <> [] ->
  exists node2, head (children node_) = Some node2
    /\ (tiles_3 node_ = true -> tiling_factors node2 <> [] ->
        exists node3, head (children node2) = Some node3).

(** The tiling factors of the third level, where the chain has one. *)
Definition third_level_factors (node_ node2 : ast_node) : list Z :=
  if tiles_3 node_
  then match children node2 with
       | [] => []
       | node3 :: _ => tiling_factors node3
       end
  else [].

(** The levels a record names. *)
Definition levels (info : optimization_info) : list Z :=
  omap id [l0 info; l1 info; l2 info].

(** A state of the generator: a clone of [ast] with one record, of the
    optimization asked for, whose [nb_l] counts the levels it names. *)
Definition candidate_of (ast : syntax_tree) (optim : optimization_type)
  (s : syntax_tree) : Prop :=
  roots s = roots ast
  /\ exists info, optims_info s = [info] /\ type info = optim
       /\ nb_l info = Some (Z.of_nat (length (levels info))).

(** What [generate_states] is expected to return for [optim]: the
    candidates of that pass over the whole tree, in the order of the
    traversal. *)
Definition pass_states (ast : syntax_tree) (optim : optimization_type)
  : list syntax_tree :=
  match optim with
  | FUSION =>
      tree_levels (roots ast)
        ≫= level_fusions get_rightmost_computation get_leftmost_computation ast
  | TILING => (roots ast ≫= nodes_of) ≫= node_tilings ast
  | INTERCHANGE =>
      (roots ast ≫= nodes_of)
        ≫= node_interchanges get_loop_levels_chain_depth get_all_computations ast
  | UNROLLING => (roots ast ≫= nodes_of) ≫= node_unrollings ast
  end.

End Passes.

End AutoSchedulerPasses.

(** A nest of three loops and stand-ins for the methods the tiling and
    unrolling passes call, for running them. *)
Module PassTrees.
Import AutoScheduler.

(** A stand-in for [ast_node::get_extent]: the number of iterations of a
    loop whose bounds are both included. *)
Definition get_extent_model (n : ast_node) : Z := up_bound n - low_bound n + 1.

(** Modelled from the spec: [can_split_iterator], "factors from a
    configured factor list that evenly divide the respective extents". *)
Definition can_split_iterator_model (it_extent split_fact : Z) : bool :=
  (0 <? split_fact) && (split_fact <? it_extent) && (it_extent mod split_fact =? 0).

(** Loops [i] over [0..7], [j] over [0..11], [k] over [0..3] around one
    computation. *)
Definition loop_k : ast_node := mk_ast_node "k" 0 3 false 2 [5%nat] [].
Definition loop_j : ast_node := mk_ast_node "j" 0 11 false 1 [] [loop_k].
Definition loop_i : ast_node := mk_ast_node "i" 0 7 false 0 [] [loop_j].
Definition deep_tree : syntax_tree := {| roots := [loop_i]; optims_info := [] |}.

(** The same nest with the outer loop flagged unrolled. *)
Definition loop_i_unrolled : ast_node := mk_ast_node "i" 0 7 true 0 [] [loop_j].
Definition deep_tree_unrolled : syntax_tree :=
  {| roots := [loop_i_unrolled]; optims_info := [] |}.

Definition factors : list Z := [2; 3; 4; 8].

End PassTrees.

(** The constructors of [library] and of [buffer]. *)
Module CoreObjects.
Import Cxx Core.

Section Objects.

Context {Expr Stmt isl_ast_expr isl_ast_node : Type}.

(** [isl_ctx_alloc()]: a context as the Presburger library hands it out. *)
Variable isl_ctx_alloc : isl_ctx.

(** [library::library(std::string name)].  The object and its context get
    handles that are not in use; the vector and the two maps start empty. *)
Definition library_new (name : string)
  (w : @world Expr Stmt isl_ast_expr isl_ast_node) : result (nat * world) :=
  let this := fresh (dom (libraries w)) in
  let ast : option isl_ast_node := None in
  _ ← assert (0 <? size name) "Library name empty";
  let ctx := fresh (dom (contexts w)) in
  Ok (this,
      {| contexts := <[ctx := isl_ctx_alloc]> (contexts w);
         libraries :=
           <[this := {| lib_name := name; functions := []; lib_ctx := Some ctx;
                        ast := ast; parallel_dimensions := ∅;
                        vector_dimensions := ∅ |}]> (libraries w);
         function_objects := function_objects w;
         computation_objects := computation_objects w;
         computations_list := computations_list w |}).

(** Values of the back end: [Halide::Type] and [Halide::Buffer]. *)
Context {Halide_Type Halide_Buffer : Type}.

(** [new Halide::Buffer(type, dim_sizes, data, name)] and
    [Halide::Buffer::name()]. *)
Variable halide_buffer_new :
  Halide_Type -> list Z -> option nat -> string -> result Halide_Buffer.
Variable halide_buffer_name : Halide_Buffer -> string.

(** [class buffer]; [data] and [fct] are pointers. *)
Record buffer : Type := mk_buffer {
  buf_name : string;
  nb_dims : Z;
  dim_sizes : list Z;
  buf_type : Halide_Type;
  data : option nat;
  fct : option nat
}.

(** [buffer::buffer(name, nb_dims, dim_sizes, type, data, fct)].
    [buffers_lists] holds the member [buffers_list] of every function, by
    handle.  [nb_dims], an [int], is compared with a [size_t]. *)
Definition buffer_new (name : string) (nb_dims : Z) (dim_sizes : list Z)
  (type : Halide_Type) (data fct : option nat)
  (buffers_lists : gmap nat (gmap string Halide_Buffer))
  : result (buffer * gmap nat (gmap string Halide_Buffer)) :=
  let this := {| buf_name := name; nb_dims := nb_dims; dim_sizes := dim_sizes;
                 buf_type := type; data := data; fct := fct |} in
  _ ← assert (0 <? size name) "Empty buffer name";
  _ ← assert (0 <? nb_dims) "Buffer dimensions <= 0";
  _ ← assert (to_size_t nb_dims =? Z.of_nat (length dim_sizes))
        "Mismatch in the number of dimensions";
  _ ← assert (bool_decide (is_Some fct)) "Input function is NULL";
  buf ← halide_buffer_new type dim_sizes data name;
  buffers_list ← deref buffers_lists fct;
  match fct with
  | Some h =>
      Ok (this,
          <[h := map_insert_if_absent (halide_buffer_name buf) buf buffers_list]>
            buffers_lists)
  | None => Err NullPointer
  end.

End Objects.

End CoreObjects.

(** More of the tutorial program, to run the constructors on. *)
Module MoreTutorial.
Import Isl Core Tutorial CoreObjects.

(** A program with nothing declared, and after [coli::library lib("library0")]. *)
Definition world_empty : world :=
  {| contexts := ∅; libraries := ∅; function_objects := ∅;
     computation_objects := ∅; computations_list := ∅ |}.

Definition library_fresh : @library isl_ast_node :=
  {| lib_name := "library0"; functions := []; lib_ctx := Some 0%nat;
     ast := None; parallel_dimensions := ∅; vector_dimensions := ∅ |}.

Definition world_library : world :=
  {| contexts := {[ 0%nat := mk_ctx 0 ]};
     libraries := {[ 0%nat := library_fresh ]};
     function_objects := ∅;
     computation_objects := ∅;
     computations_list := ∅ |}.

(** The program of the tutorial once a second computation over the
    iteration set [S0] is declared. *)
Definition world1_redeclared : world :=
  {| contexts := contexts world1;
     libraries := libraries world1;
     function_objects :=
       {[ 0%nat := add_computation 1%nat (add_computation 0%nat function0) ]};
     computation_objects := {[ 0%nat := computation0; 1%nat := computation0 ]};
     computations_list := {[ "S0" := 0%nat ]} |}.

(** The program after [gen_isl_ast]. *)
Definition world3 : world :=
  match gen_isl_ast isl_ast_build_node_from_schedule_map
          library_get_time_processor_representation
          library_get_time_processor_identity_relation 0%nat world2 with
  | Ok (_, w) => w
  | Err _ => world2
  end.

(** [computation0] with a schedule whose domain is not the space of its
    iteration set. *)
Definition X_to_S0 : isl_map :=
  {| map_in := mk_tuple (Some "X") 2;
     map_out := S0_tuple;
     map_relates := fun x y => length x = 2%nat /\ y = x |}.

Definition computation0_misplaced : computation :=
  set_schedule_field (Some X_to_S0) computation0.

(** A stand-in for [Halide::Buffer]: what it was made from. *)
Definition halide_buffer : Type := unit * list Z * option nat * string.

Definition halide_buffer_new_model (type : unit) (sizes : list Z) (data : option nat)
  (name : string) : result halide_buffer :=
  Ok (type, sizes, data, name).

Definition halide_buffer_name_model (b : halide_buffer) : string := b.2.

(** [buffers_list] of [function0], holding a buffer [buf0] of 10 by 10. *)
Definition buffers_lists0 : gmap nat (gmap string halide_buffer) :=
  {[ 0%nat := {[ "buf0" := (tt, [10; 10], None, "buf0") ]} ]}.

(** A map with two constraints, and the same without constraints. *)
Definition S0_map : Parser.map :=
  {| Parser.parameters := Parser.space_empty;
     Parser.domain_name := "S0";
     Parser.range_name := "S0";
     Parser.domain := Parser.mk_space ["i"; "j"];
     Parser.range := Parser.mk_space ["i0"; "i1"];
     Parser.map_constraints := Parser.mk_constraint ["0<=i"; "i<N"] |}.

Definition S0_map_unconstrained : Parser.map :=
  {| Parser.parameters := Parser.space_empty;
     Parser.domain_name := "S0";
     Parser.range_name := "S0";
     Parser.domain := Parser.mk_space ["i"; "j"];
     Parser.range := Parser.mk_space ["i0"; "i1"];
     Parser.map_constraints := Parser.constraint_empty |}.

End MoreTutorial.

(** What the constructor of [computation] relies on in the Presburger
    library: the text of a set and the relation read from a literal that
    starts with the same tuple. *)
Module LibraryText.
Import Cxx Parser Isl.

(** The library reads back the tuple it printed.  The set [s] prints as
    [pre{tuple:cons}] or, without constraints, as [{name[dims]rest}], and a
    relation literal whose domain tuple is written as the printer wrote the
    tuple of [s] is read, when it is read at all, as a relation from that
    tuple. *)
Definition reads_back_printed_tuple (isl_set_to_str : isl_set -> string)
  (isl_map_read_from_str : string -> option isl_map) (s : isl_set) : Prop :=
  size (isl_set_to_str s) < npos
  /\ ((exists pre tuple cons : string,
         isl_set_to_str s = pre ++ "{" ++ tuple ++ ":" ++ cons ++ "}"
         /\ free_of "{}:" pre = true /\ free_of "}:" tuple = true
         /\ free_of "}" cons = true
         /\ forall rest m,
              isl_map_read_from_str (pre ++ "{" ++ tuple ++ " -> " ++ rest) = Some m ->
              map_in m = set_tuple s)
      \/ (exists name dims rest0 : string,
            isl_set_to_str s = "{" ++ name ++ "[" ++ dims ++ "]" ++ rest0 ++ "}"
            /\ free_of "]}:" name = true /\ free_of "]}:" dims = true
            /\ free_of "}:" rest0 = true
            /\ forall rest m,
                 isl_map_read_from_str ("{" ++ name ++ "[" ++ dims ++ "] -> " ++ rest)
                 = Some m ->
                 map_in m = set_tuple s)).

End LibraryText.

(** ** Facts about the [std::string] operations *)

Module CxxFacts.
Import Cxx.

Lemma app_cons (c : ascii) (a b : string) : String c a ++ b = String c (a ++ b).
Proof. reflexivity. Qed.

Lemma app_nil_l (b : string) : "" ++ b = b.
Proof. reflexivity. Qed.

Lemma app_nil_r (a : string) : a ++ "" = a.
Proof. induction a as [|c a IH]; [reflexivity|]. rewrite app_cons, IH. reflexivity. Qed.

Lemma app_assoc (a b c : string) : (a ++ b) ++ c = a ++ (b ++ c).
Proof.
  induction a as [|x a IH]; [reflexivity|].
  rewrite !app_cons, IH. reflexivity.
Qed.

Lemma length_app (a b : string) :
  String.length (a ++ b) = (String.length a + String.length b)%nat.
Proof.
  induction a as [|x a IH]; [reflexivity|].
  rewrite app_cons. simpl. rewrite IH. reflexivity.
Qed.

Lemma size_app (a b : string) : size (a ++ b) = size a + size b.
Proof. unfold size. rewrite length_app. lia. Qed.

Lemma size_cons (c : ascii) (a : string) : size (String c a) = 1 + size a.
Proof. unfold size. simpl String.length. lia. Qed.

Lemma size_nil : size "" = 0.
Proof. reflexivity. Qed.

Lemma size_nonneg (a : string) : 0 <= size a.
Proof. unfold size. lia. Qed.

Lemma drop_app (a b : string) (n : nat) :
  drop (String.length a + n) (a ++ b) = drop n b.
Proof.
  induction a as [|x a IH]; [reflexivity|].
  rewrite app_cons. simpl. exact IH.
Qed.

Lemma drop_app_length (a b : string) : drop (String.length a) (a ++ b) = b.
Proof.
  rewrite <- (Nat.add_0_r (String.length a)), drop_app. destruct b; reflexivity.
Qed.

Lemma drop_all (a : string) : drop (String.length a) a = "".
Proof. induction a as [|x a IH]; [reflexivity|exact IH]. Qed.

Lemma take_app (a b : string) (n : nat) :
  take (String.length a + n) (a ++ b) = a ++ take n b.
Proof.
  induction a as [|x a IH]; [reflexivity|].
  rewrite !app_cons. simpl. rewrite IH. reflexivity.
Qed.

Lemma take_all (a : string) : take (String.length a) a = a.
Proof. induction a as [|x a IH]; [reflexivity|]. simpl. rewrite IH. reflexivity. Qed.

Lemma take_app_length (a b : string) : take (String.length a) (a ++ b) = a.
Proof.
  rewrite <- (Nat.add_0_r (String.length a)), take_app.
  destruct b; simpl; apply app_nil_r.
Qed.

Lemma mem_app (c : ascii) (a b : string) : mem c (a ++ b) = mem c a || mem c b.
Proof.
  induction a as [|x a IH]; [reflexivity|].
  rewrite app_cons. simpl. destruct (Ascii.eqb c x); [reflexivity|exact IH].
Qed.

Lemma prefix_app (pat rest : string) : String.prefix pat (pat ++ rest) = true.
Proof.
  induction pat as [|x pat IH]; [destruct rest; reflexivity|].
  rewrite app_cons. simpl. destruct (ascii_dec x x); [exact IH|congruence].
Qed.

Lemma prefix_head_ne (c x : ascii) (pat s : string) :
  Ascii.eqb c x = false -> String.prefix (String c pat) (String x s) = false.
Proof.
  intros H. simpl. destruct (ascii_dec c x) as [->|]; [|reflexivity].
  rewrite Ascii.eqb_refl in H. discriminate.
Qed.

(** A pattern that starts with [c] is not found inside a stretch without [c]. *)
Lemma first_occurrence_skip (c : ascii) (pat a rest : string) :
  mem c a = false ->
  first_occurrence (String c pat) (a ++ rest)
  = Nat.add (String.length a) <$> first_occurrence (String c pat) rest.
Proof.
  induction a as [|x a IH]; intros Hm.
  - rewrite app_nil_l. destruct (first_occurrence _ rest); reflexivity.
  - simpl in Hm. destruct (Ascii.eqb c x) eqn:Hcx; [discriminate|].
    rewrite app_cons. cbn [first_occurrence].
    rewrite (prefix_head_ne _ _ _ _ Hcx), (IH Hm).
    destruct (first_occurrence _ rest); reflexivity.
Qed.

Lemma first_occurrence_here (pat rest : string) :
  first_occurrence pat (pat ++ rest) = Some 0%nat.
Proof.
  destruct (pat ++ rest) eqn:E; cbn [first_occurrence];
    rewrite <- E, prefix_app; reflexivity.
Qed.

Lemma first_occurrence_none (c : ascii) (pat a : string) :
  mem c a = false -> first_occurrence (String c pat) a = None.
Proof.
  induction a as [|x a IH]; intros Hm; [reflexivity|].
  simpl in Hm. destruct (Ascii.eqb c x) eqn:Hcx; [discriminate|].
  cbn [first_occurrence]. rewrite (prefix_head_ne _ _ _ _ Hcx), (IH Hm). reflexivity.
Qed.

(** Searching from the end of [p]: the pattern is found right after the
    stretch [a] that holds no first character of it. *)
Lemma find_after (s p a rest : string) (c : ascii) (pat : string) :
  s = p ++ a ++ String c pat ++ rest ->
  mem c a = false ->
  find s (String c pat) (size p) = size p + size a.
Proof.
  intros -> Hm. unfold find.
  assert (Hlt : (size (p ++ a ++ String c pat ++ rest) <? size p) = false).
  { apply Z.ltb_ge. rewrite size_app. pose proof (size_nonneg (a ++ String c pat ++ rest)). lia. }
  rewrite Hlt. unfold size at 1. rewrite Nat2Z.id, drop_app_length.
  rewrite (first_occurrence_skip _ _ _ _ Hm), first_occurrence_here.
  cbn. unfold size. lia.
Qed.

(** No occurrence at all: [find] answers [npos]. *)
Lemma find_none (s : string) (c : ascii) (pat : string) :
  mem c s = false -> find s (String c pat) 0 = npos.
Proof.
  intros Hm. unfold find.
  assert (Hlt : (size s <? 0) = false) by (apply Z.ltb_ge, size_nonneg).
  rewrite Hlt. change (Z.to_nat 0) with 0%nat.
  assert (Hd : drop 0 s = s) by (destruct s; reflexivity).
  rewrite Hd, (first_occurrence_none _ _ _ Hm). reflexivity.
Qed.

(** A position where the pattern does not start can be stepped over. *)
Lemma find_step (s p : string) (x : ascii) (rest pat : string) :
  s = p ++ String x rest ->
  String.prefix pat (String x rest) = false ->
  find s pat (size p) = find s pat (size p + 1).
Proof.
  intros -> Hp. unfold find.
  assert (H1 : (size (p ++ String x rest) <? size p) = false).
  { apply Z.ltb_ge. rewrite size_app, size_cons. pose proof (size_nonneg rest). lia. }
  assert (H2 : (size (p ++ String x rest) <? size p + 1) = false).
  { apply Z.ltb_ge. rewrite size_app, size_cons. pose proof (size_nonneg rest). lia. }
  rewrite H1, H2.
  assert (E1 : Z.to_nat (size p) = String.length p) by (unfold size; lia).
  assert (E2 : Z.to_nat (size p + 1) = (String.length p + 1)%nat) by (unfold size; lia).
  rewrite E1, E2, drop_app_length, drop_app.
  cbn [drop first_occurrence]. rewrite Hp.
  destruct (first_occurrence pat rest); cbn [fmap option_fmap option_map];
    [lia | reflexivity].
Qed.

Lemma substr_middle (s p a rest : string) :
  s = p ++ a ++ rest -> substr s (size p) (size a) = Ok a.
Proof.
  intros ->. unfold substr.
  assert (Hlt : (size (p ++ a ++ rest) <? size p) = false).
  { apply Z.ltb_ge. rewrite size_app. pose proof (size_nonneg (a ++ rest)). lia. }
  rewrite Hlt. f_equal.
  assert (E1 : Z.to_nat (size p) = String.length p) by (unfold size; lia).
  rewrite E1, drop_app_length.
  assert (E2 : Z.to_nat (Z.min (size a) (size (p ++ a ++ rest) - size p))
               = String.length a).
  { rewrite !size_app. pose proof (size_nonneg rest). unfold size in *. lia. }
  rewrite E2. apply take_app_length.
Qed.

Lemma erase_middle (s p a rest : string) :
  s = p ++ a ++ rest -> erase s (size p) (size a) = Ok (p ++ rest).
Proof.
  intros ->. unfold erase.
  assert (Hlt : (size (p ++ a ++ rest) <? size p) = false).
  { apply Z.ltb_ge. rewrite size_app. pose proof (size_nonneg (a ++ rest)). lia. }
  rewrite Hlt. f_equal.
  assert (E1 : Z.to_nat (size p) = String.length p) by (unfold size; lia).
  assert (E2 : Z.to_nat (size p + Z.min (size a) (size (p ++ a ++ rest) - size p))
               = (String.length p + String.length a)%nat).
  { rewrite !size_app. pose proof (size_nonneg rest). unfold size in *. lia. }
  rewrite E1, E2, take_app_length, drop_app, drop_app_length. reflexivity.
Qed.

Lemma erase_char (s p : string) (c : ascii) (rest : string) :
  s = p ++ String c rest -> erase s (size p) 1 = Ok (p ++ rest).
Proof. intros ->. apply (erase_middle _ p (String c "") rest). reflexivity. Qed.

Lemma erase_to_end (s p a : string) (n : Z) :
  s = p ++ a -> size a <= n -> erase s (size p) n = Ok p.
Proof.
  intros -> Hn. unfold erase.
  assert (Hlt : (size (p ++ a) <? size p) = false).
  { apply Z.ltb_ge. rewrite size_app. pose proof (size_nonneg a). lia. }
  rewrite Hlt. f_equal.
  assert (E1 : Z.to_nat (size p) = String.length p) by (unfold size; lia).
  assert (E2 : Z.to_nat (size p + Z.min n (size (p ++ a) - size p))
               = (String.length p + String.length a)%nat).
  { rewrite !size_app. unfold size in *. lia. }
  rewrite E1, E2, take_app_length, drop_app, drop_all.
  apply app_nil_r.
Qed.

Lemma insert_at (s p rest t : string) :
  s = p ++ rest -> insert s (size p) t = Ok (p ++ t ++ rest).
Proof.
  intros ->. unfold insert.
  assert (Hlt : (size (p ++ rest) <? size p) = false).
  { apply Z.ltb_ge. rewrite size_app. pose proof (size_nonneg rest). lia. }
  rewrite Hlt. f_equal.
  assert (E1 : Z.to_nat (size p) = String.length p) by (unfold size; lia).
  rewrite E1, take_app_length, drop_app_length. reflexivity.
Qed.

Lemma to_size_t_small (z : Z) : 0 <= z < 2 ^ 64 -> to_size_t z = z.
Proof. intros H. unfold to_size_t, size_t_modulus. apply Z.mod_small. lia. Qed.

Lemma to_int_small (z : Z) : 0 <= z < 2 ^ 31 -> to_int z = z.
Proof. intros H. unfold to_int. rewrite Z.mod_small; lia. Qed.

Lemma first_occurrence_drop (pat s : string) (n : nat) :
  first_occurrence pat s = None -> first_occurrence pat (drop n s) = None.
Proof.
  revert s. induction n as [|n IH]; intros s Hs; [destruct s; exact Hs|].
  destruct s as [|c s]; [exact Hs|].
  cbn [drop]. apply IH. cbn [first_occurrence] in Hs.
  destruct (String.prefix pat (String c s)); [discriminate|].
  destruct (first_occurrence pat s); [discriminate|reflexivity].
Qed.

(** A pattern that occurs nowhere is found from no position. *)
Lemma find_absent (s pat : string) (pos : Z) :
  first_occurrence pat s = None -> find s pat pos = npos.
Proof.
  intros Hs. unfold find. destruct (size s <? pos); [reflexivity|].
  rewrite (first_occurrence_drop _ _ _ Hs). reflexivity.
Qed.

(** A non-empty string ends in some character. *)
Lemma last_char (s : string) :
  s = "" \/ exists s' x, s = s' ++ String x "".
Proof.
  induction s as [|c s IH]; [left; reflexivity|right].
  destruct IH as [->|(s' & x & ->)].
  - exists "", c. reflexivity.
  - exists (String c s'), x. reflexivity.
Qed.

End CxxFacts.

(** ** The literal parser on relation and set literals *)

Module ParserFacts.
Import Cxx CxxFacts Parser.

(** Unpacks the [free_of] hypotheses into facts [mem c s = false]. *)
Ltac free_of_facts :=
  repeat match goal with
  | H : free_of _ _ = true |- _ =>
      unfold free_of in H; cbn [forallb list_ascii_of_string] in H;
      rewrite ?andb_true_iff, ?negb_true_iff in H
  | H : _ /\ _ |- _ => destruct H
  | H : true = true |- _ => clear H
  end.

(** Closes [mem c (a ++ b ++ ...) = false] from the facts at hand. *)
Ltac mem_false :=
  rewrite ?mem_app;
  repeat match goal with H : mem _ _ = false |- _ => rewrite H end;
  reflexivity.

Ltac same_text := rewrite ?app_assoc; reflexivity.

Lemma assert_in_range (z : Z) (what : string) :
  0 <= z < 2 ^ 31 -> assert (negb (z =? npos)) what = Ok tt.
Proof.
  intros Hz. unfold assert.
  assert (E : (z =? npos) = false).
  { apply Z.eqb_neq. unfold npos, size_t_modulus. lia. }
  rewrite E. reflexivity.
Qed.

(** Drops the conversions around a position that fits an [int]. *)
Ltac conv z :=
  rewrite ?(to_size_t_small z) by lia; rewrite ?(to_int_small z) by lia;
  rewrite ?(to_size_t_small z) by lia.

Section MapLiteral.

Variable split_string : string -> string -> list string -> list string.
Variable space_parse : string -> space -> space.

Variables name dims sep1 rname rdims sep2 cons : string.

Hypothesis name_clean : free_of "[]}:" name = true.
Hypothesis dims_clean : free_of "]}:" dims = true.
Hypothesis sep1_clean : free_of "-}:" sep1 = true.
Hypothesis rname_clean : free_of "[]}:" rname = true.
Hypothesis rdims_clean : free_of "]}:" rdims = true.
Hypothesis sep2_clean : free_of "}:" sep2 = true.
Hypothesis cons_clean : free_of "}" cons = true.

Let text : string := map_literal name dims sep1 rname rdims sep2 cons.

Let at_lbr : Z := 1 + size name.
Let at_rbr : Z := at_lbr + 1 + size dims.
Let at_arrow : Z := at_rbr + 1 + size sep1.
Let at_lbr2 : Z := at_arrow + 2 + size rname.
Let at_rbr2 : Z := at_lbr2 + 1 + size rdims.
Let at_colon : Z := at_rbr2 + 1 + size sep2.
Let at_close : Z := at_colon + 1 + size cons.

Lemma size_map_literal : size text = at_close + 1.
Proof.
  unfold text, map_literal, at_close, at_colon, at_rbr2, at_lbr2, at_arrow, at_rbr, at_lbr.
  rewrite !size_app. repeat rewrite size_cons. rewrite !size_nil. lia.
Qed.

Lemma find_open : find text "{" 0 = 0.
Proof.
  change 0 with (size "") at 1.
  rewrite (find_after text "" "" (drop 1 text) "{" ""); [reflexivity|reflexivity|reflexivity].
Qed.

Lemma find_lbr : find text "[" 1 = at_lbr.
Proof.
  free_of_facts. change 1 with (size "{") at 1.
  rewrite (find_after text "{" name
             (dims ++ "]" ++ sep1 ++ "->" ++ rname ++ "[" ++ rdims ++ "]" ++ sep2
                   ++ ":" ++ cons ++ "}") "[" "");
    [reflexivity | unfold text, map_literal; same_text | mem_false].
Qed.

Lemma find_rbr : find text "]" 1 = at_rbr.
Proof.
  free_of_facts. change 1 with (size "{") at 1.
  rewrite (find_after text "{" (name ++ "[" ++ dims)
             (sep1 ++ "->" ++ rname ++ "[" ++ rdims ++ "]" ++ sep2
                   ++ ":" ++ cons ++ "}") "]" "");
    [ unfold at_rbr, at_lbr; rewrite !size_app; repeat rewrite size_cons;
      rewrite !size_nil; lia
    | unfold text, map_literal; same_text | mem_false].
Qed.

Lemma find_close : find text "}" 0 = at_close.
Proof.
  free_of_facts. change 0 with (size "") at 1.
  rewrite (find_after text ""
             ("{" ++ name ++ "[" ++ dims ++ "]" ++ sep1 ++ "->" ++ rname ++ "[" ++ rdims
                  ++ "]" ++ sep2 ++ ":" ++ cons) "" "}" "");
    [ unfold at_close, at_colon, at_rbr2, at_lbr2, at_arrow, at_rbr, at_lbr;
      rewrite !size_app; repeat rewrite size_cons; rewrite !size_nil; lia
    | unfold text, map_literal; rewrite ?app_assoc, app_nil_r; reflexivity
    | mem_false].
Qed.

Lemma find_colon : find text ":" 0 = at_colon.
Proof.
  free_of_facts. change 0 with (size "") at 1.
  rewrite (find_after text ""
             ("{" ++ name ++ "[" ++ dims ++ "]" ++ sep1 ++ "->" ++ rname ++ "[" ++ rdims
                  ++ "]" ++ sep2) (cons ++ "}") ":" "");
    [ unfold at_colon, at_rbr2, at_lbr2, at_arrow, at_rbr, at_lbr;
      rewrite !size_app; repeat rewrite size_cons; rewrite !size_nil; lia
    | unfold text, map_literal; same_text | mem_false].
Qed.

Lemma prefix_arrow_before_bracket (x : ascii) (rest : string) :
  String.prefix "->" (String x ("]" ++ rest)) = false.
Proof.
  rewrite app_cons. cbn [String.prefix].
  destruct (ascii_dec "-" x); [|reflexivity].
  destruct (ascii_dec ">" "]"); [discriminate|reflexivity].
Qed.

Lemma find_arrow : find text "->" (at_rbr - 1) = at_arrow.
Proof.
  free_of_facts.
  set (tail := sep1 ++ "->" ++ rname ++ "[" ++ rdims ++ "]" ++ sep2 ++ ":" ++ cons ++ "}").
  assert (Hstep1 : find text "->" (at_rbr - 1) = find text "->" at_rbr).
  { destruct (last_char dims) as [E|(d' & x & E)].
    - replace (at_rbr - 1) with (size ("{" ++ name)).
      2:{ unfold at_rbr, at_lbr. rewrite E, !size_app, size_cons, !size_nil. lia. }
      rewrite (find_step text ("{" ++ name) "[" ("]" ++ tail) "->").
      + f_equal. unfold at_rbr, at_lbr. rewrite E, !size_app, size_cons, !size_nil. lia.
      + unfold text, map_literal, tail. rewrite E. same_text.
      + apply prefix_arrow_before_bracket.
    - replace (at_rbr - 1) with (size ("{" ++ name ++ "[" ++ d')).
      2:{ unfold at_rbr, at_lbr. rewrite E, !size_app. repeat rewrite size_cons.
          rewrite !size_nil. lia. }
      rewrite (find_step text ("{" ++ name ++ "[" ++ d') x ("]" ++ tail) "->").
      + f_equal. unfold at_rbr, at_lbr. rewrite E, !size_app. repeat rewrite size_cons.
        rewrite !size_nil. lia.
      + unfold text, map_literal, tail. rewrite E. same_text.
      + apply prefix_arrow_before_bracket. }
  assert (Hstep2 : find text "->" at_rbr = find text "->" (at_rbr + 1)).
  { replace at_rbr with (size ("{" ++ name ++ "[" ++ dims)).
    2:{ unfold at_rbr, at_lbr. rewrite !size_app. repeat rewrite size_cons.
        rewrite !size_nil. lia. }
    apply (find_step text ("{" ++ name ++ "[" ++ dims) "]" tail "->").
    - unfold text, map_literal, tail. same_text.
    - reflexivity. }
  rewrite Hstep1, Hstep2.
  replace (at_rbr + 1) with (size ("{" ++ name ++ "[" ++ dims ++ "]")).
  2:{ unfold at_rbr, at_lbr. rewrite !size_app. repeat rewrite size_cons.
      rewrite !size_nil. lia. }
  rewrite (find_after text ("{" ++ name ++ "[" ++ dims ++ "]") sep1
             (rname ++ "[" ++ rdims ++ "]" ++ sep2 ++ ":" ++ cons ++ "}") "-" ">");
    [ unfold at_arrow, at_rbr, at_lbr; rewrite !size_app; repeat rewrite size_cons;
      rewrite !size_nil; lia
    | unfold text, map_literal; same_text | mem_false].
Qed.

Lemma find_lbr2 : find text "[" (at_arrow + 2) = at_lbr2.
Proof.
  free_of_facts.
  replace (at_arrow + 2) with (size ("{" ++ name ++ "[" ++ dims ++ "]" ++ sep1 ++ "->")).
  2:{ unfold at_arrow, at_rbr, at_lbr. rewrite !size_app. repeat rewrite size_cons.
      rewrite !size_nil. lia. }
  rewrite (find_after text ("{" ++ name ++ "[" ++ dims ++ "]" ++ sep1 ++ "->") rname
             (rdims ++ "]" ++ sep2 ++ ":" ++ cons ++ "}") "[" "");
    [ unfold at_lbr2, at_arrow, at_rbr, at_lbr; rewrite !size_app;
      repeat rewrite size_cons; rewrite !size_nil; lia
    | unfold text, map_literal; same_text | mem_false].
Qed.

Lemma find_rbr2 : find text "]" (at_arrow + 2) = at_rbr2.
Proof.
  free_of_facts.
  replace (at_arrow + 2) with (size ("{" ++ name ++ "[" ++ dims ++ "]" ++ sep1 ++ "->")).
  2:{ unfold at_arrow, at_rbr, at_lbr. rewrite !size_app. repeat rewrite size_cons.
      rewrite !size_nil. lia. }
  rewrite (find_after text ("{" ++ name ++ "[" ++ dims ++ "]" ++ sep1 ++ "->")
             (rname ++ "[" ++ rdims) (sep2 ++ ":" ++ cons ++ "}") "]" "");
    [ unfold at_rbr2, at_lbr2, at_arrow, at_rbr, at_lbr; rewrite !size_app;
      repeat rewrite size_cons; rewrite !size_nil; lia
    | unfold text, map_literal; same_text | mem_false].
Qed.

(** The five pieces the constructor cuts out of the text. *)
Lemma substr_name : substr text 1 (size name) = Ok name.
Proof.
  change 1 with (size "{").
  apply (substr_middle text "{" name
           ("[" ++ dims ++ "]" ++ sep1 ++ "->" ++ rname ++ "[" ++ rdims ++ "]" ++ sep2
                ++ ":" ++ cons ++ "}")).
  unfold text, map_literal. same_text.
Qed.

Lemma substr_dims : substr text (at_lbr + 1) (size dims) = Ok dims.
Proof.
  replace (at_lbr + 1) with (size ("{" ++ name ++ "[")).
  2:{ unfold at_lbr. rewrite !size_app. repeat rewrite size_cons. rewrite !size_nil. lia. }
  apply (substr_middle text ("{" ++ name ++ "[") dims
           ("]" ++ sep1 ++ "->" ++ rname ++ "[" ++ rdims ++ "]" ++ sep2
                ++ ":" ++ cons ++ "}")).
  unfold text, map_literal. same_text.
Qed.

Lemma substr_rname : substr text (at_arrow + 2) (size rname) = Ok rname.
Proof.
  replace (at_arrow + 2) with (size ("{" ++ name ++ "[" ++ dims ++ "]" ++ sep1 ++ "->")).
  2:{ unfold at_arrow, at_rbr, at_lbr. rewrite !size_app. repeat rewrite size_cons.
      rewrite !size_nil. lia. }
  apply (substr_middle text ("{" ++ name ++ "[" ++ dims ++ "]" ++ sep1 ++ "->") rname
           ("[" ++ rdims ++ "]" ++ sep2 ++ ":" ++ cons ++ "}")).
  unfold text, map_literal. same_text.
Qed.

Lemma substr_rdims : substr text (at_lbr2 + 1) (size rdims) = Ok rdims.
Proof.
  replace (at_lbr2 + 1)
    with (size ("{" ++ name ++ "[" ++ dims ++ "]" ++ sep1 ++ "->" ++ rname ++ "[")).
  2:{ unfold at_lbr2, at_arrow, at_rbr, at_lbr. rewrite !size_app.
      repeat rewrite size_cons. rewrite !size_nil. lia. }
  apply (substr_middle text
           ("{" ++ name ++ "[" ++ dims ++ "]" ++ sep1 ++ "->" ++ rname ++ "[") rdims
           ("]" ++ sep2 ++ ":" ++ cons ++ "}")).
  unfold text, map_literal. same_text.
Qed.

Lemma substr_cons : substr text (at_colon + 1) (size cons) = Ok cons.
Proof.
  replace (at_colon + 1)
    with (size ("{" ++ name ++ "[" ++ dims ++ "]" ++ sep1 ++ "->" ++ rname ++ "["
                    ++ rdims ++ "]" ++ sep2 ++ ":")).
  2:{ unfold at_colon, at_rbr2, at_lbr2, at_arrow, at_rbr, at_lbr. rewrite !size_app.
      repeat rewrite size_cons. rewrite !size_nil. lia. }
  apply (substr_middle text
           ("{" ++ name ++ "[" ++ dims ++ "]" ++ sep1 ++ "->" ++ rname ++ "["
                ++ rdims ++ "]" ++ sep2 ++ ":") cons "}").
  unfold text, map_literal. same_text.
Qed.

Hypothesis cons_nonempty : String.eqb cons "" = false.
Hypothesis text_small : size text < 2 ^ 31.

Lemma map_new_map_literal :
  map_new split_string space_parse text
  = Ok {| parameters := space_empty;
          domain_name := name;
          range_name := rname;
          domain := space_parse dims space_empty;
          range := space_parse rdims space_empty;
          map_constraints := mk_constraint (split_string cons "and" []) |}.
Proof.
  pose proof size_map_literal as Hsize.
  pose proof (size_nonneg name). pose proof (size_nonneg dims).
  pose proof (size_nonneg sep1). pose proof (size_nonneg rname).
  pose proof (size_nonneg rdims). pose proof (size_nonneg sep2).
  pose proof (size_nonneg cons).
  assert (Hb : 1 <= at_lbr /\ at_lbr < at_rbr /\ at_rbr < at_arrow
               /\ at_arrow + 2 <= at_lbr2 /\ at_lbr2 < at_rbr2 /\ at_rbr2 < at_colon
               /\ at_colon < at_close /\ at_close + 1 < 2 ^ 31).
  { rewrite <- Hsize. unfold at_close, at_colon, at_rbr2, at_lbr2, at_arrow, at_rbr, at_lbr.
    lia. }
  unfold map_new. cbv zeta.
  rewrite find_open, find_close, find_colon.
  change (to_size_t (0 + 1)) with 1. change (to_int 1) with 1.
  change (to_size_t 1) with 1.
  rewrite find_lbr, find_rbr.
  conv (at_close - 1). conv (at_lbr + 1). conv (at_lbr - 1). conv (at_rbr - 1).
  conv (at_colon + 1).
  rewrite find_arrow. conv at_arrow. conv (at_arrow + 2).
  rewrite find_lbr2, find_rbr2.
  conv (at_lbr2 + 1). conv (at_lbr2 - 1). conv (at_rbr2 - 1).
  replace (at_lbr - 1 - 1 + 1) with (size name) by (unfold at_lbr; lia).
  replace (at_rbr - 1 - (at_lbr + 1) + 1) with (size dims) by (unfold at_rbr; lia).
  replace (at_lbr2 - 1 - (at_arrow + 2) + 1) with (size rname) by (unfold at_lbr2; lia).
  replace (at_rbr2 - 1 - (at_lbr2 + 1) + 1) with (size rdims) by (unfold at_rbr2; lia).
  replace (at_close - 1 - (at_colon + 1) + 1) with (size cons) by (unfold at_close; lia).
  conv (size name). conv (size dims). conv (size rname). conv (size rdims).
  conv (size cons).
  rewrite !assert_in_range by lia. cbn [mbind result_bind].
  rewrite substr_name, substr_dims, substr_rname, substr_rdims. cbn [mbind result_bind].
  assert (Hcol : negb (at_colon + 1 =? npos) = true).
  { apply negb_true_iff, Z.eqb_neq. unfold npos, size_t_modulus. lia. }
  rewrite Hcol, substr_cons. cbn [mbind result_bind].
  unfold constraint_parse. rewrite cons_nonempty. reflexivity.
Qed.

End MapLiteral.

Section NoArrow.

Variable split_string : string -> string -> list string -> list string.
Variable space_parse : string -> space -> space.

(** Without ["->"] the constructor never returns: it stops at the assert on
    [pos_arrow] at the latest. *)
Lemma map_new_without_arrow (text : string) :
  first_occurrence "->" text = None ->
  exists e, map_new split_string space_parse text = Err e.
Proof.
  intros Hno. unfold map_new. cbv zeta.
  repeat match goal with
  | |- exists e, (assert (negb (to_size_t (to_int (find _ "->" _)) =? npos)) _ ≫= _) = _ =>
      rewrite (find_absent _ _ _ Hno); eexists; reflexivity
  | |- exists e, (?m ≫= _) = Err e =>
      destruct m; cbn [mbind result_bind]; [|eexists; reflexivity]
  end.
Qed.

End NoArrow.

Section SetLiteral.

Variable split_string : string -> string -> list string -> list string.
Variable space_parse : string -> space -> space.

Variables name dims sep cons : string.

Hypothesis name_clean : free_of "[]}" name = true.
Hypothesis dims_clean : free_of "]}" dims = true.
Hypothesis sep_clean : free_of "}" sep = true.
Hypothesis cons_clean : free_of "}" cons = true.

Let text : string := set_literal name dims sep cons.

Hypothesis no_arrow : first_occurrence "->" text = None.
Hypothesis text_small : size text < 2 ^ 31.

Let at_lbr : Z := 1 + size name.
Let at_rbr : Z := at_lbr + 1 + size dims.
Let at_close : Z := at_rbr + 1 + size sep + 1 + size cons.

Ltac sizes :=
  unfold at_close, at_rbr, at_lbr;
  rewrite ?size_app; repeat rewrite size_cons; rewrite ?size_nil; lia.

Ltac shape := unfold text, set_literal; same_text.

Lemma s_size : size text = at_close + 1.
Proof. unfold text, set_literal. sizes. Qed.

Lemma s_find_open : find text "{" 0 = 0.
Proof.
  change 0 with (size "") at 1.
  rewrite (find_after text "" "" (drop 1 text) "{" ""); [reflexivity|reflexivity|reflexivity].
Qed.

Lemma s_find_close : find text "}" 0 = at_close.
Proof.
  free_of_facts. change 0 with (size "") at 1.
  rewrite (find_after text ""
             ("{" ++ name ++ "[" ++ dims ++ "]" ++ sep ++ ":" ++ cons) "" "}" "");
    [ sizes
    | unfold text, set_literal; rewrite ?app_assoc, app_nil_r; reflexivity
    | mem_false].
Qed.

Lemma s_find_lbr : find text "[" 1 = at_lbr.
Proof.
  free_of_facts. change 1 with (size "{") at 1.
  rewrite (find_after text "{" name (dims ++ "]" ++ sep ++ ":" ++ cons ++ "}") "[" "");
    [reflexivity | shape | mem_false].
Qed.

Lemma s_find_rbr : find text "]" 1 = at_rbr.
Proof.
  free_of_facts. change 1 with (size "{") at 1.
  rewrite (find_after text "{" (name ++ "[" ++ dims) (sep ++ ":" ++ cons ++ "}") "]" "");
    [ sizes | shape | mem_false].
Qed.

Lemma s_substr_name : substr text 1 (size name) = Ok name.
Proof.
  change 1 with (size "{").
  apply (substr_middle text "{" name ("[" ++ dims ++ "]" ++ sep ++ ":" ++ cons ++ "}")).
  shape.
Qed.

Lemma s_substr_dims : substr text (at_lbr + 1) (size dims) = Ok dims.
Proof.
  replace (at_lbr + 1) with (size ("{" ++ name ++ "[")) by sizes.
  apply (substr_middle text ("{" ++ name ++ "[") dims ("]" ++ sep ++ ":" ++ cons ++ "}")).
  shape.
Qed.

(** On a set literal the constructor cuts out the name and the dimensions
    of the tuple, then looks for the arrow, and stops at its assertion. *)
Lemma map_new_set_literal :
  map_new split_string space_parse text
  = Err (AssertionFailed "pos_arrow != std::string::npos").
Proof.
  pose proof s_size as Hsize.
  pose proof (size_nonneg name). pose proof (size_nonneg dims).
  pose proof (size_nonneg sep). pose proof (size_nonneg cons).
  assert (Hb : 1 <= at_lbr /\ at_lbr < at_rbr /\ at_rbr < at_close
               /\ at_close + 1 < 2 ^ 31).
  { rewrite <- Hsize. unfold at_close, at_rbr, at_lbr. lia. }
  unfold map_new. cbv zeta.
  rewrite s_find_open, s_find_close.
  change (to_size_t (0 + 1)) with 1. change (to_int 1) with 1.
  change (to_size_t 1) with 1.
  rewrite s_find_lbr, s_find_rbr.
  conv (at_close - 1). conv (at_lbr + 1). conv (at_lbr - 1). conv (at_rbr - 1).
  replace (at_lbr - 1 - 1 + 1) with (size name) by (unfold at_lbr; lia).
  replace (at_rbr - 1 - (at_lbr + 1) + 1) with (size dims) by (unfold at_rbr; lia).
  conv (size name). conv (size dims).
  rewrite (find_absent text "->" (at_rbr - 1) no_arrow).
  rewrite (assert_in_range 1), (assert_in_range (at_close - 1)),
    (assert_in_range (at_lbr + 1)), (assert_in_range (at_rbr - 1)) by lia.
  cbn [mbind result_bind].
  rewrite s_substr_name, s_substr_dims. cbn [mbind result_bind].
  reflexivity.
Qed.

End SetLiteral.

(** C7, as the constructor has it.  On every relation literal
    [{name[dims]sep1->rname[rdims]sep2:cons}] whose pieces hold none of the
    delimiters searched for and whose constraint part is not empty,
    [parser::map::map] returns the domain tuple name, the domain dimensions
    as [space::parse] reads them, the range tuple name and dimensions, and the
    constraint list [split_string] makes of the constraint text at ["and"];
    the pieces are taken verbatim and [parameters] stays empty.  A text
    without ["->"] is never parsed, the constructor ending in an error
    before it returns; on a set literal [{name[dims]sep:cons}] with clean
    pieces it is the assertion on the position of the arrow that fails,
    after the tuple has been cut out. *)
Theorem map_new_splits_relation_literal
  (split_string : string -> string -> list string -> list string)
  (space_parse : string -> space -> space)
  (name dims sep1 rname rdims sep2 cons : string) :
  free_of "[]}:" name = true ->
  free_of "]}:" dims = true ->
  free_of "-}:" sep1 = true ->
  free_of "[]}:" rname = true ->
  free_of "]}:" rdims = true ->
  free_of "}:" sep2 = true ->
  free_of "}" cons = true ->
  String.eqb cons "" = false ->
  size (map_literal name dims sep1 rname rdims sep2 cons) < 2 ^ 31 ->
  map_new split_string space_parse (map_literal name dims sep1 rname rdims sep2 cons)
  = Ok {| parameters := space_empty;
          domain_name := name;
          range_name := rname;
          domain := space_parse dims space_empty;
          range := space_parse rdims space_empty;
          map_constraints := mk_constraint (split_string cons "and" []) |}
  /\ (forall text : string,
        first_occurrence "->" text = None ->
        exists e, map_new split_string space_parse text = Err e)
  /\ (forall sname sdims ssep scons : string,
        free_of "[]}" sname = true ->
        free_of "]}" sdims = true ->
        free_of "}" ssep = true ->
        free_of "}" scons = true ->
        first_occurrence "->" (set_literal sname sdims ssep scons) = None ->
        size (set_literal sname sdims ssep scons) < 2 ^ 31 ->
        map_new split_string space_parse (set_literal sname sdims ssep scons)
        = Err (AssertionFailed "pos_arrow != std::string::npos")).
Proof.
  intros. split; [|split].
  - apply map_new_map_literal; assumption.
  - apply map_new_without_arrow.
  - intros. apply map_new_set_literal; assumption.
Qed.

Lemma map_new_splits_relation_literal_witness :
  map_new split_string_model space_parse_model "{S0[i,j] -> S0[i0,i1] : 0<=i and i<N}"
  = Ok {| parameters := space_empty;
          domain_name := "S0";
          range_name := " S0";
          domain := mk_space ["i"; "j"];
          range := mk_space ["i0"; "i1"];
          map_constraints := mk_constraint [" 0<=i "; " i<N"] |}
  /\ (forall text : string,
        first_occurrence "->" text = None ->
        exists e, map_new split_string_model space_parse_model text = Err e)
  /\ (forall sname sdims ssep scons : string,
        free_of "[]}" sname = true ->
        free_of "]}" sdims = true ->
        free_of "}" ssep = true ->
        free_of "}" scons = true ->
        first_occurrence "->" (set_literal sname sdims ssep scons) = None ->
        size (set_literal sname sdims ssep scons) < 2 ^ 31 ->
        map_new split_string_model space_parse_model (set_literal sname sdims ssep scons)
        = Err (AssertionFailed "pos_arrow != std::string::npos")).
Proof.
  exact (map_new_splits_relation_literal split_string_model space_parse_model
           "S0" "i,j" " " " S0" "i0,i1" " " " 0<=i and i<N"
           eq_refl eq_refl eq_refl eq_refl eq_refl eq_refl eq_refl eq_refl eq_refl).
Defined.

(** The set form of the same iteration space is not split: the constructor
    stops at its assert on the arrow. *)
Lemma map_new_rejects_set_literal :
  map_new split_string_model space_parse_model "{S0[i,j] : 0<=i and i<N}"
  = Err (AssertionFailed "pos_arrow != std::string::npos").
Proof. vm_compute. reflexivity. Qed.

(** Without a constraint part, [column_pos] is [npos + 1 = 0], the test
    against [npos] lets it through, and the text from position 0 up to the
    closing brace is handed to [constraint::parse]. *)
Lemma map_new_unconstrained_example :
  map_constraints <$>
    map_new split_string_model space_parse_model "{S0[i,j] -> S0[i,j]}"
  = Ok (mk_constraint ["{S0[i,j] -> S0[i,j]"]).
Proof. vm_compute. reflexivity. Qed.

End ParserFacts.

(** ** The text of the identity schedule *)

Module IdentityScheduleFacts.
Import Cxx CxxFacts Parser ParserFacts Core.

Section Constrained.

(** The printed iteration set [prefix{tuple:cons}]: [prefix] is what the
    printer puts before the opening brace (nothing, or the parameter list
    and its arrow), [tuple] is the text between the brace and the colon. *)
Variables prefix tuple cons : string.

Hypothesis prefix_clean : free_of "{}:" prefix = true.
Hypothesis tuple_clean : free_of "}:" tuple = true.
Hypothesis cons_clean : free_of "}" cons = true.

Let text : string := prefix ++ "{" ++ tuple ++ ":" ++ cons ++ "}".

Hypothesis text_small : size text < npos.

(** What is put in front of the colon is the text with the braces and the
    constraint part taken out: the tuple, and before it the whole prefix. *)
Lemma identity_schedule_text_constrained :
  identity_schedule_text text text
  = Ok (prefix ++ "{" ++ tuple ++ " -> " ++ prefix ++ tuple ++ ":" ++ cons ++ "}").
Proof.
  free_of_facts.
  pose proof (size_nonneg prefix). pose proof (size_nonneg tuple).
  pose proof (size_nonneg cons).
  assert (Hsize : size text = size prefix + 1 + size tuple + 1 + size cons + 1).
  { unfold text. rewrite !size_app. repeat rewrite size_cons. rewrite !size_nil. lia. }
  unfold identity_schedule_text. cbv zeta.
  (* the opening brace *)
  assert (F1 : find text "{" 0 = size prefix).
  { change 0 with (size "") at 1.
    rewrite (find_after text "" prefix (tuple ++ ":" ++ cons ++ "}") "{" "");
      [rewrite size_nil; lia | reflexivity | mem_false]. }
  rewrite F1.
  rewrite (erase_char text prefix "{" (tuple ++ ":" ++ cons ++ "}")) by reflexivity.
  cbn [mbind result_bind].
  (* the closing brace *)
  assert (F2 : find (prefix ++ tuple ++ ":" ++ cons ++ "}") "}" 0
               = size (prefix ++ tuple ++ ":" ++ cons)).
  { change 0 with (size "") at 1.
    rewrite (find_after _ "" (prefix ++ tuple ++ ":" ++ cons) "" "}" "");
      [rewrite size_nil; lia | rewrite ?app_assoc, app_nil_r; reflexivity | mem_false]. }
  rewrite F2.
  rewrite (erase_char _ (prefix ++ tuple ++ ":" ++ cons) "}" "")
    by (rewrite ?app_assoc; reflexivity).
  cbn [mbind result_bind]. rewrite app_nil_r.
  (* the colon *)
  assert (F3 : find text ":" 0 = size (prefix ++ "{" ++ tuple)).
  { change 0 with (size "") at 1.
    rewrite (find_after text "" (prefix ++ "{" ++ tuple) (cons ++ "}") ":" "");
      [rewrite size_nil; lia | unfold text; same_text | mem_false]. }
  rewrite F3.
  assert (Hne : negb (size (prefix ++ "{" ++ tuple) =? npos) = true).
  { apply negb_true_iff, Z.eqb_neq. rewrite !size_app, size_cons, size_nil. lia. }
  rewrite Hne.
  assert (F4 : find (prefix ++ tuple ++ ":" ++ cons) ":" 0 = size (prefix ++ tuple)).
  { change 0 with (size "") at 1.
    rewrite (find_after _ "" (prefix ++ tuple) cons ":" "");
      [rewrite size_nil; lia | same_text | mem_false]. }
  rewrite F4.
  rewrite (erase_to_end _ (prefix ++ tuple) (":" ++ cons)).
  2:{ same_text. }
  2:{ rewrite to_size_t_small.
      - rewrite !size_app. lia.
      - rewrite !size_app, size_cons, size_nil. unfold npos, size_t_modulus in *. lia. }
  cbn [mbind result_bind].
  rewrite (insert_at text (prefix ++ "{" ++ tuple) (":" ++ cons ++ "}"))
    by (unfold text; same_text).
  f_equal. same_text.
Qed.

End Constrained.

Section Unconstrained.

(** The printed iteration set without a constraint part,
    [{name[dims]rest}]. *)
Variables name dims rest : string.

Hypothesis name_clean : free_of "]}:" name = true.
Hypothesis dims_clean : free_of "]}:" dims = true.
Hypothesis rest_clean : free_of "}:" rest = true.

Let text : string := "{" ++ name ++ "[" ++ dims ++ "]" ++ rest ++ "}".

Hypothesis text_small : size text < npos.

Lemma identity_schedule_text_unconstrained :
  identity_schedule_text text text
  = Ok ("{" ++ name ++ "[" ++ dims ++ "]" ++ " -> " ++ (name ++ "[" ++ dims ++ "]" ++ rest)
            ++ rest ++ "}").
Proof.
  free_of_facts.
  pose proof (size_nonneg name). pose proof (size_nonneg dims).
  pose proof (size_nonneg rest).
  assert (Hsize : size text = 1 + size name + 1 + size dims + 1 + size rest + 1).
  { unfold text. rewrite !size_app. repeat rewrite size_cons. rewrite !size_nil. lia. }
  unfold identity_schedule_text. cbv zeta.
  assert (F1 : find text "{" 0 = size "").
  { change 0 with (size "") at 1.
    rewrite (find_after text "" "" (name ++ "[" ++ dims ++ "]" ++ rest ++ "}") "{" "");
      reflexivity. }
  rewrite F1.
  rewrite (erase_char text "" "{" (name ++ "[" ++ dims ++ "]" ++ rest ++ "}"))
    by reflexivity.
  cbn [mbind result_bind]. rewrite app_nil_l.
  assert (F2 : find (name ++ "[" ++ dims ++ "]" ++ rest ++ "}") "}" 0
               = size (name ++ "[" ++ dims ++ "]" ++ rest)).
  { change 0 with (size "") at 1.
    rewrite (find_after _ "" (name ++ "[" ++ dims ++ "]" ++ rest) "" "}" "");
      [rewrite size_nil; lia | rewrite ?app_assoc, app_nil_r; reflexivity | mem_false]. }
  rewrite F2.
  rewrite (erase_char _ (name ++ "[" ++ dims ++ "]" ++ rest) "}" "")
    by (rewrite ?app_assoc; reflexivity).
  cbn [mbind result_bind]. rewrite app_nil_r.
  assert (F3 : find text ":" 0 = npos).
  { apply find_none. unfold text. mem_false. }
  rewrite F3, Z.eqb_refl. cbn [negb].
  assert (F4 : find text "]" 0 = size ("{" ++ name ++ "[" ++ dims)).
  { change 0 with (size "") at 1.
    rewrite (find_after text "" ("{" ++ name ++ "[" ++ dims) (rest ++ "}") "]" "");
      [rewrite size_nil; lia | unfold text; same_text | mem_false]. }
  rewrite F4.
  assert (E : to_size_t (size ("{" ++ name ++ "[" ++ dims) + 1)
              = size ("{" ++ name ++ "[" ++ dims ++ "]")).
  { rewrite to_size_t_small.
    - rewrite !size_app. repeat rewrite size_cons. rewrite !size_nil. lia.
    - rewrite !size_app. repeat rewrite size_cons. rewrite !size_nil.
      unfold npos, size_t_modulus in *. lia. }
  rewrite E. cbn [mbind result_bind].
  rewrite (insert_at text ("{" ++ name ++ "[" ++ dims ++ "]") (rest ++ "}"))
    by (unfold text; same_text).
  f_equal. same_text.
Qed.

End Unconstrained.

(** C3, at an iteration set with a parameter list.  The text handed to
    [set_schedule] carries the parameter list a second time, between the
    arrow and the range tuple: it is not the text of the identity schedule,
    blanks aside. *)
Theorem identity_schedule_text_repeats_parameter_list :
  identity_schedule_text Tutorial.parametric_set_printed Tutorial.parametric_set_printed
  = Ok Tutorial.parametric_text_built
  /\ String.eqb (Tutorial.without_blanks Tutorial.parametric_text_built)
       (Tutorial.without_blanks Tutorial.parametric_identity_schedule) = false.
Proof. split; vm_compute; reflexivity. Qed.

(** Without a parameter list the text is that of the identity schedule. *)
Lemma identity_schedule_text_tutorial :
  identity_schedule_text "{ S0[i, j] : 0 <= i <= 1000 and 0 <= j <= 1000 }"
    "{ S0[i, j] : 0 <= i <= 1000 and 0 <= j <= 1000 }"
  = Ok "{ S0[i, j]  ->  S0[i, j] : 0 <= i <= 1000 and 0 <= j <= 1000 }"
  /\ identity_schedule_text "{ S0[i, j] }" "{ S0[i, j] }" = Ok "{ S0[i, j] ->  S0[i, j]  }".
Proof. split; vm_compute; reflexivity. Qed.

End IdentityScheduleFacts.

(** ** Facts about the schedule algebra *)

Module ScheduleFacts.
Import Isl Core ScheduleAlgebra.

Lemma split_point_cons (d : nat) (f h : Z) (t : list Z) :
  split_point (S d) f (h :: t) = h :: split_point d f t.
Proof. unfold split_point. cbn. destruct (t !! d); reflexivity. Qed.

Lemma interchange_point_cons (d1 d2 : nat) (h : Z) (t : list Z) :
  interchange_point (S d1) (S d2) (h :: t) = h :: interchange_point d1 d2 t.
Proof. unfold interchange_point. cbn. destruct (t !! d1), (t !! d2); reflexivity. Qed.

Lemma tile_point_cons (d : nat) (f1 f2 h : Z) (t : list Z) :
  tile_point (S d) f1 f2 (h :: t) = h :: tile_point d f1 f2 t.
Proof. unfold tile_point. cbn. destruct (t !! d), (t !! S d); reflexivity. Qed.

(** On a tuple that has dimensions [d] and [d+1], the two splits and the
    interchange land on the tiled tuple. *)
Lemma split_split_interchange_point (d : nat) (f1 f2 : Z) (t : list Z) :
  (d + 2 <= length t)%nat ->
  interchange_point (d + 1) (d + 2) (split_point (d + 2) f2 (split_point d f1 t))
  = tile_point d f1 f2 t.
Proof.
  revert t. induction d as [|d IH]; intros t Hlen.
  - destruct t as [|a [|b post]]; cbn in Hlen; try lia. reflexivity.
  - destruct t as [|h t]; cbn in Hlen; [lia|].
    cbn [Nat.add]. rewrite split_point_cons, split_point_cons,
      interchange_point_cons, tile_point_cons.
    f_equal. apply IH. lia.
Qed.

Lemma length_split_point (d : nat) (f : Z) (t : list Z) :
  (d < length t)%nat -> length (split_point d f t) = S (length t).
Proof.
  revert t. induction d as [|d IH]; intros t Hlen.
  - destruct t; cbn in *; [lia|]. unfold split_point. cbn. rewrite drop_0. reflexivity.
  - destruct t as [|h t]; cbn in Hlen; [lia|].
    rewrite split_point_cons. cbn. rewrite IH; [reflexivity|lia].
Qed.

Section Tile.

Context {Expr Stmt isl_ast_expr : Type}.
Abbreviation computation := (@computation Expr Stmt isl_ast_expr).

Lemma tile_chain (s : list Z -> list Z -> Prop) (m d : nat) (f1 f2 : Z) (x p : list Z) :
  (d + 2 <= m)%nat ->
  (exists y, s x y /\ length y = m /\ p = tile_point d f1 f2 y)
  <-> (exists y3,
         (exists y2,
            (exists y1, s x y1 /\ length y1 = m /\ y2 = split_point d f1 y1)
            /\ length y2 = S m /\ y3 = split_point (d + 2) f2 y2)
         /\ length y3 = S (S m) /\ p = interchange_point (d + 1) (d + 2) y3).
Proof.
  intros Hm. split.
  - intros (y & Hs & Hlen & ->).
    exists (split_point (d + 2) f2 (split_point d f1 y)). split.
    + exists (split_point d f1 y). split.
      * exists y. auto.
      * split; [|reflexivity]. rewrite length_split_point; lia.
    + split.
      * rewrite !length_split_point; rewrite ?length_split_point; lia.
      * symmetry. apply split_split_interchange_point. lia.
  - intros (y3 & (y2 & (y1 & Hs & Hlen & ->) & _ & ->) & _ & ->).
    exists y1. split; [exact Hs|]. split; [exact Hlen|].
    apply split_split_interchange_point. lia.
Qed.

Lemma tile_alike_split_split_interchange (c : computation) (d : nat) (f1 f2 : Z) :
  0 < f1 -> 0 < f2 ->
  alike same_image (tile d (S d) f1 f2 c) (split_split_interchange d f1 f2 c).
Proof.
  intros Hf1 Hf2.
  unfold tile, split_split_interchange, split.
  destruct (schedule c) as [s|] eqn:Hs; [|exact I].
  set (m := tuple_dim (map_out s)).
  rewrite (bool_decide_eq_true_2 (S d = S d)) by reflexivity.
  assert (E1 : (f1 <=? 0) = false) by (apply Z.leb_gt; lia).
  assert (E2 : (f2 <=? 0) = false) by (apply Z.leb_gt; lia).
  rewrite E1, E2, !orb_false_r. cbn [negb orb].
  unfold transform_schedule, isl_map_apply_range. cbn [mbind option_bind].
  destruct (decide (m <= S d)%nat) as [Hle|Hgt].
  - (* dimension d+1 does not exist: both fail *)
    rewrite (bool_decide_eq_true_2 _ Hle).
    destruct (decide (m <= d)%nat) as [Hle'|Hgt'].
    + rewrite (bool_decide_eq_true_2 _ Hle'). exact I.
    + rewrite (bool_decide_eq_false_2 _ Hgt').
      destruct (decide (map_out s = map_in (transformation (name c) m (S m) (split_point d f1))));
        [|exact I].
      cbn. rewrite bool_decide_eq_true_2 by (fold m; lia). exact I.
  - rewrite (bool_decide_eq_false_2 _ Hgt).
    rewrite (bool_decide_eq_false_2 (m <= d)%nat) by lia.
    cbn [transformation map_in map_out].
    destruct (decide (map_out s = mk_tuple (Some (name c)) m)) as [Hout|Hout]; [|exact I].
    cbn. rewrite bool_decide_eq_false_2 by (fold m; lia).
    rewrite decide_True by reflexivity. cbn.
    unfold interchange. cbn.
    rewrite (bool_decide_eq_false_2 (S (S m) <= d + 1)%nat) by lia.
    rewrite (bool_decide_eq_false_2 (S (S m) <= d + 2)%nat) by lia.
    rewrite (bool_decide_eq_false_2 (d + 1 = d + 2)%nat) by lia.
    cbn. unfold transform_schedule, isl_map_apply_range. cbn.
    rewrite decide_True by reflexivity. cbn.
    split; [reflexivity|].
    unfold image, isl_set_apply. cbn.
    destruct (iter_space c) as [it|]; cbn; [|exact I].
    destruct (decide (set_tuple it = map_in s)); [|exact I].
    split; [reflexivity|].
    intros p. cbn.
    assert (Hm : (d + 2 <= m)%nat) by lia.
    split; intros (x & Hx & H); exists x; (split; [exact Hx|]);
      apply (tile_chain (map_relates s) m d f1 f2 x p Hm); exact H.
Qed.

(** Where levels [d] and [d+1] exist and the range of the schedule is named
    after the computation, [tile] returns. *)
Lemma tile_returns (c : computation) (s : isl_map) (d : nat) (f1 f2 : Z) :
  0 < f1 -> 0 < f2 ->
  schedule c = Some s ->
  (S d < tuple_dim (map_out s))%nat ->
  tuple_name (map_out s) = Some (name c) ->
  exists ct, tile d (S d) f1 f2 c = Ok (tt, ct).
Proof.
  intros Hf1 Hf2 Hs Hd Hn. unfold tile. rewrite Hs.
  rewrite (bool_decide_eq_true_2 (S d = S d)) by reflexivity.
  rewrite bool_decide_eq_false_2 by lia. cbn [negb orb].
  assert (E1 : (f1 <=? 0) = false) by (apply Z.leb_gt; lia).
  assert (E2 : (f2 <=? 0) = false) by (apply Z.leb_gt; lia).
  rewrite E1, E2. cbn [orb].
  unfold transform_schedule, isl_map_apply_range. cbn [mbind option_bind].
  rewrite decide_True; [eexists; reflexivity|].
  cbn [transformation map_in]. destruct (map_out s) as [nm dm]. cbn in *.
  rewrite Hn. reflexivity.
Qed.

(** C2.  For every level [d] and positive factors [f1], [f2]:
    [tile(d, d+1, f1, f2)] and [split(d, f1); split(d+2, f2);
    interchange(d+1, d+2)] fail together or return together, and when they
    return, the two schedules send the iteration set (which neither
    touches) to the same image.  They do return where the schedule has
    levels [d] and [d+1] and its range is named after the computation. *)
Theorem tile_equals_split_split_interchange (c : computation) (d : nat) (f1 f2 : Z) :
  0 < f1 -> 0 < f2 ->
  alike same_image (tile d (S d) f1 f2 c) (split_split_interchange d f1 f2 c)
  /\ forall s,
       schedule c = Some s ->
       (S d < tuple_dim (map_out s))%nat ->
       tuple_name (map_out s) = Some (name c) ->
       exists ct, tile d (S d) f1 f2 c = Ok (tt, ct).
Proof.
  intros Hf1 Hf2. split.
  - apply tile_alike_split_split_interchange; assumption.
  - intros s. apply tile_returns; assumption.
Qed.

End Tile.

End ScheduleFacts.

(** ** Facts about [computation] and [library] *)

Module CoreFacts.
Import Cxx Isl Core ScheduleAlgebra LibraryText IdentityScheduleFacts.

(** Splits [H : (m ≫= k) = Ok r] into the cases of [m]. *)
Ltac bind_ok H :=
  match type of H with
  | (?m ≫= _) = Ok _ =>
      let E := fresh "E" in
      destruct m as [?|?] eqn:E; cbn [mbind result_bind] in H; [|discriminate H]
  end.

Section Computation.

Context {Expr Stmt isl_ast_expr : Type}.
Abbreviation computation := (@computation Expr Stmt isl_ast_expr).

(** C4.  When the iteration set and the schedule are both set,
    [gen_time_processor_IR] returns, and the object it leaves differs from
    the one it got in the time-processor field alone, which holds
    [isl_set_apply] of the iteration set and the schedule: where the set
    lives in the domain space of the schedule, the set named after the
    range of the schedule whose points are the images, under the schedule
    relation, of the points of the iteration set.  The iteration set and
    the schedule are as before. *)
Theorem gen_time_processor_IR_applies_schedule
  (c : computation) (it : isl_set) (sc : isl_map) :
  iter_space c = Some it ->
  schedule c = Some sc ->
  exists c',
    gen_time_processor_IR c = Ok (tt, c')
    /\ c' = set_time_processor_space_field (isl_set_apply (Some it) (Some sc)) c
    /\ iter_space c' = Some it
    /\ schedule c' = Some sc
    /\ (set_tuple it = map_in sc ->
        exists tp,
          time_processor_space c' = Some tp
          /\ set_tuple tp = map_out sc
          /\ forall y, set_contains tp y
                       <-> exists x, set_contains it x /\ map_relates sc x y).
Proof.
  intros Hit Hsc.
  exists (set_time_processor_space_field (isl_set_apply (Some it) (Some sc)) c).
  split.
  - unfold gen_time_processor_IR, get_iteration_space_representation, get_schedule.
    rewrite Hit. cbn [mbind result_bind assert bool_decide decide_rel is_Some_dec].
    rewrite Hsc. cbn [mbind result_bind assert bool_decide decide_rel is_Some_dec].
    rewrite Hit. cbn [mbind result_bind assert bool_decide decide_rel is_Some_dec].
    rewrite Hsc. reflexivity.
  - split; [reflexivity|]. split; [exact Hit|]. split; [exact Hsc|].
    intros Hsp. cbn. rewrite decide_True by exact Hsp.
    eexists. split; [reflexivity|]. split; [reflexivity|]. intros y. reflexivity.
Qed.

(** C5.  When the time-processor representation has been computed,
    [get_time_processor_identity_relation] returns the identity on the
    whole time-processor space, its domain named as that space and its
    range tuple name erased to the empty string, and hands the object back
    as it got it. *)
Theorem get_time_processor_identity_relation_erases_range_name
  (c : computation) (tp : isl_set) :
  time_processor_space c = Some tp ->
  exists r,
    get_time_processor_identity_relation c = Ok (Some r, c)
    /\ map_in r = set_tuple tp
    /\ map_out r = mk_tuple (Some "") (tuple_dim (set_tuple tp))
    /\ isl_map_get_tuple_name (Some r) isl_dim_out = Some ""
    /\ forall x y, map_relates r x y
                   <-> length x = tuple_dim (set_tuple tp) /\ y = x.
Proof.
  intros Htp.
  unfold get_time_processor_identity_relation, get_time_processor_representation.
  cbn [mbind result_bind]. rewrite Htp.
  cbn [mbind result_bind assert bool_decide decide_rel is_Some_dec].
  unfold isl_map_set_tuple_name, isl_map_identity, isl_space_map_from_set,
    isl_set_get_space.
  cbn [mbind option_bind]. rewrite decide_True by reflexivity.
  eexists. split; [reflexivity|]. cbn.
  split; [reflexivity|]. split; [reflexivity|]. split; [reflexivity|].
  intros x y. reflexivity.
Qed.

(** *** Tuple names of the schedule *)

Lemma set_schedule_rejects (c : computation) (m : isl_map) (a b : string) :
  isl_map_get_tuple_name (Some m) isl_dim_in = Some a ->
  isl_map_get_tuple_name (Some m) isl_dim_out = Some b ->
  a <> b ->
  set_schedule (Some m) c = Err (AssertionFailed names_message).
Proof.
  intros Ha Hb Hab. unfold set_schedule. rewrite Ha, Hb.
  unfold strcmp_eq. apply String.eqb_neq in Hab. rewrite Hab. reflexivity.
Qed.

Lemma set_schedule_accepts (c c' : computation) (m : option isl_map) :
  set_schedule m c = Ok (tt, c') ->
  c' = set_schedule_field m c
  /\ exists n, isl_map_get_tuple_name (schedule c') isl_dim_in = Some n
               /\ isl_map_get_tuple_name (schedule c') isl_dim_out = Some n.
Proof.
  unfold set_schedule.
  destruct (isl_map_get_tuple_name m isl_dim_in) as [a|] eqn:Ha; [|discriminate].
  destruct (isl_map_get_tuple_name m isl_dim_out) as [b|] eqn:Hb; [|discriminate].
  unfold strcmp_eq. destruct (String.eqb a b) eqn:Hab; [|discriminate].
  cbn. intros [= <-]. split; [reflexivity|].
  apply String.eqb_eq in Hab. subst b. exists a. cbn. auto.
Qed.

Lemma set_schedule_same_names (c : computation) (m : isl_map) (n : string) :
  isl_map_get_tuple_name (Some m) isl_dim_in = Some n ->
  isl_map_get_tuple_name (Some m) isl_dim_out = Some n ->
  set_schedule (Some m) c = Ok (tt, set_schedule_field (Some m) c).
Proof.
  intros Ha Hb. unfold set_schedule. rewrite Ha, Hb.
  unfold strcmp_eq. rewrite String.eqb_refl. reflexivity.
Qed.

Lemma transform_schedule_keeps_domain (s T : isl_map) (c c' : computation) :
  transform_schedule s T c = Ok (tt, c') ->
  iter_space c' = iter_space c
  /\ exists s', schedule c' = Some s' /\ map_in s' = map_in s.
Proof.
  unfold transform_schedule, isl_map_apply_range. cbn [mbind option_bind].
  destruct (decide (map_out s = map_in T)); [|discriminate].
  intros [= <-]. split; [reflexivity|]. eexists. split; reflexivity.
Qed.

Lemma apply_transformation_keeps_domain (t : transformation_t) (c c' : computation) :
  apply_transformation t c = Ok (tt, c') ->
  iter_space c' = iter_space c
  /\ exists s s', schedule c = Some s /\ schedule c' = Some s' /\ map_in s' = map_in s.
Proof.
  destruct t as [d f|d1 d2|d1 d2 f1 f2]; cbn [apply_transformation];
    unfold split, interchange, tile;
    destruct (schedule c) as [s|] eqn:Hs; try discriminate;
    repeat match goal with
    | |- (if ?b then _ else _) = _ -> _ => destruct b; [discriminate|]
    end;
    intros H; destruct (transform_schedule_keeps_domain _ _ _ _ H) as (Hi & s' & Hs' & Hin);
    (split; [exact Hi|]); exists s, s'; auto.
Qed.

Lemma apply_transformations_keep_domain (ts : list transformation_t)
  (c c' : computation) :
  schedule_domain_is_iteration_set c ->
  apply_transformations ts c = Ok c' ->
  schedule_domain_is_iteration_set c' /\ iter_space c' = iter_space c.
Proof.
  revert c. induction ts as [|t ts IH]; intros c Hinv Hrun.
  - cbn in Hrun. injection Hrun as <-. auto.
  - cbn [apply_transformations] in Hrun.
    destruct (apply_transformation t c) as [[[] c1]|] eqn:Ht;
      cbn [mbind result_bind] in Hrun; [|discriminate].
    destruct (apply_transformation_keeps_domain _ _ _ Ht)
      as (Hi & s & s1 & Hs & Hs1 & Hin).
    assert (Hinv1 : schedule_domain_is_iteration_set c1).
    { destruct Hinv as (n & Hn & Hd). exists n. rewrite Hi. split; [exact Hn|].
      rewrite Hs in Hd. rewrite Hs1. cbn in *. rewrite Hin. exact Hd. }
    destruct (IH c1 Hinv1 Hrun) as (Hinv' & Hi').
    split; [exact Hinv'|]. rewrite Hi'. exact Hi.
Qed.

End Computation.

Section Constructor.

Context {Expr Stmt isl_ast_expr isl_ast_node : Type}.
Abbreviation world := (@world Expr Stmt isl_ast_expr isl_ast_node).

Variable isl_set_read_from_str : string -> option isl_set.
Variable isl_set_to_str : isl_set -> string.
Variable isl_map_read_from_str : string -> option isl_map.

(** The object the constructor leaves: its iteration set is what the
    library read from the text, its name the tuple name of that set, and
    its schedule a relation that went through [set_schedule]. *)
Lemma computation_new_object (expr : Expr) (iteration_space_str : string)
  (fct : option nat) (w w' : world) (this : nat) :
  computation_new isl_set_read_from_str isl_set_to_str isl_map_read_from_str
    expr iteration_space_str fct w = Ok (this, w') ->
  exists c,
    computation_objects w' !! this = Some c
    /\ iter_space c = isl_set_read_from_str iteration_space_str
    /\ isl_space_get_tuple_name (isl_set_get_space (iter_space c)) isl_dim_set
       = Some (name c)
    /\ exists n, isl_map_get_tuple_name (schedule c) isl_dim_in = Some n
                 /\ isl_map_get_tuple_name (schedule c) isl_dim_out = Some n.
Proof.
  unfold computation_new. intros H.
  bind_ok H. bind_ok H. bind_ok H. bind_ok H. bind_ok H.
  destruct (isl_space_get_tuple_name
              (isl_set_get_space (isl_set_read_from_str iteration_space_str))
              isl_dim_set) as [nm|] eqn:Hname; [|discriminate].
  match type of H with
  | (?m ≫= _) = _ => destruct m as [[[] c]|] eqn:Hid; cbn [mbind result_bind] in H;
                      [|discriminate]
  end.
  injection H as <- <-.
  exists c. cbn [computation_objects]. rewrite lookup_insert_eq.
  split; [reflexivity|].
  unfold set_identity_schedule, get_iteration_space_representation, set_text in Hid.
  cbn [iter_space] in Hid.
  destruct (isl_set_read_from_str iteration_space_str) as [it|] eqn:Hread;
    cbn [mbind result_bind assert bool_decide decide_rel is_Some_dec iter_space] in Hid;
    [|discriminate].
  bind_ok Hid. unfold set_schedule_str in Hid.
  apply set_schedule_accepts in Hid as (-> & n & Hin & Hout).
  cbn [iter_space name set_schedule_field] in *.
  split; [reflexivity|]. split; [exact Hname|]. exists n. auto.
Qed.

Abbreviation computation := (@computation Expr Stmt isl_ast_expr).

(** The schedule the constructor installs, where the library reads back
    the tuple it printed: it starts from the tuple of the iteration set. *)
Lemma computation_new_schedule (expr : Expr) (iteration_space_str : string)
  (fct : option nat) (w w' : world) (this : nat) (it : isl_set) :
  computation_new isl_set_read_from_str isl_set_to_str isl_map_read_from_str
    expr iteration_space_str fct w = Ok (this, w') ->
  isl_set_read_from_str iteration_space_str = Some it ->
  reads_back_printed_tuple isl_set_to_str isl_map_read_from_str it ->
  exists (c : computation) (s : isl_map) (n : string),
    computation_objects w' !! this = Some c
    /\ iter_space c = Some it
    /\ tuple_name (set_tuple it) = Some n
    /\ name c = n
    /\ schedule c = Some s
    /\ map_in s = set_tuple it
    /\ tuple_name (map_out s) = Some n.
Proof.
  unfold computation_new. intros H Hread (Hsize & Hback).
  bind_ok H. bind_ok H. bind_ok H. bind_ok H. bind_ok H.
  rewrite Hread in H.
  cbn [isl_set_get_space isl_space_get_tuple_name mbind option_bind isl_dim_set] in H.
  destruct (tuple_name (set_tuple it)) as [nm|] eqn:Hname; [|discriminate].
  match type of H with
  | (?m ≫= _) = _ => destruct m as [[[] c]|] eqn:Hid; cbn [mbind result_bind] in H;
                      [|discriminate]
  end.
  injection H as <- <-.
  unfold set_identity_schedule, get_iteration_space_representation, set_text in Hid.
  cbn [iter_space mbind result_bind assert bool_decide decide_rel is_Some_dec] in Hid.
  assert (Hm : exists rest m,
             (forall r, isl_map_read_from_str rest = Some r -> map_in r = set_tuple it)
             /\ set_schedule (isl_map_read_from_str rest)
                  {| ctx := lib_ctx a3; time_processor_space := None;
                     iter_space := Some it; schedule := None; function := fct;
                     name := nm; expression := expr; stmt := None;
                     access := None; index_expr := None |} = Ok (tt, c)
             /\ m = isl_map_read_from_str rest).
  { destruct Hback as [(pre & tuple & cons & Hshape & Hp & Ht & Hc & Hrt)
                      |(nm0 & dims & rest0 & Hshape & Hn & Hd & Hr & Hrt)].
    - rewrite Hshape in Hid, Hsize.
      rewrite (identity_schedule_text_constrained pre tuple cons Hp Ht Hc Hsize) in Hid.
      cbn [mbind result_bind] in Hid. unfold set_schedule_str in Hid.
      eexists _, _. split; [|split; [exact Hid|reflexivity]].
      intros r Hr. apply (Hrt _ _ Hr).
    - rewrite Hshape in Hid, Hsize.
      rewrite (identity_schedule_text_unconstrained nm0 dims rest0 Hn Hd Hr Hsize) in Hid.
      cbn [mbind result_bind] in Hid. unfold set_schedule_str in Hid.
      eexists _, _. split; [|split; [exact Hid|reflexivity]].
      intros r Hr'. apply (Hrt ((nm0 ++ "[" ++ dims ++ "]" ++ rest0) ++ rest0 ++ "}")).
      rewrite <- Hr'. reflexivity. }
  destruct Hm as (rest & m & Hin & Hset & ->).
  destruct (set_schedule_accepts _ _ _ Hset) as (-> & n & Hn_in & Hn_out).
  cbn [schedule set_schedule_field] in Hn_in, Hn_out.
  destruct (isl_map_read_from_str rest) as [r|] eqn:Hr; [|discriminate].
  cbn [isl_map_get_tuple_name mbind option_bind] in Hn_in, Hn_out.
  specialize (Hin r eq_refl).
  exists (set_schedule_field (Some r)
            {| ctx := lib_ctx a3; time_processor_space := None;
               iter_space := Some it; schedule := None; function := fct;
               name := nm; expression := expr; stmt := None;
               access := None; index_expr := None |}), r, nm.
  cbn [computation_objects]. rewrite lookup_insert_eq.
  split; [reflexivity|]. split; [reflexivity|]. split; [reflexivity|].
  split; [reflexivity|]. split; [reflexivity|]. split; [exact Hin|].
  rewrite Hn_out, <- Hn_in, Hin. exact Hname.
Qed.

(** What [set_schedule] does with the two tuple names of the relation. *)
Lemma set_schedule_cases (c : computation) (m : option isl_map) :
  (forall a b,
      isl_map_get_tuple_name m isl_dim_in = Some a ->
      isl_map_get_tuple_name m isl_dim_out = Some b ->
      (a <> b -> set_schedule m c = Err (AssertionFailed names_message))
      /\ (a = b -> set_schedule m c = Ok (tt, set_schedule_field m c)))
  /\ (isl_map_get_tuple_name m isl_dim_in = None
      \/ isl_map_get_tuple_name m isl_dim_out = None ->
      set_schedule m c = Err NullPointer).
Proof.
  split.
  - intros a b Ha Hb. unfold set_schedule. rewrite Ha, Hb. unfold strcmp_eq. split.
    + intros Hab. apply String.eqb_neq in Hab. rewrite Hab. reflexivity.
    + intros ->. rewrite String.eqb_refl. reflexivity.
  - intros [Hn|Hn]; unfold set_schedule; rewrite Hn; [reflexivity|].
    destruct (isl_map_get_tuple_name m isl_dim_in); reflexivity.
Qed.

(** C1, as the code has it.  The constructor names the computation after
    the tuple of the iteration set it read and, where the library reads
    back the tuple it printed, installs a schedule whose domain and range
    both carry that name: the domain of the schedule is named as the
    iteration set.  That still holds of the object after any sequence of
    split, interchange and tile that returns, and the iteration set is the
    same.  [set_schedule] itself compares the two names of the relation it
    is given with each other, not with the name of the iteration set: it
    fails its assertion where they differ, installs the relation as it is
    where they are equal, and ends in a NULL dereference where one of the
    two tuples has no name (or the relation is NULL). *)
Theorem schedule_tuple_names
  (expr : Expr) (iteration_space_str : string) (fct : option nat) (w w' : world)
  (this : nat) (it : isl_set) :
  computation_new isl_set_read_from_str isl_set_to_str isl_map_read_from_str
    expr iteration_space_str fct w = Ok (this, w') ->
  isl_set_read_from_str iteration_space_str = Some it ->
  reads_back_printed_tuple isl_set_to_str isl_map_read_from_str it ->
  (exists (c : computation) (s : isl_map) (n : string),
      computation_objects w' !! this = Some c
      /\ iter_space c = Some it
      /\ isl_space_get_tuple_name (isl_set_get_space (iter_space c)) isl_dim_set = Some n
      /\ name c = n
      /\ schedule c = Some s
      /\ isl_map_get_tuple_name (schedule c) isl_dim_in = Some n
      /\ isl_map_get_tuple_name (schedule c) isl_dim_out = Some n
      /\ schedule_domain_is_iteration_set c
      /\ forall (ts : list transformation_t) (c2 : computation),
           apply_transformations ts c = Ok c2 ->
           schedule_domain_is_iteration_set c2 /\ iter_space c2 = iter_space c)
  /\ (forall (c : computation) (m : option isl_map),
        (forall a b,
            isl_map_get_tuple_name m isl_dim_in = Some a ->
            isl_map_get_tuple_name m isl_dim_out = Some b ->
            (a <> b -> set_schedule m c = Err (AssertionFailed names_message))
            /\ (a = b -> set_schedule m c = Ok (tt, set_schedule_field m c)))
        /\ (isl_map_get_tuple_name m isl_dim_in = None
            \/ isl_map_get_tuple_name m isl_dim_out = None ->
            set_schedule m c = Err NullPointer)).
Proof.
  intros Hnew Hread Hback. split; [|intros c m; apply set_schedule_cases].
  destruct (computation_new_schedule _ _ _ _ _ _ _ Hnew Hread Hback)
    as (c & s & n & Hc & Hit & Hn & Hname & Hs & Hin & Hout).
  assert (Hinv : schedule_domain_is_iteration_set c).
  { exists n. rewrite Hit, Hs. cbn. rewrite Hin. auto. }
  exists c, s, n. split; [exact Hc|]. split; [exact Hit|].
  split; [rewrite Hit; exact Hn|]. split; [exact Hname|]. split; [exact Hs|].
  split; [rewrite Hs; cbn; rewrite Hin; exact Hn|].
  split; [rewrite Hs; exact Hout|]. split; [exact Hinv|].
  intros ts c2 Hrun. apply (apply_transformations_keep_domain ts c c2 Hinv Hrun).
Qed.

End Constructor.

Section Library.

Context {Expr Stmt isl_ast_expr isl_ast_node : Type}.
Abbreviation world := (@world Expr Stmt isl_ast_expr isl_ast_node).
Abbreviation library := (@library isl_ast_node).

Variable isl_ast_build_node_from_schedule_map :
  gmap nat isl_ctx -> option isl_ast_build -> option isl_union_map -> option isl_ast_node.
Variable library_get_time_processor_representation :
  world -> nat -> option isl_union_set.
Variable library_get_time_processor_identity_relation :
  world -> nat -> option isl_union_map.

(** C6.  On a library with a context, whose time-processor representation
    and identity relation are both there, [gen_isl_ast] returns; it has set
    the atomic-upper-bound option of the context to 1, and the AST it
    stores in the library is the one the generator builds, under those
    options, from the identity relation intersected on its domain with the
    time-processor representation, with a build on which
    [for_code_generator_after_for] is installed after each for and
    [stmt_code_generator] at each domain.  Nothing else changes. *)
Theorem gen_isl_ast_builds_from_identity_relation
  (this cx : nat) (w : world) (l : library) :
  libraries w !! this = Some l ->
  lib_ctx l = Some cx ->
  is_Some (library_get_time_processor_representation w this) ->
  is_Some (library_get_time_processor_identity_relation w this) ->
  let w1 := isl_options_set_ast_build_atomic_upper_bound (Some cx) 1 w in
  let build := {| build_ctx := cx;
                  after_each_for := Some (for_code_generator_after_for, None);
                  at_each_domain := Some (stmt_code_generator, None) |} in
  let sched := isl_union_map_intersect_domain
                 (library_get_time_processor_identity_relation w1 this)
                 (library_get_time_processor_representation w1 this) in
  exists w',
    gen_isl_ast isl_ast_build_node_from_schedule_map
      library_get_time_processor_representation
      library_get_time_processor_identity_relation this w = Ok (tt, w')
    /\ libraries w' !! this
       = Some (set_ast_field
                 (isl_ast_build_node_from_schedule_map (contexts w1) (Some build) sched) l)
    /\ (forall other, other <> this -> libraries w' !! other = libraries w !! other)
    /\ contexts w' = contexts w1
    /\ (forall c0, contexts w !! cx = Some c0 ->
                   ast_build_atomic_upper_bound <$> contexts w' !! cx = Some 1)
    /\ function_objects w' = function_objects w
    /\ computation_objects w' = computation_objects w
    /\ computations_list w' = computations_list w.
Proof.
  intros Hl Hcx Htp Hid w1 build sched.
  unfold gen_isl_ast, deref, get_ctx. rewrite Hl. cbn [mbind result_bind].
  rewrite (bool_decide_eq_true_2 _ Htp), (bool_decide_eq_true_2 _ Hid).
  cbn [assert mbind result_bind]. rewrite Hcx.
  eexists. split; [reflexivity|]. cbn [libraries contexts function_objects
    computation_objects computations_list].
  split; [apply lookup_insert_eq|].
  split; [intros other Hne; apply lookup_insert_ne; congruence|].
  split; [reflexivity|].
  split; [|auto].
  intros c0 Hc0. cbn [contexts isl_options_set_ast_build_atomic_upper_bound].
  rewrite lookup_alter_eq, Hc0. reflexivity.
Qed.

(** C10.  Whatever the tag maps hold, [parallelize] answers true for at
    most one level of a computation, and so does [vectorize]: a map binds
    a name to one level, and the answer compares the level asked for with
    it.  Tagging a computation again binds its name to the new level:
    after it, the answer is true for that level and no other. *)
Theorem tags_single_level (l : library) (comp : string) :
  (forall lev1 lev2,
      parallelize comp lev1 l = Ok (true, l) ->
      parallelize comp lev2 l = Ok (true, l) -> lev1 = lev2)
  /\ (forall lev1 lev2,
        vectorize comp lev1 l = Ok (true, l) ->
        vectorize comp lev2 l = Ok (true, l) -> lev1 = lev2)
  /\ (forall dim lev l',
        add_parallel_dimension comp dim l = Ok (tt, l') ->
        0 < size comp -> 0 <= lev ->
        parallelize comp lev l' = Ok (dim =? lev, l')
        /\ vector_dimensions l' = vector_dimensions l)
  /\ (forall dim lev l',
        add_vector_dimension comp dim l = Ok (tt, l') ->
        0 < size comp -> 0 <= lev ->
        vectorize comp lev l' = Ok (dim =? lev, l')
        /\ parallel_dimensions l' = parallel_dimensions l).
Proof.
  assert (Hone : forall (m : gmap string Z) lev1 lev2,
            (_ ← assert (0 <? size comp) "comp.length() > 0";
             _ ← assert (0 <=? lev1) "lev >= 0";
             match m !! comp with
             | None => Ok (false, l)
             | Some second => Ok (second =? lev1, l)
             end) = Ok (true, l) ->
            (_ ← assert (0 <? size comp) "comp.length() > 0";
             _ ← assert (0 <=? lev2) "lev >= 0";
             match m !! comp with
             | None => Ok (false, l)
             | Some second => Ok (second =? lev2, l)
             end) = Ok (true, l) ->
            lev1 = lev2).
  { intros m lev1 lev2 H1 H2.
    destruct (0 <? size comp); [|discriminate].
    destruct (0 <=? lev1); [|discriminate].
    destruct (0 <=? lev2); [|discriminate].
    cbn in H1, H2. destruct (m !! comp) as [second|]; [|discriminate].
    injection H1 as H1. injection H2 as H2.
    apply Z.eqb_eq in H1, H2. congruence. }
  split; [intros lev1 lev2; apply Hone|].
  split; [intros lev1 lev2; apply Hone|].
  split.
  - intros dim lev l' [= <-] Hc Hlev. split; [|reflexivity].
    unfold parallelize. cbn [parallel_dimensions].
    apply Z.ltb_lt in Hc. apply Z.leb_le in Hlev. rewrite Hc, Hlev.
    cbn [assert mbind result_bind]. rewrite lookup_insert_eq. reflexivity.
  - intros dim lev l' [= <-] Hc Hlev. split; [|reflexivity].
    unfold vectorize. cbn [vector_dimensions].
    apply Z.ltb_lt in Hc. apply Z.leb_le in Hlev. rewrite Hc, Hlev.
    cbn [assert mbind result_bind]. rewrite lookup_insert_eq. reflexivity.
Qed.

End Library.

End CoreFacts.

(** ** Facts about the state generator *)

Module AutoSchedulerFacts.
Import AutoScheduler.

(** Induction on a node, with the property at hand for all its children. *)
Fixpoint ast_node_children_ind (P : ast_node -> Prop)
  (step : forall nm lo hi u d cs ch,
      Forall P ch -> P (mk_ast_node nm lo hi u d cs ch))
  (n : ast_node) {struct n} : P n :=
  match n with
  | mk_ast_node nm lo hi u d cs ch =>
      step nm lo hi u d cs ch
        ((fix all (l : list ast_node) : Forall P l :=
            match l with
            | [] => @List.Forall_nil _ P
            | x :: r => @List.Forall_cons _ P x r (ast_node_children_ind P step x) (all r)
            end) ch)
  end.

Section Folds.

Context {A B : Type}.

(** A loop that only pushes at the back of the vector. *)
Lemma fold_left_push (F : list B -> A -> list B) (h : A -> list B) (xs : list A) :
  Forall (fun x => forall st, F st x = (st ++ h x)%list) xs ->
  forall st, fold_left F xs st = (st ++ (xs ≫= h))%list.
Proof.
  induction 1 as [|x xs Hx _ IH]; intros st; cbn [fold_left].
  - cbn. rewrite app_nil_r. reflexivity.
  - rewrite Hx, IH, bind_cons, app_assoc. reflexivity.
Qed.

Lemma fold_left_push_all (F : list B -> A -> list B) (h : A -> list B) (xs : list A) :
  (forall st x, F st x = (st ++ h x)%list) ->
  forall st, fold_left F xs st = (st ++ (xs ≫= h))%list.
Proof.
  intros HF. apply fold_left_push. apply Forall_forall. intros x _ st. apply HF.
Qed.

Lemma bind_nothing (xs : list A) : xs ≫= (fun _ => @nil B) = [].
Proof. induction xs as [|x xs IH]; [reflexivity|]. rewrite bind_cons, IH. reflexivity. Qed.

Lemma bind_bind {C : Type} (f : A -> list B) (g : B -> list C) (xs : list A) :
  (xs ≫= f) ≫= g = xs ≫= fun x => f x ≫= g.
Proof.
  induction xs as [|x xs IH]; [reflexivity|].
  rewrite !bind_cons, bind_app, IH. reflexivity.
Qed.

Lemma bind_pointwise (f g : A -> list B) (xs : list A) :
  (forall x, f x = g x) -> xs ≫= f = xs ≫= g.
Proof.
  intros Hfg. induction xs as [|x xs IH]; [reflexivity|].
  rewrite !bind_cons, Hfg, IH. reflexivity.
Qed.

End Folds.

(** Filtering the pairs and mapping them is one pass over the two loops. *)
Lemma omap_filter_pairs {B : Type} (P : nat * nat -> bool) (g : nat * nat -> option B)
  (J : nat -> list nat) (I : list nat) :
  omap g (filter (fun ij => P ij = true) (I ≫= fun i => pair i <$> J i))
  = I ≫= fun i => J i ≫= fun j => if P (i, j) then option_list (g (i, j)) else [].
Proof.
  induction I as [|i I IH]; [reflexivity|].
  rewrite !bind_cons, filter_app, omap_app, IH. f_equal.
  induction (J i) as [|j js IHj]; [reflexivity|].
  rewrite fmap_cons, filter_cons, bind_cons.
  destruct (decide (P (i, j) = true)) as [Hp|Hp].
  - rewrite Hp, <- IHj. cbn. destruct (g (i, j)); reflexivity.
  - apply not_true_is_false in Hp. rewrite Hp, IHj. reflexivity.
Qed.

Section Generator.

Variable get_loop_levels_chain_depth : ast_node -> Z.
Variable get_rightmost_computation : ast_node -> option nat.
Variable get_leftmost_computation : ast_node -> option nat.
Variable get_all_computations : ast_node -> list (option nat) -> list (option nat).

Abbreviation fusion_candidate :=
  (fusion_candidate get_rightmost_computation get_leftmost_computation).
Abbreviation generate_fusions_level :=
  (generate_fusions_level get_rightmost_computation get_leftmost_computation).
Abbreviation generate_fusions_children :=
  (generate_fusions_children get_rightmost_computation get_leftmost_computation).
Abbreviation generate_fusions :=
  (generate_fusions get_rightmost_computation get_leftmost_computation).
Abbreviation level_fusions :=
  (level_fusions get_rightmost_computation get_leftmost_computation).
Abbreviation fusion_candidate_at :=
  (fusion_candidate_at get_rightmost_computation get_leftmost_computation).
Abbreviation fusion_of :=
  (fusion_of get_rightmost_computation get_leftmost_computation).

(** The two loops of [generate_fusions] push the candidates of the level. *)
Lemma generate_fusions_level_pushes (ast : syntax_tree) (tree_level : list ast_node)
  (states : list syntax_tree) :
  generate_fusions_level ast tree_level states
  = (states ++ level_fusions ast tree_level)%list.
Proof.
  unfold AutoScheduler.generate_fusions_level, AutoScheduler.level_fusions, fusable_pairs,
    sibling_pairs.
  rewrite omap_filter_pairs.
  apply fold_left_push_all. intros st i.
  destruct (tree_level !! i) as [node_i|] eqn:Hi.
  - destruct (unrolled node_i) eqn:Hu.
    + rewrite (bind_pointwise _ (fun _ => [])), bind_nothing, app_nil_r; [reflexivity|].
      intros j. unfold fusable. cbn. rewrite Hi, Hu.
      destruct (tree_level !! j); reflexivity.
    + unfold generate_fusions_j. apply fold_left_push_all. intros st' j.
      unfold fusable, AutoScheduler.fusion_candidate_at. cbn. rewrite Hi, Hu.
      destruct (tree_level !! j) as [node_j|]; [|rewrite app_nil_r; reflexivity].
      destruct (unrolled node_j); cbn; [rewrite app_nil_r; reflexivity|].
      destruct (same_loop node_i node_j); [reflexivity|rewrite app_nil_r; reflexivity].
  - rewrite (bind_pointwise _ (fun _ => [])), bind_nothing, app_nil_r; [reflexivity|].
    intros j. unfold fusable. cbn. rewrite Hi. reflexivity.
Qed.

Lemma levels_below (ast : syntax_tree) (ch : list ast_node) :
  (children <$> (ch ≫= nodes_of)) ≫= level_fusions ast
  = ch ≫= fun c => (children <$> nodes_of c) ≫= level_fusions ast.
Proof.
  rewrite list_fmap_bind, bind_bind. apply bind_pointwise. intros c.
  rewrite list_fmap_bind. reflexivity.
Qed.

(** The recursive calls push the candidates of every level below. *)
Lemma generate_fusions_children_pushes (ast : syntax_tree) (node_ : ast_node) :
  forall states,
    generate_fusions_children ast node_ states
    = (states ++ ((children <$> nodes_of node_) ≫= level_fusions ast))%list.
Proof.
  induction node_ as [nm lo hi u d cs ch IH] using ast_node_children_ind.
  intros states. cbn [AutoScheduler.generate_fusions_children].
  rewrite (fold_left_push _ (fun c => (children <$> nodes_of c) ≫= level_fusions ast) ch IH).
  rewrite generate_fusions_level_pushes.
  cbn [nodes_of]. rewrite fmap_cons, bind_cons, levels_below, app_assoc. reflexivity.
Qed.

Lemma generate_fusions_pushes (ast : syntax_tree) (tree_level : list ast_node)
  (states : list syntax_tree) :
  generate_fusions tree_level states ast
  = (states ++ (tree_levels tree_level ≫= level_fusions ast))%list.
Proof.
  unfold AutoScheduler.generate_fusions.
  rewrite (fold_left_push_all _ (fun c => (children <$> nodes_of c) ≫= level_fusions ast)).
  2:{ intros st x. apply generate_fusions_children_pushes. }
  rewrite generate_fusions_level_pushes.
  unfold tree_levels. rewrite bind_cons, levels_below, app_assoc. reflexivity.
Qed.

(** *** The pairs of a level *)

Lemma elem_of_sibling_pairs (n i j : nat) :
  (i, j) ∈ sibling_pairs n <-> (i < j < n)%nat.
Proof.
  unfold sibling_pairs. rewrite list_elem_of_bind. split.
  - intros (i' & Hj & Hi). apply list_elem_of_fmap in Hj as (j' & [= -> ->] & Hj).
    apply elem_of_seq in Hj. apply elem_of_seq in Hi. lia.
  - intros Hij. exists i. split.
    + apply list_elem_of_fmap. exists j. split; [reflexivity|]. apply elem_of_seq. lia.
    + apply elem_of_seq. lia.
Qed.

Lemma NoDup_sibling_pairs (n : nat) : NoDup (sibling_pairs n).
Proof.
  unfold sibling_pairs. apply NoDup_bind.
  - intros i1 i2 [i j] _ _ H1 H2.
    apply list_elem_of_fmap in H1 as (? & [= -> ->] & _).
    apply list_elem_of_fmap in H2 as (? & [= -> ->] & _). reflexivity.
  - intros i _. apply NoDup_fmap_2; [|apply NoDup_seq].
    intros ? ? [= ->]. reflexivity.
  - apply NoDup_seq.
Qed.

Lemma same_loop_spec (a b : ast_node) :
  same_loop a b = true
  <-> name a = name b /\ low_bound a = low_bound b /\ up_bound a = up_bound b.
Proof.
  unfold same_loop. rewrite !andb_true_iff, String.eqb_eq, !Z.eqb_eq. tauto.
Qed.

Lemma elem_of_fusable_pairs (tree_level : list ast_node) (i j : nat) :
  (i, j) ∈ fusable_pairs tree_level
  <-> (i < j)%nat
      /\ exists a b,
           tree_level !! i = Some a /\ tree_level !! j = Some b
           /\ unrolled a = false /\ unrolled b = false
           /\ name a = name b /\ low_bound a = low_bound b /\ up_bound a = up_bound b.
Proof.
  unfold fusable_pairs. rewrite list_elem_of_filter, elem_of_sibling_pairs.
  unfold fusable. cbn [fst snd]. split.
  - intros (Hf & Hij).
    destruct (tree_level !! i) as [a|]; [|discriminate].
    destruct (tree_level !! j) as [b|]; [|discriminate].
    rewrite !andb_true_iff, !negb_true_iff, same_loop_spec in Hf.
    split; [lia|]. exists a, b. tauto.
  - intros (Hij & a & b & Ha & Hb & Hua & Hub & Hsame).
    rewrite Ha, Hb, Hua, Hub. cbn [negb andb]. split.
    + apply same_loop_spec. exact Hsame.
    + split; [lia|]. apply lookup_lt_Some in Hb. exact Hb.
Qed.

Lemma NoDup_fusable_pairs (tree_level : list ast_node) : NoDup (fusable_pairs tree_level).
Proof. apply NoDup_filter, NoDup_sibling_pairs. Qed.

(** The candidates of a level stand one to one, in order, for its fusable
    pairs. *)
Lemma level_fusions_one_per_pair (ast : syntax_tree) (tree_level : list ast_node) :
  Forall2 (fusion_of ast tree_level) (fusable_pairs tree_level)
    (level_fusions ast tree_level).
Proof.
  unfold AutoScheduler.level_fusions.
  assert (H : Forall (fun ij => fusable tree_level ij = true) (fusable_pairs tree_level)).
  { apply Forall_forall. intros ij Hij.
    unfold fusable_pairs in Hij. apply list_elem_of_filter in Hij. tauto. }
  induction H as [|[i j] l Hf _ IH]; [constructor|].
  unfold fusable in Hf. cbn [fst snd] in Hf. cbn [omap list_omap].
  unfold AutoScheduler.fusion_candidate_at at 1. cbn [fst snd].
  destruct (tree_level !! i) as [a|] eqn:Ha; [|discriminate].
  destruct (tree_level !! j) as [b|] eqn:Hb; [|discriminate].
  constructor; [|exact IH].
  eexists a, b, _. cbn [fst snd].
  repeat (split; [first [eassumption | reflexivity]|]); reflexivity.
Qed.

(** C8.  [generate_fusions] pushes, behind the states it was given, the
    fusion candidates of every level of the tree (the given level, then the
    children of every node), level after level; the candidates of a level
    stand one to one for its pairs of positions [i < j] whose two nodes have
    the same iterator name, lower bound and upper bound and are both not
    unrolled, no pair being listed twice; and each candidate is a clone of
    the tree that carries one optimization record, of type FUSION, naming
    the pair. *)
Theorem generate_fusions_one_candidate_per_pair
  (ast : syntax_tree) (tree_level : list ast_node) (states : list syntax_tree) :
  generate_fusions tree_level states ast
  = (states ++ (tree_levels tree_level ≫= level_fusions ast))%list
  /\ forall level : list ast_node,
       NoDup (fusable_pairs level)
       /\ (forall i j,
             (i, j) ∈ fusable_pairs level
             <-> (i < j)%nat
                 /\ exists a b,
                      level !! i = Some a /\ level !! j = Some b
                      /\ unrolled a = false /\ unrolled b = false
                      /\ name a = name b /\ low_bound a = low_bound b
                      /\ up_bound a = up_bound b)
       /\ Forall2 (fusion_of ast level) (fusable_pairs level) (level_fusions ast level).
Proof.
  split; [apply generate_fusions_pushes|].
  intros level. split; [apply NoDup_fusable_pairs|].
  split; [intros i j; apply elem_of_fusable_pairs|].
  apply level_fusions_one_per_pair.
Qed.

(** *** The interchange pass *)

Abbreviation interchange_candidate := (interchange_candidate get_all_computations).
Abbreviation generate_interchanges_node :=
  (generate_interchanges_node get_loop_levels_chain_depth get_all_computations).
Abbreviation generate_interchanges :=
  (generate_interchanges get_loop_levels_chain_depth get_all_computations).
Abbreviation chain_depths := (chain_depths get_loop_levels_chain_depth).
Abbreviation node_interchanges :=
  (node_interchanges get_loop_levels_chain_depth get_all_computations).
Abbreviation interchange_of := (interchange_of get_all_computations).

Lemma generate_interchanges_node_pushes (ast : syntax_tree) (node_ : ast_node)
  (states : list syntax_tree) :
  generate_interchanges_node ast node_ states
  = (states ++ node_interchanges ast node_)%list.
Proof.
  unfold AutoScheduler.generate_interchanges_node, AutoScheduler.node_interchanges.
  destruct (unrolled node_); cbn [negb]; [rewrite app_nil_r; reflexivity|].
  rewrite (fold_left_push_all _ (fun i => [interchange_candidate ast node_ i]));
    [|intros; reflexivity].
  reflexivity.
Qed.

Lemma generate_interchanges_pushes (ast : syntax_tree) (node_ : ast_node) :
  forall states,
    generate_interchanges node_ states ast
    = (states ++ (nodes_of node_ ≫= node_interchanges ast))%list.
Proof.
  induction node_ as [nm lo hi u d cs ch IH] using ast_node_children_ind.
  intros states. cbn [AutoScheduler.generate_interchanges].
  rewrite (fold_left_push _ (fun c => nodes_of c ≫= node_interchanges ast) ch IH).
  rewrite generate_interchanges_node_pushes.
  cbn [nodes_of]. rewrite bind_cons, bind_bind, app_assoc. reflexivity.
Qed.

Lemma elem_of_chain_depths (node_ : ast_node) (i : Z) :
  i ∈ chain_depths node_ <-> depth node_ < i < get_loop_levels_chain_depth node_.
Proof. unfold AutoScheduler.chain_depths. rewrite elem_of_seqZ. lia. Qed.

Lemma node_interchanges_one_per_depth (ast : syntax_tree) (node_ : ast_node) :
  unrolled node_ = false ->
  Forall2 (interchange_of ast node_) (chain_depths node_) (node_interchanges ast node_).
Proof.
  intros Hu. unfold AutoScheduler.node_interchanges. rewrite Hu.
  induction (chain_depths node_) as [|i l IH]; [constructor|].
  rewrite fmap_cons. constructor; [|exact IH].
  eexists. repeat (split; [reflexivity|]). reflexivity.
Qed.


End Generator.

End AutoSchedulerFacts.

(** ** The theorems at work on the tutorial and on small trees *)

Module TutorialFacts.
Import Cxx Isl Core ScheduleAlgebra ScheduleFacts CoreFacts Tutorial.

(** The constructor of [computation0], run on the program of the tutorial. *)
Lemma computation0_constructed :
  computation_new isl_set_read_from_str isl_set_to_str isl_map_read_from_str
    3 S0_text (Some 0%nat) world0 = Ok (0%nat, world1).
Proof. vm_compute. reflexivity. Qed.

Lemma computation0_tile_returns :
  is_ok (apply_transformations [Tile 0 1 32 32] computation0) = true.
Proof. vm_compute. reflexivity. Qed.

(** The library of the tutorial reads back the tuple of [S0] as it
    printed it. *)
Lemma tutorial_reads_back :
  LibraryText.reads_back_printed_tuple isl_set_to_str isl_map_read_from_str
    S0_iteration_set.
Proof.
  split; [vm_compute; reflexivity|]. left.
  exists "", " S0[i, j] ", " 0 <= i <= 1000 and 0 <= j <= 1000 ".
  split; [reflexivity|]. split; [reflexivity|]. split; [reflexivity|].
  split; [reflexivity|].
  intros rest m Hm. unfold isl_map_read_from_str in Hm.
  destruct (String.eqb _ _); [injection Hm as <-; reflexivity|].
  destruct (String.eqb _ _); [injection Hm as <-; reflexivity|discriminate].
Qed.

Lemma schedule_tuple_names_witness :
  (exists (c : computation) (s : isl_map) (n : string),
      computation_objects world1 !! 0%nat = Some c
      /\ iter_space c = Some S0_iteration_set
      /\ isl_space_get_tuple_name (isl_set_get_space (iter_space c)) isl_dim_set = Some n
      /\ name c = n
      /\ schedule c = Some s
      /\ isl_map_get_tuple_name (schedule c) isl_dim_in = Some n
      /\ isl_map_get_tuple_name (schedule c) isl_dim_out = Some n
      /\ schedule_domain_is_iteration_set c
      /\ forall (ts : list transformation_t) (c2 : computation),
           apply_transformations ts c = Ok c2 ->
           schedule_domain_is_iteration_set c2 /\ iter_space c2 = iter_space c)
  /\ (forall (c : computation) (m : option isl_map),
        (forall a b,
            isl_map_get_tuple_name m isl_dim_in = Some a ->
            isl_map_get_tuple_name m isl_dim_out = Some b ->
            (a <> b -> set_schedule m c = Err (AssertionFailed names_message))
            /\ (a = b -> set_schedule m c = Ok (tt, set_schedule_field m c)))
        /\ (isl_map_get_tuple_name m isl_dim_in = None
            \/ isl_map_get_tuple_name m isl_dim_out = None ->
            set_schedule m c = Err NullPointer)).
Proof.
  apply (schedule_tuple_names isl_set_read_from_str isl_set_to_str isl_map_read_from_str
           3 S0_text (Some 0%nat) world0 world1 0%nat S0_iteration_set).
  - vm_compute. reflexivity.
  - reflexivity.
  - exact tutorial_reads_back.
Defined.

(** The object the constructor left, tiled: the names are as before. *)
Lemma computation0_tiled_names :
  schedule_domain_is_iteration_set computation0_tiled
  /\ iter_space computation0_tiled = iter_space computation0.
Proof.
  split; [|reflexivity]. exists "S0". split; reflexivity.
Qed.

(** [set_schedule] on [computation0] with a relation between tuples named
    [X]: the assertion holds, the relation is installed, and the domain of
    the schedule is named [X] while the iteration set is named [S0]. *)
Lemma set_schedule_installs_foreign_name :
  computation_new isl_set_read_from_str isl_set_to_str isl_map_read_from_str
    3 S0_text (Some 0%nat) world0 = Ok (0%nat, world1)
  /\ computation_objects world1 !! 0%nat = Some computation0
  /\ exists c' : computation,
       set_schedule (Some X_identity) computation0 = Ok (tt, c')
       /\ isl_map_get_tuple_name (schedule c') isl_dim_in = Some "X"
       /\ isl_space_get_tuple_name (isl_set_get_space (iter_space c')) isl_dim_set
          = Some "S0".
Proof.
  split; [exact computation0_constructed|]. split; [reflexivity|].
  eexists. split; [reflexivity|]. split; reflexivity.
Qed.

Lemma tile_equals_split_split_interchange_witness :
  alike same_image (tile 0 1 32 32 computation0)
    (split_split_interchange 0 32 32 computation0)
  /\ forall s,
       schedule computation0 = Some s ->
       (1 < tuple_dim (map_out s))%nat ->
       tuple_name (map_out s) = Some (name computation0) ->
       exists ct, tile 0 1 32 32 computation0 = Ok (tt, ct).
Proof.
  apply (tile_equals_split_split_interchange computation0 0 32 32); reflexivity.
Defined.

Lemma gen_time_processor_IR_applies_schedule_witness :
  exists c' : computation,
    gen_time_processor_IR computation0 = Ok (tt, c')
    /\ c' = set_time_processor_space_field
              (isl_set_apply (Some S0_iteration_set) (Some S0_identity)) computation0
    /\ iter_space c' = Some S0_iteration_set
    /\ schedule c' = Some S0_identity
    /\ (set_tuple S0_iteration_set = map_in S0_identity ->
        exists tp,
          time_processor_space c' = Some tp
          /\ set_tuple tp = map_out S0_identity
          /\ forall y, set_contains tp y
                       <-> exists x, set_contains S0_iteration_set x
                                     /\ map_relates S0_identity x y).
Proof.
  apply (gen_time_processor_IR_applies_schedule computation0 S0_iteration_set S0_identity);
    reflexivity.
Defined.

Lemma computation0_lowering :
  gen_time_processor_IR computation0 = Ok (tt, computation0_lowered).
Proof. reflexivity. Qed.

Lemma get_time_processor_identity_relation_witness :
  exists r,
    get_time_processor_identity_relation computation0_lowered
    = Ok (Some r, computation0_lowered)
    /\ map_in r = set_tuple S0_time_processor
    /\ map_out r = mk_tuple (Some "") (tuple_dim (set_tuple S0_time_processor))
    /\ isl_map_get_tuple_name (Some r) isl_dim_out = Some ""
    /\ forall x y, map_relates r x y
                   <-> length x = tuple_dim (set_tuple S0_time_processor) /\ y = x.
Proof.
  apply (get_time_processor_identity_relation_erases_range_name
           computation0_lowered S0_time_processor).
  reflexivity.
Defined.

Lemma gen_isl_ast_witness :
  exists w' : world,
    gen_isl_ast isl_ast_build_node_from_schedule_map
      library_get_time_processor_representation
      library_get_time_processor_identity_relation 0%nat world2 = Ok (tt, w')
    /\ ast_build_atomic_upper_bound <$> contexts w' !! 0%nat = Some 1
    /\ (l ← libraries w' !! 0%nat; ast l)
       = isl_ast_build_node_from_schedule_map
           {[ 0%nat := mk_ctx 1 ]}
           (Some {| build_ctx := 0%nat;
                    after_each_for := Some (for_code_generator_after_for, None);
                    at_each_domain := Some (stmt_code_generator, None) |})
           (isl_union_map_intersect_domain
              (library_get_time_processor_identity_relation world2 0%nat)
              (library_get_time_processor_representation world2 0%nat)).
Proof.
  destruct (gen_isl_ast_builds_from_identity_relation
              isl_ast_build_node_from_schedule_map
              library_get_time_processor_representation
              library_get_time_processor_identity_relation
              0%nat 0%nat world2 library0)
    as (w' & Hrun & Hast & _ & Hctx & Hopt & _).
  - reflexivity.
  - reflexivity.
  - eexists. reflexivity.
  - eexists. reflexivity.
  - exists w'. split; [exact Hrun|]. split.
    + apply (Hopt (mk_ctx 0)). reflexivity.
    + rewrite Hast. reflexivity.
Defined.

(** Tags: [lib.tag_parallel_dimension("S0", 1)], then a second tag at
    level 0. *)
Lemma retagging_example :
  exists l1 l2,
    add_parallel_dimension "S0" 1 library0 = Ok (tt, l1)
    /\ parallelize "S0" 1 l1 = Ok (true, l1)
    /\ parallelize "S0" 0 l1 = Ok (false, l1)
    /\ add_parallel_dimension "S0" 0 l1 = Ok (tt, l2)
    /\ parallelize "S0" 1 l2 = Ok (false, l2)
    /\ parallelize "S0" 0 l2 = Ok (true, l2).
Proof.
  eexists. eexists. split; [reflexivity|].
  repeat split; vm_compute; reflexivity.
Qed.

End TutorialFacts.

(** ** The generator on small trees *)

Module GeneratorFacts.
Import AutoScheduler AutoSchedulerFacts GeneratorTrees.


(** The same nest, not unrolled: one candidate, swapping depths 0 and 1. *)
Lemma generate_interchanges_plain_nest :
  generate_interchanges get_loop_levels_chain_depth_model get_all_computations_model
    plain_nest [] plain_tree
  = [ {| roots := [plain_nest];
         optims_info :=
           [ {| type := INTERCHANGE; node := Some plain_nest; nb_l := Some 2;
                l0 := Some 0; l1 := Some 1; l2 := None;
                l0_fact := None; l1_fact := None; l2_fact := None;
                comps := [Some 7%nat] |} ] |} ].
Proof. vm_compute. reflexivity. Qed.

(** Of the six pairs of the four siblings, one is fusable. *)
Lemma generate_fusions_siblings :
  fusable_pairs siblings = [(0%nat, 1%nat)]
  /\ (fun s => (l0 <$> optims_info s, l1 <$> optims_info s, roots s))
       <$> generate_fusions get_rightmost_computation_model get_leftmost_computation_model
             siblings [] siblings_tree
     = [([Some 0], [Some 1], siblings)].
Proof. split; vm_compute; reflexivity. Qed.

End GeneratorFacts.

(** ** Loops that may end the call *)

Module LoopsFacts.
Import Loops.

Section ForEach.

Context {A S : Type}.

Lemma for_each_nil (body : S -> A -> result S) (s : S) : for_each [] body s = Ok s.
Proof. reflexivity. Qed.

Lemma for_each_cons (body : S -> A -> result S) (x : A) (xs : list A) (s : S) :
  for_each (x :: xs) body s
  = match body s x with Ok s' => for_each xs body s' | Err e => Err e end.
Proof. reflexivity. Qed.

(** A loop whose body never fails is a fold. *)
Lemma for_each_fold (body : S -> A -> result S) (F : S -> A -> S) (xs : list A) :
  Forall (fun x => forall s, body s x = Ok (F s x)) xs ->
  forall s, for_each xs body s = Ok (fold_left F xs s).
Proof.
  induction 1 as [|x xs Hx _ IH]; intros s; [reflexivity|].
  rewrite for_each_cons, Hx. apply IH.
Qed.

End ForEach.

(** A loop that only pushes at the back of the vector, and never fails. *)
Lemma for_each_push {A B : Type} (body : list B -> A -> result (list B))
  (h : A -> list B) (xs : list A) :
  Forall (fun x => forall st, body st x = Ok (st ++ h x)%list) xs ->
  forall st, for_each xs body st = Ok (st ++ (xs ≫= h))%list.
Proof.
  induction 1 as [|x xs Hx _ IH]; intros st.
  - cbn. rewrite app_nil_r. reflexivity.
  - rewrite for_each_cons, Hx, IH, bind_cons, app_assoc. reflexivity.
Qed.

(** A loop that skips the elements a test refuses. *)
Lemma bind_filter {A B : Type} (P : A -> Prop) `{!forall x, Decision (P x)}
  (h : A -> list B) (xs : list A) :
  xs ≫= (fun x => if decide (P x) then h x else []) = filter P xs ≫= h.
Proof.
  induction xs as [|x xs IH]; [reflexivity|].
  rewrite bind_cons, filter_cons, IH.
  destruct (decide (P x)); [rewrite bind_cons|]; reflexivity.
Qed.

Lemma bind_singleton {A B : Type} (g : A -> B) (xs : list A) :
  xs ≫= (fun x => [g x]) = g <$> xs.
Proof.
  induction xs as [|x xs IH]; [reflexivity|].
  rewrite bind_cons, fmap_cons, IH. reflexivity.
Qed.

Lemma length_bind_constant {A B : Type} (f : A -> list B) (k : nat) (xs : list A) :
  Forall (fun x => length (f x) = k) xs ->
  length (xs ≫= f) = (length xs * k)%nat.
Proof.
  induction 1 as [|x xs Hx _ IH]; [reflexivity|].
  rewrite bind_cons, length_app, Hx, IH. cbn [length]. lia.
Qed.

End LoopsFacts.

(** ** Facts about the tiling and unrolling passes and about
    [generate_states] *)

Module AutoSchedulerPassesFacts.
Import Loops LoopsFacts AutoScheduler AutoSchedulerFacts AutoSchedulerPasses.

Section Passes.

Variable get_loop_levels_chain_depth : ast_node -> Z.
Variable get_rightmost_computation : ast_node -> option nat.
Variable get_leftmost_computation : ast_node -> option nat.
Variable get_all_computations : ast_node -> list (option nat) -> list (option nat).
Variable get_extent : ast_node -> Z.
Variable can_split_iterator : Z -> Z -> bool.
Variable tiling_factors_list : list Z.
Variable unrolling_factors_list : list Z.

Abbreviation unrolling_candidate := (unrolling_candidate get_all_computations).
Abbreviation generate_unrollings_node :=
  (generate_unrollings_node get_all_computations get_extent can_split_iterator
     unrolling_factors_list).
Abbreviation generate_unrollings :=
  (generate_unrollings get_all_computations get_extent can_split_iterator
     unrolling_factors_list).
Abbreviation unrolling_factors :=
  (unrolling_factors get_extent can_split_iterator unrolling_factors_list).
Abbreviation node_unrollings :=
  (node_unrollings get_all_computations get_extent can_split_iterator
     unrolling_factors_list).
Abbreviation unrolling_of := (unrolling_of get_all_computations).

Abbreviation tiling_candidate_2 := (tiling_candidate_2 get_all_computations).
Abbreviation tiling_candidate_3 := (tiling_candidate_3 get_all_computations).
Abbreviation generate_tilings_3 :=
  (generate_tilings_3 get_all_computations get_extent can_split_iterator
     tiling_factors_list).
Abbreviation generate_tilings_2 :=
  (generate_tilings_2 get_all_computations get_extent can_split_iterator
     tiling_factors_list).
Abbreviation generate_tilings_node :=
  (generate_tilings_node get_loop_levels_chain_depth get_all_computations get_extent
     can_split_iterator tiling_factors_list).
Abbreviation generate_tilings :=
  (generate_tilings get_loop_levels_chain_depth get_all_computations get_extent
     can_split_iterator tiling_factors_list).
Abbreviation tiling_factors :=
  (tiling_factors get_extent can_split_iterator tiling_factors_list).
Abbreviation tiles_2 := (tiles_2 get_loop_levels_chain_depth).
Abbreviation tiles_3 := (tiles_3 get_loop_levels_chain_depth).
Abbreviation node_tilings :=
  (node_tilings get_loop_levels_chain_depth get_all_computations get_extent
     can_split_iterator tiling_factors_list).
Abbreviation third_level_factors :=
  (third_level_factors get_loop_levels_chain_depth get_extent can_split_iterator
     tiling_factors_list).
Abbreviation chain_present :=
  (chain_present get_loop_levels_chain_depth get_extent can_split_iterator
     tiling_factors_list).
Abbreviation generate_states :=
  (generate_states get_loop_levels_chain_depth get_rightmost_computation
     get_leftmost_computation get_all_computations get_extent can_split_iterator
     tiling_factors_list unrolling_factors_list).

(** *** The unrolling pass *)

Lemma generate_unrollings_node_pushes (ast : syntax_tree) (node_ : ast_node)
  (states : list syntax_tree) :
  generate_unrollings_node ast node_ states
  = (states ++ node_unrollings ast node_)%list.
Proof.
  unfold AutoSchedulerPasses.generate_unrollings_node, AutoSchedulerPasses.node_unrollings.
  destruct (unrolled node_); cbn [negb]; [rewrite app_nil_r; reflexivity|].
  unfold AutoSchedulerPasses.unrolling_factors.
  rewrite <- bind_singleton, <- bind_filter.
  apply fold_left_push_all. intros st f.
  destruct (decide _) as [Hf|Hf].
  - destruct Hf as [Hf|Hf].
    + apply Z.eqb_eq in Hf. rewrite Hf. reflexivity.
    + rewrite Hf, andb_false_r. reflexivity.
  - apply Decidable.not_or in Hf as [Hf1 Hf2].
    apply Z.eqb_neq in Hf1. apply not_true_is_false in Hf2.
    rewrite Hf1, Hf2, app_nil_r. reflexivity.
Qed.

Lemma generate_unrollings_pushes (ast : syntax_tree) (node_ : ast_node) :
  forall states,
    generate_unrollings node_ states ast
    = (states ++ (nodes_of node_ ≫= node_unrollings ast))%list.
Proof.
  induction node_ as [nm lo hi u d cs ch IH] using ast_node_children_ind.
  intros states. cbn [AutoSchedulerPasses.generate_unrollings].
  rewrite (fold_left_push _ (fun c => nodes_of c ≫= node_unrollings ast) ch IH).
  rewrite generate_unrollings_node_pushes.
  cbn [nodes_of]. rewrite bind_cons, bind_bind, app_assoc. reflexivity.
Qed.

Lemma elem_of_unrolling_factors (node_ : ast_node) (f : Z) :
  f ∈ unrolling_factors node_
  <-> f ∈ unrolling_factors_list
      /\ (get_extent node_ = f \/ can_split_iterator (get_extent node_) f = true).
Proof.
  unfold AutoSchedulerPasses.unrolling_factors. rewrite list_elem_of_filter. tauto.
Qed.

Lemma node_unrollings_one_per_factor (ast : syntax_tree) (node_ : ast_node) :
  unrolled node_ = false ->
  Forall2 (unrolling_of ast node_) (unrolling_factors node_) (node_unrollings ast node_).
Proof.
  intros Hu. unfold AutoSchedulerPasses.node_unrollings. rewrite Hu.
  induction (unrolling_factors node_) as [|f l IH]; [constructor|].
  rewrite fmap_cons. constructor; [|exact IH].
  eexists. repeat (split; [reflexivity|]). reflexivity.
Qed.

(** X1.  [generate_unrollings] pushes, behind the states it was given, the
    unrolling candidates of every node of the tree under [node], parents
    first.  A node that is not unrolled has one candidate for each factor of
    the unrolling list that equals its extent or splits it, in the order of
    the list, each a clone with a single record of type UNROLLING and one
    level; a node that is unrolled has none, whatever the factors. *)
Theorem generate_unrollings_one_candidate_per_factor
  (ast : syntax_tree) (node_ : ast_node) (states : list syntax_tree) :
  generate_unrollings node_ states ast
  = (states ++ (nodes_of node_ ≫= node_unrollings ast))%list
  /\ forall n : ast_node,
       (unrolled n = true -> node_unrollings ast n = [])
       /\ (unrolled n = false ->
           Forall2 (unrolling_of ast n) (unrolling_factors n) (node_unrollings ast n))
       /\ (forall f, f ∈ unrolling_factors n
                     <-> f ∈ unrolling_factors_list
                         /\ (get_extent n = f
                             \/ can_split_iterator (get_extent n) f = true)).
Proof.
  split; [apply generate_unrollings_pushes|].
  intros n. split.
  - intros Hu. unfold AutoSchedulerPasses.node_unrollings. rewrite Hu. reflexivity.
  - split; [apply node_unrollings_one_per_factor|]. apply elem_of_unrolling_factors.
Qed.

(** *** The tiling pass *)

Lemma generate_tilings_3_pushes (ast : syntax_tree) (node_ node3 : ast_node)
  (f1 f2 : Z) (states : list syntax_tree) :
  generate_tilings_3 ast node_ node3 f1 f2 states
  = Ok (states ++ (tiling_candidate_3 ast node_ f1 f2 <$> tiling_factors node3))%list.
Proof.
  unfold AutoSchedulerPasses.generate_tilings_3, AutoSchedulerPasses.tiling_factors.
  rewrite <- bind_singleton, <- bind_filter.
  apply for_each_push. apply Forall_forall. intros f3 _ st.
  destruct (decide _) as [Hf|Hf].
  - rewrite Hf. reflexivity.
  - apply not_true_is_false in Hf. rewrite Hf, app_nil_r. reflexivity.
Qed.

Lemma generate_tilings_2_pushes (ast : syntax_tree) (node_ node2 : ast_node)
  (f1 : Z) (states : list syntax_tree) :
  (tiles_3 node_ = true -> tiling_factors node2 <> [] ->
   exists node3, head (children node2) = Some node3) ->
  generate_tilings_2 ast node_ node2 (get_loop_levels_chain_depth node_) f1 states
  = Ok (states
        ++ (tiling_factors node2 ≫= fun f2 =>
            tiling_candidate_2 ast node_ f1 f2
            :: (tiling_candidate_3 ast node_ f1 f2 <$> third_level_factors node_ node2)))%list.
Proof.
  intros Hnode3.
  unfold AutoSchedulerPasses.generate_tilings_2.
  unfold AutoSchedulerPasses.tiling_factors at 1.
  rewrite <- bind_filter.
  apply for_each_push. apply Forall_forall. intros f2 Hin st.
  destruct (decide _) as [Hf|Hf].
  - rewrite Hf. cbn [negb].
    unfold AutoSchedulerPasses.third_level_factors.
    fold (tiles_3 node_).
    destruct (tiles_3 node_) eqn:H3.
    + destruct Hnode3 as [node3 Hn3]; [reflexivity| |].
      { intros Hnil.
        assert (Hf2 : f2 ∈ tiling_factors node2).
        { apply list_elem_of_filter. split; assumption. }
        rewrite Hnil in Hf2. apply elem_of_nil in Hf2. exact Hf2. }
      destruct (children node2) as [|c cs]; [discriminate|].
      injection Hn3 as ->.
      cbn [index lookup list_lookup mbind result_bind].
      rewrite generate_tilings_3_pushes, <- app_assoc. reflexivity.
    + reflexivity.
  - apply not_true_is_false in Hf. rewrite Hf, app_nil_r. reflexivity.
Qed.

Lemma generate_tilings_node_pushes (ast : syntax_tree) (node_ : ast_node)
  (states : list syntax_tree) :
  chain_present node_ ->
  generate_tilings_node ast node_ states = Ok (states ++ node_tilings ast node_)%list.
Proof.
  intros Hchain.
  unfold AutoSchedulerPasses.generate_tilings_node, AutoSchedulerPasses.node_tilings.
  fold (tiles_2 node_).
  destruct (tiles_2 node_) eqn:H2; [|rewrite app_nil_r; reflexivity].
  change (tiling_factors node_)
    with (filter (fun f => can_split_iterator (get_extent node_) f = true)
            tiling_factors_list).
  rewrite <- (bind_filter (fun f => can_split_iterator (get_extent node_) f = true)).
  apply for_each_push. apply Forall_forall. intros f1 Hin st.
  destruct (decide _) as [Hf|Hf].
  - rewrite Hf. cbn [negb].
    destruct Hchain as (node2 & Hn2 & Hn3); [exact H2| |].
    { intros Hnil.
      assert (Hf1 : f1 ∈ tiling_factors node_).
      { apply list_elem_of_filter. split; assumption. }
      rewrite Hnil in Hf1. apply elem_of_nil in Hf1. exact Hf1. }
    destruct (children node_) as [|c cs]; [discriminate|].
    injection Hn2 as ->.
    cbn [index lookup list_lookup mbind result_bind].
    rewrite generate_tilings_2_pushes by exact Hn3.
    unfold AutoSchedulerPasses.third_level_factors.
    fold (tiles_3 node_).
    f_equal. f_equal. apply bind_pointwise. intros f2.
    destruct (tiles_3 node_); [|reflexivity].
    destruct (children node2); reflexivity.
  - apply not_true_is_false in Hf. rewrite Hf, app_nil_r. reflexivity.
Qed.

Lemma generate_tilings_pushes (ast : syntax_tree) (node_ : ast_node) :
  Forall chain_present (nodes_of node_) ->
  forall states,
    generate_tilings node_ states ast
    = Ok (states ++ (nodes_of node_ ≫= node_tilings ast))%list.
Proof.
  induction node_ as [nm lo hi u d cs ch IH] using ast_node_children_ind.
  intros Hall states. cbn [nodes_of] in Hall.
  apply Forall_cons in Hall as [Hnode Hbelow].
  apply Forall_bind in Hbelow.
  cbn [AutoSchedulerPasses.generate_tilings].
  rewrite generate_tilings_node_pushes by exact Hnode.
  rewrite (for_each_push _ (fun c => nodes_of c ≫= node_tilings ast) ch).
  - cbn [nodes_of]. rewrite bind_cons, bind_bind, app_assoc. reflexivity.
  - clear Hnode. induction IH as [|c ch Hc _ IHch]; [constructor|].
    apply Forall_cons in Hbelow as [Hc' Hch'].
    constructor; [|apply IHch; exact Hch'].
    intros st. apply Hc. exact Hc'.
Qed.

(** X2.  Where every node has the first children the pass reads
    ([children[0]] of a node whose chain goes one level down and which some
    tiling factor splits, and of that child where the chain goes two levels
    down), [generate_tilings] returns, and what it pushes behind the states
    it was given are the tilings of every node under [node], parents first.
    The test on [unrolled] of the other passes is not made here. *)
Theorem generate_tilings_returns
  (ast : syntax_tree) (node_ : ast_node) (states : list syntax_tree)
  (Hchain : Forall chain_present (nodes_of node_)) :
  generate_tilings node_ states ast
  = Ok (states ++ (nodes_of node_ ≫= node_tilings ast))%list.
Proof. apply generate_tilings_pushes. exact Hchain. Qed.

Lemma length_node_tilings (ast : syntax_tree) (node_ node2 : ast_node) :
  tiles_2 node_ = true ->
  head (children node_) = Some node2 ->
  length (node_tilings ast node_)
  = (length (tiling_factors node_)
     * (length (tiling_factors node2) * (1 + length (third_level_factors node_ node2))))%nat.
Proof.
  intros Hdepth Hchild.
  unfold AutoSchedulerPasses.node_tilings. fold (tiles_2 node_). rewrite Hdepth.
  destruct (children node_) as [|c cs]; [discriminate|]. injection Hchild as ->.
  apply length_bind_constant. apply Forall_forall. intros f1 _.
  apply length_bind_constant. apply Forall_forall. intros f2 _.
  cbn [length]. f_equal.
  unfold AutoSchedulerPasses.third_level_factors. fold (tiles_3 node_).
  destruct (tiles_3 node_); [|reflexivity].
  destruct (children node2); [reflexivity|]. apply length_fmap.
Qed.

(** X3.  The number of states the tiling pass pushes for one node.  On a
    node whose chain goes at least one level down, which has a first child
    and, where the chain goes two levels down and some factor splits the
    child, a first grandchild, the part of [generate_tilings] before the
    recursion returns the states it was given followed by
    [n1 * n2 * (1 + n3)] new ones: one tiling of two levels for each pair
    of a factor that splits the node's extent and a factor that splits
    its first child's, and behind each of them one tiling of three levels
    for each factor that splits the extent of the first grandchild. *)
Theorem generate_tilings_node_count
  (ast : syntax_tree) (node_ node2 : ast_node) (states : list syntax_tree)
  (Hdepth : tiles_2 node_ = true) (Hchild : head (children node_) = Some node2)
  (Hgrand : tiles_3 node_ = true -> tiling_factors node2 <> [] ->
            exists node3, head (children node2) = Some node3) :
  exists pushed,
    generate_tilings_node ast node_ states = Ok (states ++ pushed)%list
    /\ pushed = node_tilings ast node_
    /\ length pushed
       = (length (tiling_factors node_)
          * (length (tiling_factors node2)
             * (1 + length (third_level_factors node_ node2))))%nat.
Proof.
  exists (node_tilings ast node_). split; [|split; [reflexivity|]].
  - apply generate_tilings_node_pushes. intros _ _. exists node2. auto.
  - apply length_node_tilings; assumption.
Qed.

(** *** The states of [generate_states] *)

Lemma level_fusions_candidates (ast : syntax_tree) (level : list ast_node) :
  Forall (candidate_of ast FUSION)
    (level_fusions get_rightmost_computation get_leftmost_computation ast level).
Proof.
  apply Forall_forall. intros s Hs.
  unfold level_fusions in Hs. apply list_elem_of_omap in Hs as ([i j] & _ & Hs).
  unfold fusion_candidate_at in Hs. cbn [fst snd] in Hs.
  destruct (level !! i) as [a|]; [|discriminate].
  destruct (level !! j) as [b|]; [|discriminate].
  injection Hs as <-. split; [reflexivity|].
  eexists. repeat (split; [reflexivity|]). reflexivity.
Qed.

Lemma node_interchanges_candidates (ast : syntax_tree) (n : ast_node) :
  Forall (candidate_of ast INTERCHANGE)
    (node_interchanges get_loop_levels_chain_depth get_all_computations ast n).
Proof.
  unfold node_interchanges. destruct (unrolled n); [constructor|].
  apply Forall_fmap, Forall_forall. intros i _. split; [reflexivity|].
  eexists. repeat (split; [reflexivity|]). reflexivity.
Qed.

Lemma node_unrollings_candidates (ast : syntax_tree) (n : ast_node) :
  Forall (candidate_of ast UNROLLING) (node_unrollings ast n).
Proof.
  unfold AutoSchedulerPasses.node_unrollings. destruct (unrolled n); [constructor|].
  apply Forall_fmap, Forall_forall. intros f _. split; [reflexivity|].
  eexists. repeat (split; [reflexivity|]). reflexivity.
Qed.

Lemma node_tilings_candidates (ast : syntax_tree) (n : ast_node) :
  Forall (candidate_of ast TILING) (node_tilings ast n).
Proof.
  unfold AutoSchedulerPasses.node_tilings. destruct (AutoSchedulerPasses.tiles_2 _ n);
    [|constructor].
  apply Forall_bind, Forall_forall. intros f1 _. cbn [compose].
  destruct (children n) as [|node2 ?]; [constructor|].
  apply Forall_bind, Forall_forall. intros f2 _. cbn [compose].
  constructor.
  - split; [reflexivity|]. eexists. repeat (split; [reflexivity|]). reflexivity.
  - destruct (AutoSchedulerPasses.tiles_3 _ n); [|constructor].
    destruct (children node2) as [|node3 ?]; [constructor|].
    apply Forall_fmap, Forall_forall. intros f3 _. split; [reflexivity|].
    eexists. repeat (split; [reflexivity|]). reflexivity.
Qed.

Abbreviation pass_states :=
  (pass_states get_loop_levels_chain_depth get_rightmost_computation
     get_leftmost_computation get_all_computations get_extent can_split_iterator
     tiling_factors_list unrolling_factors_list).

Lemma pass_states_candidates (ast : syntax_tree) (optim : optimization_type) :
  Forall (candidate_of ast optim) (pass_states ast optim).
Proof.
  destruct optim; cbn [AutoSchedulerPasses.pass_states].
  - apply Forall_bind, Forall_forall. intros level _. apply level_fusions_candidates.
  - apply Forall_bind, Forall_forall. intros n _. apply node_tilings_candidates.
  - apply Forall_bind, Forall_forall. intros n _. apply node_interchanges_candidates.
  - apply Forall_bind, Forall_forall. intros n _. apply node_unrollings_candidates.
Qed.

(** X4.  [generate_states] starts from no state and runs the pass asked
    for over the roots, in their order: what it returns is the list of
    the candidates of that pass and nothing else, the fusions of every
    level of the tree for FUSION and, for the three other optimizations,
    the tilings, interchanges or unrollings of every node of every root,
    parents first.  It returns (for TILING, where the first children the
    pass reads are there), and every state it returns is a clone of the
    tree it was given that carries exactly one optimization record, of the
    optimization asked for, whose [nb_l] is the number of levels the record
    names. *)
Theorem generate_states_runs_requested_pass
  (ast : syntax_tree) (optim : optimization_type)
  (Hchain : optim = TILING -> Forall chain_present (roots ast ≫= nodes_of)) :
  generate_states ast optim = Ok (pass_states ast optim)
  /\ Forall (candidate_of ast optim) (pass_states ast optim).
Proof.
  split; [|apply pass_states_candidates].
  destruct optim; cbn [AutoSchedulerPasses.generate_states AutoSchedulerPasses.pass_states].
  - rewrite generate_fusions_pushes. reflexivity.
  - specialize (Hchain eq_refl). apply Forall_bind in Hchain.
    rewrite (for_each_push _ (fun r => nodes_of r ≫= node_tilings ast)).
    + cbn [app]. rewrite bind_bind. reflexivity.
    + eapply Forall_impl; [exact Hchain|].
      intros r Hr st. apply generate_tilings_pushes. exact Hr.
  - rewrite (fold_left_push_all _
               (fun r => nodes_of r ≫= node_interchanges get_loop_levels_chain_depth
                                          get_all_computations ast)).
    2:{ intros st r. apply generate_interchanges_pushes. }
    cbn [app]. rewrite bind_bind. reflexivity.
  - rewrite (fold_left_push_all _ (fun r => nodes_of r ≫= node_unrollings ast)).
    2:{ intros st r. apply generate_unrollings_pushes. }
    cbn [app]. rewrite bind_bind. reflexivity.
Qed.

End Passes.

End AutoSchedulerPassesFacts.

(** ** Facts about printing the parsed tokens *)

Module ParserPrintingFacts.
Import Cxx Parser Loops LoopsFacts ParserPrinting.

Lemma concat_joined_from (separator x : string) (rest : list string) :
  String.concat separator (x :: rest) = x ++ joined_from separator false rest.
Proof.
  revert x. induction rest as [|y rest IH]; intros x.
  - cbn. rewrite CxxFacts.app_nil_r. reflexivity.
  - change (String.concat separator (x :: y :: rest))
      with (x ++ separator ++ String.concat separator (y :: rest)).
    rewrite IH. reflexivity.
Qed.

Lemma joined_from_first (separator : string) (v : list string) :
  joined_from separator true v = String.concat separator v.
Proof.
  destruct v as [|x rest]; [reflexivity|].
  rewrite concat_joined_from. reflexivity.
Qed.

Lemma concat_snoc (separator x : string) (v : list string) :
  String.concat separator (v ++ [x])
  = match v with
    | [] => x
    | _ :: _ => String.concat separator v ++ separator ++ x
    end.
Proof.
  destruct v as [|y v]; [reflexivity|].
  revert y. induction v as [|z v IH]; intros y; [reflexivity|].
  change (String.concat separator ((y :: z :: v) ++ [x]))
    with (y ++ separator ++ String.concat separator ((z :: v) ++ [x])).
  rewrite IH.
  change (String.concat separator (y :: z :: v))
    with (y ++ separator ++ String.concat separator (z :: v)).
  rewrite !CxxFacts.app_assoc. reflexivity.
Qed.

(** The loop, from position [length done] on: [at(i)] is always in range. *)
Lemma get_str_loop_from (separator : string) (rest done : list string) (acc : string) :
  for_each (seq (length done) (length rest))
    (fun (result_ : string) i =>
       let result_ := if negb (Nat.eqb i 0) then result_ ++ separator else result_ in
       x ← at_ (done ++ rest)%list i;
       Ok (result_ ++ x))
    acc
  = Ok (acc ++ joined_from separator (Nat.eqb (length done) 0) rest).
Proof.
  revert done acc. induction rest as [|x rest IH]; intros done acc.
  - cbn. rewrite CxxFacts.app_nil_r. reflexivity.
  - cbn [length seq]. rewrite for_each_cons. cbv zeta.
    unfold at_ at 1. rewrite list_lookup_middle by reflexivity.
    cbn [mbind result_bind].
    specialize (IH (done ++ [x])%list).
    rewrite length_app, Nat.add_1_r, <- List.app_assoc in IH. cbn [app] in IH.
    rewrite IH. cbn [Nat.eqb joined_from].
    destruct (Nat.eqb (length done) 0); cbn [negb];
      rewrite ?CxxFacts.app_assoc; reflexivity.
Qed.

Lemma get_str_loop_joins (separator : string) (v : list string) :
  get_str_loop separator v = Ok (String.concat separator v).
Proof.
  unfold get_str_loop.
  etransitivity; [exact (get_str_loop_from separator v [] "")|].
  cbn [length Nat.eqb]. rewrite joined_from_first. reflexivity.
Qed.

(** X5.  [get_str] of a space, of a constraint and of a map always
    returns ([at(i)] is never out of range): a space prints its dimensions
    with [","] between them, a constraint its conjuncts with [" and "]
    between them, and a map the two tuples, each name right before its
    bracket, around ["] ->"], then [" :"] and the constraints when there is
    one, then [" }"].  The parameters of the map are not printed. *)
Theorem get_str_prints_joined_tokens (sp : space) (c : constraint) (m : map) :
  space_get_str sp = Ok (String.concat "," (dimensions sp))
  /\ constraint_get_str c = Ok (String.concat " and " (constraints c))
  /\ map_get_str m
     = Ok ("{" ++ domain_name m ++ "[" ++ String.concat "," (dimensions (domain m))
               ++ "] ->" ++ range_name m ++ "["
               ++ String.concat "," (dimensions (range m)) ++ "]"
               ++ (if constraint_is_empty (map_constraints m) then ""
                   else " :" ++ String.concat " and " (constraints (map_constraints m)))
               ++ " }").
Proof.
  split; [apply get_str_loop_joins|]. split; [apply get_str_loop_joins|].
  unfold map_get_str, space_get_str, constraint_get_str.
  rewrite !get_str_loop_joins. cbn [mbind result_bind].
  destruct (constraint_is_empty (map_constraints m)); cbn [negb mbind result_bind];
    rewrite ?CxxFacts.app_assoc; reflexivity.
Qed.

(** X6.  [constraint::add] refuses the empty string and, given any other,
    returns a constraint that is not [empty()] and prints as the old text,
    [" and "] where there was a conjunct before, and the string added;
    [split_string] is not called. *)
Theorem constraint_add_appends_conjunct (str : string) (c : constraint)
  (Hstr : str <> "") :
  exists c',
    constraint_add str c = Ok c'
    /\ constraint_is_empty c' = false
    /\ constraint_get_str c'
       = Ok (if constraint_is_empty c then str
             else String.concat " and " (constraints c) ++ " and " ++ str)
    /\ constraint_add "" c = Err (AssertionFailed "str.empty() == false").
Proof.
  apply String.eqb_neq in Hstr.
  unfold constraint_add. rewrite Hstr. cbn [negb assert mbind result_bind].
  eexists. split; [reflexivity|].
  split; [unfold constraint_is_empty; cbn; destruct (constraints c); reflexivity|].
  split; [|reflexivity].
  unfold constraint_get_str. rewrite get_str_loop_joins. cbn [constraints].
  rewrite concat_snoc. unfold constraint_is_empty.
  destruct (constraints c); reflexivity.
Qed.

(** *** [space::replace] *)

Lemma space_replace_fold (in_ out1 out2 : string) (dims acc : list string) :
  fold_left
    (fun (new_dimensions : list string) dim =>
       if String.eqb dim in_
       then ((new_dimensions ++ [out1]) ++ [out2])%list
       else (new_dimensions ++ [dim])%list)
    dims acc
  = (acc ++ (dims ≫= fun dim => if decide (dim = in_) then [out1; out2] else [dim]))%list.
Proof.
  revert acc. induction dims as [|d dims IH]; intros acc; cbn [fold_left].
  - cbn. rewrite app_nil_r. reflexivity.
  - rewrite IH, bind_cons.
    destruct (decide (d = in_)) as [->|Hd].
    + rewrite String.eqb_refl, <- !List.app_assoc. reflexivity.
    + apply String.eqb_neq in Hd. rewrite Hd, <- !List.app_assoc. reflexivity.
Qed.

Lemma dimensions_space_replace (in_ out1 out2 : string) (sp : space) :
  dimensions (space_replace in_ out1 out2 sp)
  = dimensions sp ≫= fun dim => if decide (dim = in_) then [out1; out2] else [dim].
Proof. unfold space_replace. cbn [dimensions]. apply space_replace_fold. Qed.

Lemma replace_absent (in_ out1 out2 : string) (dims : list string) :
  in_ ∉ dims ->
  dims ≫= (fun dim => if decide (dim = in_) then [out1; out2] else [dim]) = dims.
Proof.
  induction dims as [|d dims IH]; intros Hin; [reflexivity|].
  apply not_elem_of_cons in Hin as [Hd Hin].
  rewrite bind_cons, IH by exact Hin.
  destruct (decide (d = in_)); [congruence|reflexivity].
Qed.

(** X7.  [space::replace(in, out1, out2)] puts the two names [out1],
    [out2] in the place of every dimension named [in] and keeps the others
    in their order: the space grows by one dimension for each occurrence
    of [in].  Where neither of the two names is [in], no dimension is named
    [in] afterwards, so that replacing again changes nothing; and a space
    without a dimension named [in] is left as it is. *)
Theorem space_replace_splits_dimension (in_ out1 out2 : string) (sp : space)
  (Hout1 : out1 <> in_) (Hout2 : out2 <> in_) :
  dimensions (space_replace in_ out1 out2 sp)
  = (dimensions sp ≫= fun dim => if decide (dim = in_) then [out1; out2] else [dim])
  /\ length (dimensions (space_replace in_ out1 out2 sp))
     = (length (dimensions sp) + length (filter (fun dim => dim = in_) (dimensions sp)))%nat
  /\ (in_ ∉ dimensions (space_replace in_ out1 out2 sp))
  /\ space_replace in_ out1 out2 (space_replace in_ out1 out2 sp)
     = space_replace in_ out1 out2 sp
  /\ (forall sp0 : space,
        (in_ ∉ dimensions sp0) -> space_replace in_ out1 out2 sp0 = sp0).
Proof.
  assert (Habsent : forall sp0 : space,
             in_ ∉ dimensions sp0 -> space_replace in_ out1 out2 sp0 = sp0).
  { intros [dims] Hin. unfold space_replace. cbn [dimensions] in *.
    rewrite space_replace_fold, replace_absent by exact Hin. reflexivity. }
  assert (Hgone : in_ ∉ dimensions (space_replace in_ out1 out2 sp)).
  { rewrite dimensions_space_replace. intros Hin.
    apply list_elem_of_bind in Hin as (d & Hin & _).
    destruct (decide (d = in_)).
    - apply elem_of_cons in Hin as [Hin|Hin]; [congruence|].
      apply list_elem_of_singleton in Hin. congruence.
    - apply list_elem_of_singleton in Hin. congruence. }
  split; [apply dimensions_space_replace|].
  split.
  - rewrite dimensions_space_replace.
    induction (dimensions sp) as [|d dims IH]; [reflexivity|].
    rewrite bind_cons, length_app, IH, filter_cons.
    destruct (decide (d = in_)); cbn [length]; lia.
  - split; [exact Hgone|]. split; [|exact Habsent].
    apply Habsent. exact Hgone.
Qed.

End ParserPrintingFacts.

(** ** Parsing what was printed, and literals without constraints *)

Module ParserRoundTripFacts.
Import Cxx CxxFacts Parser ParserFacts ParserPrinting.

Section Unconstrained.

Variable split_string : string -> string -> list string -> list string.
Variable space_parse : string -> space -> space.

Variables name dims sep1 rname rdims sep2 : string.

Hypothesis name_clean : free_of "[]}:" name = true.
Hypothesis dims_clean : free_of "]}:" dims = true.
Hypothesis sep1_clean : free_of "-}:" sep1 = true.
Hypothesis rname_clean : free_of "[]}:" rname = true.
Hypothesis rdims_clean : free_of "]}:" rdims = true.
Hypothesis sep2_clean : free_of "}:" sep2 = true.

Let text : string := map_literal_unconstrained name dims sep1 rname rdims sep2.

(** The text before the closing brace. *)
Let body : string :=
  "{" ++ name ++ "[" ++ dims ++ "]" ++ sep1 ++ "->" ++ rname ++ "[" ++ rdims ++ "]" ++ sep2.

Let at_lbr : Z := 1 + size name.
Let at_rbr : Z := at_lbr + 1 + size dims.
Let at_arrow : Z := at_rbr + 1 + size sep1.
Let at_lbr2 : Z := at_arrow + 2 + size rname.
Let at_rbr2 : Z := at_lbr2 + 1 + size rdims.
Let at_close : Z := at_rbr2 + 1 + size sep2.

Ltac sizes :=
  unfold at_close, at_rbr2, at_lbr2, at_arrow, at_rbr, at_lbr;
  rewrite ?size_app; repeat rewrite size_cons; rewrite ?size_nil; lia.

Ltac shape := unfold text, body, map_literal_unconstrained; same_text.

Lemma text_body : text = body ++ "}".
Proof. shape. Qed.

Lemma size_body : size body = at_close.
Proof. unfold body. sizes. Qed.

Lemma u_find_open : find text "{" 0 = 0.
Proof.
  change 0 with (size "") at 1.
  rewrite (find_after text "" "" (drop 1 text) "{" ""); [reflexivity|reflexivity|reflexivity].
Qed.

Lemma u_find_close : find text "}" 0 = at_close.
Proof.
  free_of_facts. change 0 with (size "") at 1.
  rewrite (find_after text "" body "" "}" "");
    [ unfold body; sizes
    | unfold text, body, map_literal_unconstrained; rewrite ?app_assoc; reflexivity
    | unfold body; mem_false].
Qed.

Lemma u_find_colon : find text ":" 0 = npos.
Proof.
  free_of_facts. apply find_none.
  unfold text, map_literal_unconstrained. mem_false.
Qed.

Lemma u_find_lbr : find text "[" 1 = at_lbr.
Proof.
  free_of_facts. change 1 with (size "{") at 1.
  rewrite (find_after text "{" name
             (dims ++ "]" ++ sep1 ++ "->" ++ rname ++ "[" ++ rdims ++ "]" ++ sep2 ++ "}")
             "[" "");
    [reflexivity | shape | mem_false].
Qed.

Lemma u_find_rbr : find text "]" 1 = at_rbr.
Proof.
  free_of_facts. change 1 with (size "{") at 1.
  rewrite (find_after text "{" (name ++ "[" ++ dims)
             (sep1 ++ "->" ++ rname ++ "[" ++ rdims ++ "]" ++ sep2 ++ "}") "]" "");
    [ sizes | shape | mem_false].
Qed.

Lemma u_find_arrow : find text "->" (at_rbr - 1) = at_arrow.
Proof.
  free_of_facts.
  set (tail := sep1 ++ "->" ++ rname ++ "[" ++ rdims ++ "]" ++ sep2 ++ "}").
  assert (Hstep1 : find text "->" (at_rbr - 1) = find text "->" at_rbr).
  { destruct (last_char dims) as [E|(d' & x & E)].
    - replace (at_rbr - 1) with (size ("{" ++ name)).
      2:{ unfold at_rbr, at_lbr. rewrite E, !size_app, size_cons, !size_nil. lia. }
      rewrite (find_step text ("{" ++ name) "[" ("]" ++ tail) "->").
      + f_equal. unfold at_rbr, at_lbr. rewrite E, !size_app, size_cons, !size_nil. lia.
      + unfold text, map_literal_unconstrained, tail. rewrite E. same_text.
      + apply prefix_arrow_before_bracket.
    - replace (at_rbr - 1) with (size ("{" ++ name ++ "[" ++ d')).
      2:{ unfold at_rbr, at_lbr. rewrite E, !size_app. repeat rewrite size_cons.
          rewrite !size_nil. lia. }
      rewrite (find_step text ("{" ++ name ++ "[" ++ d') x ("]" ++ tail) "->").
      + f_equal. unfold at_rbr, at_lbr. rewrite E, !size_app. repeat rewrite size_cons.
        rewrite !size_nil. lia.
      + unfold text, map_literal_unconstrained, tail. rewrite E. same_text.
      + apply prefix_arrow_before_bracket. }
  assert (Hstep2 : find text "->" at_rbr = find text "->" (at_rbr + 1)).
  { replace at_rbr with (size ("{" ++ name ++ "[" ++ dims)) by sizes.
    apply (find_step text ("{" ++ name ++ "[" ++ dims) "]" tail "->").
    - unfold text, map_literal_unconstrained, tail. same_text.
    - reflexivity. }
  rewrite Hstep1, Hstep2.
  replace (at_rbr + 1) with (size ("{" ++ name ++ "[" ++ dims ++ "]")) by sizes.
  rewrite (find_after text ("{" ++ name ++ "[" ++ dims ++ "]") sep1
             (rname ++ "[" ++ rdims ++ "]" ++ sep2 ++ "}") "-" ">");
    [ sizes | shape | mem_false].
Qed.

Lemma u_find_lbr2 : find text "[" (at_arrow + 2) = at_lbr2.
Proof.
  free_of_facts.
  replace (at_arrow + 2)
    with (size ("{" ++ name ++ "[" ++ dims ++ "]" ++ sep1 ++ "->")) by sizes.
  rewrite (find_after text ("{" ++ name ++ "[" ++ dims ++ "]" ++ sep1 ++ "->") rname
             (rdims ++ "]" ++ sep2 ++ "}") "[" "");
    [ sizes | shape | mem_false].
Qed.

Lemma u_find_rbr2 : find text "]" (at_arrow + 2) = at_rbr2.
Proof.
  free_of_facts.
  replace (at_arrow + 2)
    with (size ("{" ++ name ++ "[" ++ dims ++ "]" ++ sep1 ++ "->")) by sizes.
  rewrite (find_after text ("{" ++ name ++ "[" ++ dims ++ "]" ++ sep1 ++ "->")
             (rname ++ "[" ++ rdims) (sep2 ++ "}") "]" "");
    [ sizes | shape | mem_false].
Qed.

Lemma u_substr_name : substr text 1 (size name) = Ok name.
Proof.
  change 1 with (size "{").
  apply (substr_middle text "{" name
           ("[" ++ dims ++ "]" ++ sep1 ++ "->" ++ rname ++ "[" ++ rdims ++ "]" ++ sep2
                ++ "}")).
  shape.
Qed.

Lemma u_substr_dims : substr text (at_lbr + 1) (size dims) = Ok dims.
Proof.
  replace (at_lbr + 1) with (size ("{" ++ name ++ "[")) by sizes.
  apply (substr_middle text ("{" ++ name ++ "[") dims
           ("]" ++ sep1 ++ "->" ++ rname ++ "[" ++ rdims ++ "]" ++ sep2 ++ "}")).
  shape.
Qed.

Lemma u_substr_rname : substr text (at_arrow + 2) (size rname) = Ok rname.
Proof.
  replace (at_arrow + 2)
    with (size ("{" ++ name ++ "[" ++ dims ++ "]" ++ sep1 ++ "->")) by sizes.
  apply (substr_middle text ("{" ++ name ++ "[" ++ dims ++ "]" ++ sep1 ++ "->") rname
           ("[" ++ rdims ++ "]" ++ sep2 ++ "}")).
  shape.
Qed.

Lemma u_substr_rdims : substr text (at_lbr2 + 1) (size rdims) = Ok rdims.
Proof.
  replace (at_lbr2 + 1)
    with (size ("{" ++ name ++ "[" ++ dims ++ "]" ++ sep1 ++ "->" ++ rname ++ "["))
    by sizes.
  apply (substr_middle text
           ("{" ++ name ++ "[" ++ dims ++ "]" ++ sep1 ++ "->" ++ rname ++ "[") rdims
           ("]" ++ sep2 ++ "}")).
  shape.
Qed.

Lemma u_substr_body : substr text 0 (size body) = Ok body.
Proof.
  change 0 with (size "") at 1.
  apply (substr_middle text "" body "}"). rewrite text_body. reflexivity.
Qed.

Hypothesis text_small : size text < 2 ^ 31.

Lemma map_new_map_literal_unconstrained :
  map_new split_string space_parse text
  = Ok {| parameters := space_empty;
          domain_name := name;
          range_name := rname;
          domain := space_parse dims space_empty;
          range := space_parse rdims space_empty;
          map_constraints := mk_constraint (split_string body "and" []) |}.
Proof.
  assert (Hsize : size text = at_close + 1).
  { rewrite text_body, size_app, size_body. reflexivity. }
  pose proof (size_nonneg name). pose proof (size_nonneg dims).
  pose proof (size_nonneg sep1). pose proof (size_nonneg rname).
  pose proof (size_nonneg rdims). pose proof (size_nonneg sep2).
  assert (Hb : 1 <= at_lbr /\ at_lbr < at_rbr /\ at_rbr < at_arrow
               /\ at_arrow + 2 <= at_lbr2 /\ at_lbr2 < at_rbr2 /\ at_rbr2 < at_close
               /\ at_close + 1 < 2 ^ 31).
  { rewrite <- Hsize. unfold at_close, at_rbr2, at_lbr2, at_arrow, at_rbr, at_lbr. lia. }
  unfold map_new. cbv zeta.
  rewrite u_find_open, u_find_close, u_find_colon.
  change (to_size_t (0 + 1)) with 1. change (to_int 1) with 1.
  change (to_size_t 1) with 1.
  change (to_int (to_size_t (npos + 1))) with 0. change (to_size_t 0) with 0.
  rewrite u_find_lbr, u_find_rbr.
  conv (at_close - 1). conv (at_lbr + 1). conv (at_lbr - 1). conv (at_rbr - 1).
  rewrite u_find_arrow. conv at_arrow. conv (at_arrow + 2).
  rewrite u_find_lbr2, u_find_rbr2.
  conv (at_lbr2 + 1). conv (at_lbr2 - 1). conv (at_rbr2 - 1).
  replace (at_lbr - 1 - 1 + 1) with (size name) by (unfold at_lbr; lia).
  replace (at_rbr - 1 - (at_lbr + 1) + 1) with (size dims) by (unfold at_rbr; lia).
  replace (at_lbr2 - 1 - (at_arrow + 2) + 1) with (size rname) by (unfold at_lbr2; lia).
  replace (at_rbr2 - 1 - (at_lbr2 + 1) + 1) with (size rdims) by (unfold at_rbr2; lia).
  replace (at_close - 1 - 0 + 1) with (size body) by (rewrite size_body; lia).
  pose proof size_body as Hbody.
  conv (size name). conv (size dims). conv (size rname). conv (size rdims).
  conv (size body).
  rewrite !assert_in_range by lia. cbn [mbind result_bind].
  rewrite u_substr_name, u_substr_dims, u_substr_rname, u_substr_rdims.
  cbn [mbind result_bind].
  change (negb (0 =? npos)) with true. cbv iota.
  rewrite u_substr_body. cbn [mbind result_bind].
  reflexivity.
Qed.

End Unconstrained.

(** X8.  On every relation literal without a constraint part,
    [{name[dims]sep1->rname[rdims]sep2}], whose pieces hold none of the
    delimiters searched for, [parser::map::map] returns the two names and
    the two dimension lists as on a literal with constraints, and a
    constraint list all the same: [find(":")] is [npos], [column_pos] is
    [npos + 1 = 0], the test [column_pos != npos] holds, and the whole text
    before the closing brace is split at ["and"]. *)
Theorem map_new_reads_text_as_constraints
  (split_string : string -> string -> list string -> list string)
  (space_parse : string -> space -> space)
  (name dims sep1 rname rdims sep2 : string) :
  free_of "[]}:" name = true ->
  free_of "]}:" dims = true ->
  free_of "-}:" sep1 = true ->
  free_of "[]}:" rname = true ->
  free_of "]}:" rdims = true ->
  free_of "}:" sep2 = true ->
  size (map_literal_unconstrained name dims sep1 rname rdims sep2) < 2 ^ 31 ->
  map_new split_string space_parse
    (map_literal_unconstrained name dims sep1 rname rdims sep2)
  = Ok {| parameters := space_empty;
          domain_name := name;
          range_name := rname;
          domain := space_parse dims space_empty;
          range := space_parse rdims space_empty;
          map_constraints :=
            mk_constraint
              (split_string
                 ("{" ++ name ++ "[" ++ dims ++ "]" ++ sep1 ++ "->" ++ rname ++ "["
                      ++ rdims ++ "]" ++ sep2)
                 "and" []) |}.
Proof. intros. apply map_new_map_literal_unconstrained; assumption. Qed.

(** *** Printing, then parsing *)

Lemma map_get_str_constrained (m : map) :
  constraint_is_empty (map_constraints m) = false ->
  map_get_str m
  = Ok (map_literal (domain_name m) (String.concat "," (dimensions (domain m))) " "
          (range_name m) (String.concat "," (dimensions (range m))) " "
          (String.concat " and " (constraints (map_constraints m)) ++ " ")).
Proof.
  intros Hc. unfold map_get_str, space_get_str, constraint_get_str.
  rewrite !ParserPrintingFacts.get_str_loop_joins. cbn [mbind result_bind].
  rewrite Hc. cbn [negb mbind result_bind].
  unfold map_literal. rewrite ?app_assoc. reflexivity.
Qed.

Lemma map_get_str_unconstrained (m : map) :
  constraint_is_empty (map_constraints m) = true ->
  map_get_str m
  = Ok (map_literal_unconstrained (domain_name m)
          (String.concat "," (dimensions (domain m))) " "
          (range_name m) (String.concat "," (dimensions (range m))) " ").
Proof.
  intros Hc. unfold map_get_str, space_get_str.
  rewrite !ParserPrintingFacts.get_str_loop_joins. cbn [mbind result_bind].
  rewrite Hc. cbn [negb mbind result_bind].
  unfold map_literal_unconstrained. rewrite ?app_assoc. reflexivity.
Qed.

(** X9.  Parsing what [map::get_str] printed, for a map whose names and
    printed lists hold no delimiter: the constructor returns, with the two
    tuple names of the map printed, the printed dimension lists handed to
    [space::parse], and no parameters.  The constraints do not come back
    as they were: of a map with constraints the printed conjunction is
    split with a blank behind it, and of a map without any the whole text
    before the closing brace is split into a constraint list. *)
Theorem map_new_reads_printed_map
  (split_string : string -> string -> list string -> list string)
  (space_parse : string -> space -> space) (m : map) :
  let d := String.concat "," (dimensions (domain m)) in
  let r := String.concat "," (dimensions (range m)) in
  let c := String.concat " and " (constraints (map_constraints m)) in
  free_of "[]}:" (domain_name m) = true ->
  free_of "]}:" d = true ->
  free_of "[]}:" (range_name m) = true ->
  free_of "]}:" r = true ->
  free_of "}" c = true ->
  size (domain_name m) + size d + size (range_name m) + size r + size c + 12 < 2 ^ 31 ->
  exists text,
    map_get_str m = Ok text
    /\ map_new split_string space_parse text
       = Ok {| parameters := space_empty;
               domain_name := domain_name m;
               range_name := range_name m;
               domain := space_parse d space_empty;
               range := space_parse r space_empty;
               map_constraints :=
                 mk_constraint
                   (split_string
                      (if constraint_is_empty (map_constraints m)
                       then "{" ++ domain_name m ++ "[" ++ d ++ "] ->" ++ range_name m
                                ++ "[" ++ r ++ "] "
                       else c ++ " ")
                      "and" []) |}.
Proof.
  intros d r c Hname Hd Hrname Hr Hc Hsize.
  destruct (constraint_is_empty (map_constraints m)) eqn:Hempty.
  - rewrite (map_get_str_unconstrained m Hempty). eexists. split; [reflexivity|].
    fold d r.
    assert (Hs : size (map_literal_unconstrained (domain_name m) d " "
                         (range_name m) r " ") < 2 ^ 31).
    { unfold map_literal_unconstrained. rewrite !size_app. repeat rewrite size_cons.
      rewrite !size_nil. pose proof (size_nonneg c). lia. }
    rewrite (map_new_map_literal_unconstrained split_string space_parse
               (domain_name m) d " " (range_name m) r " ")
      by first [assumption | reflexivity].
    reflexivity.
  - rewrite (map_get_str_constrained m Hempty). eexists. split; [reflexivity|].
    fold d r c.
    apply (map_new_map_literal split_string space_parse
             (domain_name m) d " " (range_name m) r " " (c ++ " "));
      try assumption; try reflexivity.
    + free_of_facts. unfold free_of. cbn [forallb list_ascii_of_string].
      rewrite mem_app. match goal with H : mem _ c = false |- _ => rewrite H end.
      reflexivity.
    + destruct c; reflexivity.
    + unfold map_literal. rewrite !size_app. repeat rewrite size_cons.
      rewrite !size_nil. lia.
Qed.

End ParserRoundTripFacts.

(** ** More facts about computations, libraries and buffers *)

Module CoreObjectsFacts.
Import Cxx Isl Core CoreFacts CoreObjects.

Section Computation.

Context {Expr Stmt isl_ast_expr : Type}.
Abbreviation computation := (@computation Expr Stmt isl_ast_expr).

(** X10.  The edges of [gen_time_processor_IR].  Without an iteration set
    the call ends in the assertion of [get_iteration_space_representation];
    with one and without a schedule, in its own assertion on the schedule.
    With both, when the set does not live in the domain space of the
    schedule, the call returns and leaves the time-processor set NULL, and
    [get_time_processor_identity_relation] then fails its assertion. *)
Theorem gen_time_processor_IR_edges (c : computation) :
  (iter_space c = None ->
   gen_time_processor_IR c = Err (AssertionFailed "iter_space != NULL"))
  /\ (is_Some (iter_space c) -> schedule c = None ->
      gen_time_processor_IR c = Err (AssertionFailed "this->get_schedule() != NULL"))
  /\ (forall it sc,
        iter_space c = Some it -> schedule c = Some sc ->
        set_tuple it <> map_in sc ->
        exists c',
          gen_time_processor_IR c = Ok (tt, c')
          /\ time_processor_space c' = None
          /\ iter_space c' = Some it /\ schedule c' = Some sc
          /\ get_time_processor_identity_relation c'
             = Err (AssertionFailed "get_time_processor_representation() != NULL")).
Proof.
  split; [|split].
  - intros Hit. unfold gen_time_processor_IR, get_iteration_space_representation.
    rewrite Hit. reflexivity.
  - intros [it Hit] Hsc.
    unfold gen_time_processor_IR, get_iteration_space_representation, get_schedule.
    rewrite Hit. cbn [mbind result_bind assert bool_decide decide_rel is_Some_dec].
    rewrite Hsc. reflexivity.
  - intros it sc Hit Hsc Hne.
    unfold gen_time_processor_IR, get_iteration_space_representation, get_schedule.
    rewrite Hit. cbn [mbind result_bind assert bool_decide decide_rel is_Some_dec].
    rewrite Hsc. cbn [mbind result_bind assert bool_decide decide_rel is_Some_dec].
    rewrite Hit. cbn [mbind result_bind assert bool_decide decide_rel is_Some_dec].
    rewrite Hsc. eexists. split; [reflexivity|].
    unfold isl_set_apply, isl_set_copy, isl_map_copy. cbn [mbind option_bind].
    rewrite decide_False by exact Hne.
    cbn [time_processor_space set_time_processor_space_field iter_space schedule].
    split; [reflexivity|]. split; [exact Hit|]. split; [exact Hsc|].
    reflexivity.
Qed.

End Computation.

Section Access.

Context {Expr Stmt isl_ast_expr : Type}.
Abbreviation computation := (@computation Expr Stmt isl_ast_expr).

Variable isl_map_read_from_str : string -> option isl_map.

Abbreviation SetWriteAccess := (SetWriteAccess isl_map_read_from_str).


End Access.

Section Constructor.

Context {Expr Stmt isl_ast_expr isl_ast_node : Type}.
Abbreviation world := (@world Expr Stmt isl_ast_expr isl_ast_node).

Variable isl_set_read_from_str : string -> option isl_set.
Variable isl_set_to_str : isl_set -> string.
Variable isl_map_read_from_str : string -> option isl_map.

Lemma lookup_map_insert_if_absent {V : Type} (k : string) (v : V) (m : gmap string V)
  (k' : string) :
  map_insert_if_absent k v m !! k'
  = match m !! k' with
    | Some v' => Some v'
    | None => if decide (k' = k) then Some v else None
    end.
Proof.
  unfold map_insert_if_absent. destruct (m !! k) as [v0|] eqn:Hk.
  - destruct (m !! k') as [v'|] eqn:Hk'; [reflexivity|].
    destruct (decide (k' = k)) as [->|]; [congruence|reflexivity].
  - destruct (decide (k' = k)) as [->|Hne].
    + rewrite lookup_insert_eq, Hk. reflexivity.
    + rewrite lookup_insert_ne by congruence. destruct (m !! k'); reflexivity.
Qed.

(** X11.  What the constructor of [computation] does to the program.  The
    new object is one that was not there, and no other computation,
    library or context changes.  [computations_list.insert] binds the name
    of the new computation to it where the name was free and never rebinds
    a name: when a computation of that name was declared before, it is
    still the one the name stands for, and the new computation is not in
    the list. *)
Theorem computation_new_registers_once
  (expr : Expr) (iteration_space_str : string) (fct : option nat) (w w' : world)
  (this : nat) :
  computation_new isl_set_read_from_str isl_set_to_str isl_map_read_from_str
    expr iteration_space_str fct w = Ok (this, w') ->
  computation_objects w !! this = None
  /\ (forall h, h <> this -> computation_objects w' !! h = computation_objects w !! h)
  /\ contexts w' = contexts w
  /\ libraries w' = libraries w
  /\ exists c,
       computation_objects w' !! this = Some c
       /\ function c = fct
       /\ computations_list w' = map_insert_if_absent (name c) this (computations_list w)
       /\ (forall n h0, computations_list w !! n = Some h0 ->
                        computations_list w' !! n = Some h0)
       /\ (computations_list w !! name c = None ->
           computations_list w' !! name c = Some this)
       /\ (forall n, n <> name c -> computations_list w' !! n = computations_list w !! n).
Proof.
  unfold computation_new. intros H.
  bind_ok H. bind_ok H. bind_ok H. bind_ok H. bind_ok H.
  destruct (isl_space_get_tuple_name
              (isl_set_get_space (isl_set_read_from_str iteration_space_str))
              isl_dim_set) as [nm|] eqn:Hname; [|discriminate].
  match type of H with
  | (?m ≫= _) = _ => destruct m as [[[] c]|] eqn:Hid; cbn [mbind result_bind] in H;
                      [|discriminate]
  end.
  injection H as <- <-.
  cbn [computation_objects contexts libraries computations_list].
  split.
  { apply not_elem_of_dom. apply is_fresh. }
  split; [intros h Hne; apply lookup_insert_ne; congruence|].
  split; [reflexivity|]. split; [reflexivity|].
  exists c. rewrite lookup_insert_eq. split; [reflexivity|].
  assert (Hc : name c = nm /\ function c = fct).
  { unfold set_identity_schedule, get_iteration_space_representation, set_text in Hid.
    cbn [iter_space] in Hid.
    destruct (isl_set_read_from_str iteration_space_str) as [it|];
      cbn [mbind result_bind assert bool_decide decide_rel is_Some_dec iter_space] in Hid;
      [|discriminate].
    bind_ok Hid. unfold set_schedule_str in Hid.
    apply set_schedule_accepts in Hid as (-> & _). split; reflexivity. }
  destruct Hc as [-> ->].
  split; [reflexivity|]. split; [reflexivity|].
  split; [|split].
  - intros n h0 Hn. rewrite lookup_map_insert_if_absent, Hn. reflexivity.
  - intros Hn. rewrite lookup_map_insert_if_absent, Hn.
    rewrite decide_True by reflexivity. reflexivity.
  - intros n Hne. rewrite lookup_map_insert_if_absent.
    destruct (computations_list w !! n); [reflexivity|].
    rewrite decide_False by exact Hne. reflexivity.
Qed.

(** X16.  What the constructor of [computation] refuses, in the order of
    its checks: a NULL function, an empty text, a function without a
    library (each an assertion), and a text the Presburger library does not
    read as a set, or reads as a set whose tuple has no name, where the
    tuple name is NULL when the [std::string] is made from it.  When it
    returns, none of these was the case. *)
Theorem computation_new_rejects
  (expr : Expr) (iteration_space_str : string) (fct : option nat) (w : world) :
  let run := computation_new isl_set_read_from_str isl_set_to_str isl_map_read_from_str
               expr iteration_space_str fct w in
  (fct = None -> run = Err (AssertionFailed "fct != NULL"))
  /\ (is_Some fct -> iteration_space_str = "" ->
      run = Err (AssertionFailed "Empty iteration space"))
  /\ (forall h f,
        fct = Some h -> iteration_space_str <> "" ->
        function_objects w !! h = Some f -> fn_library f = None ->
        run = Err (AssertionFailed "fct->get_library() != NULL"))
  /\ (forall h f lh l,
        fct = Some h -> iteration_space_str <> "" ->
        function_objects w !! h = Some f -> fn_library f = Some lh ->
        libraries w !! lh = Some l ->
        isl_space_get_tuple_name
          (isl_set_get_space (isl_set_read_from_str iteration_space_str)) isl_dim_set
        = None ->
        run = Err NullPointer)
  /\ (forall this w',
        run = Ok (this, w') ->
        iteration_space_str <> ""
        /\ exists h f l it nm,
             fct = Some h /\ function_objects w !! h = Some f
             /\ (fn_library f ≫= fun lh => libraries w !! lh) = Some l
             /\ isl_set_read_from_str iteration_space_str = Some it
             /\ tuple_name (set_tuple it) = Some nm).
Proof.
  intros run. subst run. unfold computation_new.
  split; [intros ->; reflexivity|].
  split.
  { intros [h ->] ->. reflexivity. }
  assert (Hlen : iteration_space_str <> "" -> (0 <? size iteration_space_str) = true).
  { destruct iteration_space_str; [congruence|reflexivity]. }
  split.
  { intros h f -> Hstr Hf Hlib.
    cbn [assert bool_decide decide_rel is_Some_dec mbind result_bind].
    rewrite (Hlen Hstr). cbn [assert mbind result_bind deref]. rewrite Hf.
    cbn [mbind result_bind]. rewrite Hlib. reflexivity. }
  split.
  { intros h f lh l -> Hstr Hf Hlib Hl Hname.
    cbn [assert bool_decide decide_rel is_Some_dec mbind result_bind].
    rewrite (Hlen Hstr). cbn [assert mbind result_bind deref]. rewrite Hf.
    cbn [mbind result_bind]. rewrite Hlib.
    cbn [assert bool_decide decide_rel is_Some_dec mbind result_bind deref].
    rewrite Hl. cbn [mbind result_bind]. rewrite Hname. reflexivity. }
  intros this w' H.
  destruct fct as [h|]; cbn [assert bool_decide decide_rel is_Some_dec mbind result_bind]
    in H; [|discriminate].
  destruct (0 <? size iteration_space_str) eqn:Hsize;
    cbn [assert mbind result_bind deref] in H; [|discriminate].
  destruct (function_objects w !! h) as [f|] eqn:Hf;
    cbn [mbind result_bind] in H; [|discriminate].
  destruct (fn_library f) as [lh|] eqn:Hlh;
    cbn [assert bool_decide decide_rel is_Some_dec mbind result_bind deref] in H;
    [|discriminate].
  destruct (libraries w !! lh) as [l|] eqn:Hl;
    cbn [mbind result_bind] in H; [|discriminate].
  destruct (isl_set_read_from_str iteration_space_str) as [it|] eqn:Hit;
    [|discriminate].
  cbn [isl_set_get_space isl_space_get_tuple_name mbind option_bind isl_dim_set] in H.
  destruct (tuple_name (set_tuple it)) as [nm|] eqn:Hnm; [|discriminate].
  split; [intros ->; discriminate Hsize|].
  exists h, f, l, it, nm. rewrite Hlh. cbn [mbind option_bind]. auto.
Qed.

End Constructor.

Section Library.

Context {Expr Stmt isl_ast_expr isl_ast_node : Type}.
Abbreviation world := (@world Expr Stmt isl_ast_expr isl_ast_node).
Abbreviation library := (@library isl_ast_node).

Variable isl_ctx_alloc : isl_ctx.

Abbreviation library_new :=
  (@library_new Expr Stmt isl_ast_expr isl_ast_node isl_ctx_alloc).

(** X12.  A library as its constructor leaves it.  The constructor refuses
    the empty name; otherwise the library is a new object with a context
    of its own that no other object had, no other library changes, and
    the library has no AST and no tag: [get_isl_ast] fails its assertion
    until [gen_isl_ast] has run, and [parallelize] and [vectorize] answer
    false for every computation and level. *)
Theorem library_new_starts_empty (lname : string) (w w' : world) (this : nat) :
  library_new lname w = Ok (this, w') ->
  lname <> ""
  /\ library_new "" w = Err (AssertionFailed "Library name empty")
  /\ libraries w !! this = None
  /\ (forall other, other <> this -> libraries w' !! other = libraries w !! other)
  /\ exists (l : library) (cx : nat),
       libraries w' !! this = Some l
       /\ lib_name l = lname
       /\ lib_ctx l = Some cx
       /\ contexts w !! cx = None
       /\ contexts w' !! cx = Some isl_ctx_alloc
       /\ get_isl_ast l
          = Err (AssertionFailed
                   "Generate the ISL ast using gen_isl_ast() before calling get_isl_ast().")
       /\ forall comp lev,
            0 < size comp -> 0 <= lev ->
            parallelize comp lev l = Ok (false, l)
            /\ vectorize comp lev l = Ok (false, l).
Proof.
  unfold CoreObjects.library_new. intros H.
  destruct (0 <? size lname) eqn:Hn; cbn [assert mbind result_bind] in H;
    [|discriminate].
  injection H as <- <-.
  split.
  { intros ->. discriminate Hn. }
  split; [reflexivity|].
  cbn [libraries contexts].
  split; [apply not_elem_of_dom, is_fresh|].
  split; [intros other Hne; apply lookup_insert_ne; congruence|].
  eexists _, _. rewrite !lookup_insert_eq.
  split; [reflexivity|]. split; [reflexivity|]. split; [reflexivity|].
  split; [apply not_elem_of_dom, is_fresh|].
  split; [reflexivity|]. split; [reflexivity|].
  intros comp lev Hc Hlev. unfold parallelize, vectorize.
  apply Z.ltb_lt in Hc. apply Z.leb_le in Hlev. rewrite Hc, Hlev.
  cbn [assert mbind result_bind parallel_dimensions vector_dimensions].
  rewrite lookup_empty. split; reflexivity.
Qed.

Variable isl_ast_build_node_from_schedule_map :
  gmap nat isl_ctx -> option isl_ast_build -> option isl_union_map -> option isl_ast_node.
Variable library_get_time_processor_representation :
  world -> nat -> option isl_union_set.
Variable library_get_time_processor_identity_relation :
  world -> nat -> option isl_union_map.

(** X13.  [get_isl_ast] after [gen_isl_ast].  [gen_isl_ast] returns only
    on a library whose time-processor representation and identity relation
    are both there.  When it has returned, the library is as before but
    for its AST, so its tags answer as before, and [get_isl_ast] returns
    the node that was stored, on the library as it is; if the AST
    generator gave back NULL, [gen_isl_ast] has returned all the same and
    it is [get_isl_ast] that fails its assertion. *)
Theorem get_isl_ast_after_gen_isl_ast (this : nat) (w w' : world) :
  gen_isl_ast isl_ast_build_node_from_schedule_map
    library_get_time_processor_representation
    library_get_time_processor_identity_relation this w = Ok (tt, w') ->
  is_Some (library_get_time_processor_representation w this)
  /\ is_Some (library_get_time_processor_identity_relation w this)
  /\ exists (l l' : library),
       libraries w !! this = Some l
       /\ libraries w' !! this = Some l'
       /\ l' = set_ast_field (ast l') l
       /\ (forall comp lev,
             parallelize comp lev l' = (fun r => (r.1, l')) <$> parallelize comp lev l)
       /\ (forall comp lev,
             vectorize comp lev l' = (fun r => (r.1, l')) <$> vectorize comp lev l)
       /\ get_isl_ast l'
          = match ast l' with
            | Some node => Ok (Some node, l')
            | None =>
                Err (AssertionFailed
                       "Generate the ISL ast using gen_isl_ast() before calling get_isl_ast().")
            end.
Proof.
  unfold gen_isl_ast, deref, get_ctx. intros H.
  destruct (libraries w !! this) as [l|] eqn:Hl; cbn [mbind result_bind] in H;
    [|discriminate].
  destruct (bool_decide (is_Some (library_get_time_processor_representation w this)))
    eqn:Htp; cbn [assert mbind result_bind] in H; [|discriminate].
  destruct (bool_decide (is_Some (library_get_time_processor_identity_relation w this)))
    eqn:Hid; cbn [assert mbind result_bind] in H; [|discriminate].
  apply bool_decide_eq_true_1 in Htp, Hid.
  injection H as <-. cbn [libraries].
  split; [exact Htp|]. split; [exact Hid|].
  eexists l, _. rewrite lookup_insert_eq.
  split; [reflexivity|]. split; [reflexivity|].
  split; [reflexivity|].
  split.
  { intros comp lev. unfold parallelize. cbn [parallel_dimensions set_ast_field].
    destruct (assert (0 <? size comp) _); cbn [mbind result_bind fmap result_fmap];
      [|reflexivity].
    destruct (assert (0 <=? lev) _); cbn [mbind result_bind fmap result_fmap];
      [|reflexivity].
    destruct (parallel_dimensions l !! comp); reflexivity. }
  split.
  { intros comp lev. unfold vectorize. cbn [vector_dimensions set_ast_field].
    destruct (assert (0 <? size comp) _); cbn [mbind result_bind fmap result_fmap];
      [|reflexivity].
    destruct (assert (0 <=? lev) _); cbn [mbind result_bind fmap result_fmap];
      [|reflexivity].
    destruct (vector_dimensions l !! comp); reflexivity. }
  unfold get_isl_ast. cbn [ast set_ast_field].
  destruct (isl_ast_build_node_from_schedule_map _ _ _); reflexivity.
Qed.

End Library.

Section Buffer.

Context {Halide_Type Halide_Buffer : Type}.

Variable halide_buffer_new :
  Halide_Type -> list Z -> option nat -> string -> result Halide_Buffer.
Variable halide_buffer_name : Halide_Buffer -> string.

Abbreviation buffer_new := (buffer_new halide_buffer_new halide_buffer_name).

(** X14.  The constructor of [buffer] returns only for a name that is not
    empty, a number of dimensions that is positive and equal to the
    number of sizes given, and a function that is there; the buffer holds
    the arguments as given.  The Halide buffer it makes goes into
    [buffers_list] of that function under its name with
    [std::map::insert]: where the name is bound already, the list is left
    as it was and the buffer made before stays the one of that name.  The
    lists of the other functions are not touched. *)
Theorem buffer_new_checks_dimensions
  (name : string) (n : Z) (sizes : list Z) (type : Halide_Type)
  (data fct : option nat) (lists lists' : gmap nat (gmap string Halide_Buffer))
  (b : buffer) (Hint : - 2 ^ 31 <= n < 2 ^ 31) :
  buffer_new name n sizes type data fct lists = Ok (b, lists') ->
  b = mk_buffer name n sizes type data fct
  /\ name <> ""
  /\ 0 < nb_dims b
  /\ nb_dims b = Z.of_nat (length (dim_sizes b))
  /\ exists h buffers_list buf,
       fct = Some h
       /\ lists !! h = Some buffers_list
       /\ halide_buffer_new type sizes data name = Ok buf
       /\ lists' !! h
          = Some (map_insert_if_absent (halide_buffer_name buf) buf buffers_list)
       /\ (is_Some (buffers_list !! halide_buffer_name buf) -> lists' = lists)
       /\ (buffers_list !! halide_buffer_name buf = None ->
           lists' = <[h := <[halide_buffer_name buf := buf]> buffers_list]> lists)
       /\ (forall other, other <> h -> lists' !! other = lists !! other).
Proof.
  unfold CoreObjects.buffer_new. intros H.
  destruct (0 <? size name) eqn:Hname; cbn [assert mbind result_bind] in H;
    [|discriminate].
  destruct (0 <? n) eqn:Hpos; cbn [assert mbind result_bind] in H; [|discriminate].
  destruct (to_size_t n =? Z.of_nat (length sizes)) eqn:Hlen;
    cbn [assert mbind result_bind] in H; [|discriminate].
  destruct fct as [h|]; cbn [assert mbind result_bind bool_decide decide_rel is_Some_dec]
    in H; [|discriminate].
  destruct (halide_buffer_new type sizes data name) as [buf|] eqn:Hbuf;
    cbn [mbind result_bind] in H; [|discriminate].
  unfold deref in H. destruct (lists !! h) as [buffers_list|] eqn:Hh;
    cbn [mbind result_bind] in H; [|discriminate].
  injection H as <- <-.
  apply Z.ltb_lt in Hpos. apply Z.eqb_eq in Hlen.
  rewrite CxxFacts.to_size_t_small in Hlen by lia.
  split; [reflexivity|].
  split; [intros ->; discriminate Hname|].
  cbn [nb_dims dim_sizes].
  split; [exact Hpos|]. split; [exact Hlen|].
  exists h, buffers_list, buf.
  split; [reflexivity|]. split; [exact Hh|]. split; [reflexivity|].
  split; [apply lookup_insert_eq|].
  split; [|split].
  - intros [old Hold]. unfold map_insert_if_absent. rewrite Hold.
    apply insert_id. exact Hh.
  - intros Hnone. unfold map_insert_if_absent. rewrite Hnone. reflexivity.
  - intros other Hne. apply lookup_insert_ne. congruence.
Qed.

End Buffer.

End CoreObjectsFacts.

(** ** The text of the identity schedule *)

Module IdentityScheduleTextFacts.
Import Cxx Parser Core IdentityScheduleFacts.

(** X15.  The text [set_identity_schedule] builds from the printed
    iteration set.  From [prefix{tuple:cons}] it builds
    [prefix{tuple -> prefix tuple:cons}]: with nothing before the opening
    brace that is the literal of the identity relation on the set, and
    whatever stands before the brace is repeated behind the arrow.  From
    a set without constraint part, [{name[dims]rest}], it builds
    [{name[dims] -> name[dims]rest rest}], the arrow being put behind the
    first closing bracket. *)
Theorem identity_schedule_text_of_printed_set
  (prefix tuple cons name dims rest : string) :
  (free_of "{}:" prefix = true -> free_of "}:" tuple = true -> free_of "}" cons = true ->
   size (prefix ++ "{" ++ tuple ++ ":" ++ cons ++ "}") < npos ->
   identity_schedule_text (prefix ++ "{" ++ tuple ++ ":" ++ cons ++ "}")
     (prefix ++ "{" ++ tuple ++ ":" ++ cons ++ "}")
   = Ok (prefix ++ "{" ++ tuple ++ " -> " ++ prefix ++ tuple ++ ":" ++ cons ++ "}"))
  /\ (free_of "]}:" name = true -> free_of "]}:" dims = true -> free_of "}:" rest = true ->
      size ("{" ++ name ++ "[" ++ dims ++ "]" ++ rest ++ "}") < npos ->
      identity_schedule_text ("{" ++ name ++ "[" ++ dims ++ "]" ++ rest ++ "}")
        ("{" ++ name ++ "[" ++ dims ++ "]" ++ rest ++ "}")
      = Ok ("{" ++ name ++ "[" ++ dims ++ "] -> " ++ name ++ "[" ++ dims ++ "]"
                ++ rest ++ rest ++ "}")).
Proof.
  split.
  - intros. apply identity_schedule_text_constrained; assumption.
  - intros. rewrite identity_schedule_text_unconstrained by assumption.
    rewrite ?CxxFacts.app_assoc. reflexivity.
Qed.

(** On the set of the tutorial, as it is printed. *)
Lemma identity_schedule_text_of_printed_set_witness :
  identity_schedule_text Tutorial.S0_printed Tutorial.S0_printed
  = Ok "{ S0[i, j]  ->  S0[i, j] : 0 <= i <= 1000 and 0 <= j <= 1000 }"
  /\ identity_schedule_text "{ S0[i, j] }" "{ S0[i, j] }"
     = Ok "{ S0[i, j] ->  S0[i, j]  }".
Proof.
  destruct (identity_schedule_text_of_printed_set
              "" " S0[i, j] " " 0 <= i <= 1000 and 0 <= j <= 1000 "
              " S0" "i, j" " ") as [Hc Hu].
  split.
  - apply Hc; reflexivity.
  - apply Hu; reflexivity.
Defined.

End IdentityScheduleTextFacts.

(** ** The passes on a nest of three loops *)

Module PassExamples.
Import Loops AutoScheduler AutoSchedulerPasses AutoSchedulerPassesFacts PassTrees.

Abbreviation tilings_of :=
  (generate_tilings get_loop_levels_chain_depth_model get_all_computations_model
     get_extent_model can_split_iterator_model factors).
Abbreviation chain_present_in :=
  (chain_present get_loop_levels_chain_depth_model get_extent_model
     can_split_iterator_model factors).
Abbreviation states_of :=
  (generate_states get_loop_levels_chain_depth_model get_rightmost_computation_model
     get_leftmost_computation_model get_all_computations_model get_extent_model
     can_split_iterator_model factors factors).

Lemma deep_nest_chain_present : Forall chain_present_in (nodes_of loop_i).
Proof.
  change (nodes_of loop_i) with [loop_i; loop_j; loop_k].
  repeat constructor.
  - intros _ _. exists loop_j. split; [reflexivity|].
    intros _ _. exists loop_k. reflexivity.
  - intros _ _. exists loop_k. split; [reflexivity|].
    intros H. discriminate H.
  - intros H. discriminate H.
Qed.

Lemma generate_tilings_returns_witness :
  tilings_of loop_i [] deep_tree
  = Ok ([] ++ (nodes_of loop_i
               ≫= node_tilings get_loop_levels_chain_depth_model
                     get_all_computations_model get_extent_model
                     can_split_iterator_model factors deep_tree))%list.
Proof.
  apply (generate_tilings_returns get_loop_levels_chain_depth_model
           get_all_computations_model get_extent_model can_split_iterator_model factors
           deep_tree loop_i []).
  exact deep_nest_chain_present.
Defined.

Lemma generate_tilings_node_count_witness :
  exists pushed,
    generate_tilings_node get_loop_levels_chain_depth_model get_all_computations_model
      get_extent_model can_split_iterator_model factors deep_tree loop_i []
    = Ok ([] ++ pushed)%list
    /\ pushed = node_tilings get_loop_levels_chain_depth_model
                  get_all_computations_model get_extent_model
                  can_split_iterator_model factors deep_tree loop_i
    /\ length pushed
       = (length (tiling_factors get_extent_model can_split_iterator_model factors loop_i)
          * (length (tiling_factors get_extent_model can_split_iterator_model factors
                       loop_j)
             * (1 + length (third_level_factors get_loop_levels_chain_depth_model
                              get_extent_model can_split_iterator_model factors
                              loop_i loop_j))))%nat.
Proof.
  apply (generate_tilings_node_count get_loop_levels_chain_depth_model
           get_all_computations_model get_extent_model can_split_iterator_model factors
           deep_tree loop_i loop_j []).
  - reflexivity.
  - reflexivity.
  - intros _ _. exists loop_k. reflexivity.
Defined.

(** On the outer loop that is 2 * (3 * (1 + 1)) = 12 states. *)
Lemma generate_tilings_node_deep_nest :
  length <$> generate_tilings_node get_loop_levels_chain_depth_model
               get_all_computations_model get_extent_model can_split_iterator_model
               factors deep_tree loop_i []
  = Ok 12%nat.
Proof. vm_compute. reflexivity. Qed.

Lemma generate_states_runs_requested_pass_witness :
  states_of deep_tree TILING
  = Ok (pass_states get_loop_levels_chain_depth_model get_rightmost_computation_model
          get_leftmost_computation_model get_all_computations_model get_extent_model
          can_split_iterator_model factors factors deep_tree TILING)
  /\ Forall (candidate_of deep_tree TILING)
       (pass_states get_loop_levels_chain_depth_model get_rightmost_computation_model
          get_leftmost_computation_model get_all_computations_model get_extent_model
          can_split_iterator_model factors factors deep_tree TILING).
Proof.
  apply (generate_states_runs_requested_pass get_loop_levels_chain_depth_model
           get_rightmost_computation_model get_leftmost_computation_model
           get_all_computations_model get_extent_model can_split_iterator_model
           factors factors deep_tree TILING).
  intros _. change (roots deep_tree ≫= nodes_of) with (nodes_of loop_i).
  exact deep_nest_chain_present.
Defined.

(** The nest has extents 8, 12 and 4: of the factors 2, 3, 4, 8, two split
    the first, three the second and one the third.  The outer loop has
    2 * 3 tilings of two levels and as many of three, the middle loop
    3 * 1 of two levels; unrolling takes a factor that equals the extent
    as well. *)
Lemma deep_nest_states :
  (length <$> states_of deep_tree TILING) = Ok 15%nat
  /\ (length <$> states_of deep_tree UNROLLING) = Ok 8%nat
  /\ (length <$> states_of deep_tree INTERCHANGE) = Ok 3%nat
  /\ (length <$> states_of deep_tree FUSION) = Ok 0%nat.
Proof. repeat split; vm_compute; reflexivity. Qed.

(** With the outer loop flagged unrolled, the unrolling pass leaves it out
    and the tiling pass does not. *)
Lemma unrolled_nest_states :
  (length <$> states_of deep_tree_unrolled UNROLLING) = Ok 5%nat
  /\ (length <$> states_of deep_tree_unrolled TILING) = Ok 15%nat.
Proof. split; vm_compute; reflexivity. Qed.

End PassExamples.

(** ** The parser and the constructors at work *)

Module MoreTutorialFacts.
Import Cxx Isl Parser ParserPrinting Core CoreObjects Tutorial MoreTutorial.
Import ParserPrintingFacts ParserRoundTripFacts CoreObjectsFacts.

Lemma constraint_add_appends_conjunct_witness :
  exists c',
    constraint_add "i<N" (mk_constraint ["0<=i"]) = Ok c'
    /\ constraint_is_empty c' = false
    /\ constraint_get_str c'
       = Ok (if constraint_is_empty (mk_constraint ["0<=i"]) then "i<N"
             else String.concat " and " (constraints (mk_constraint ["0<=i"]))
                  ++ " and " ++ "i<N")
    /\ constraint_add "" (mk_constraint ["0<=i"])
       = Err (AssertionFailed "str.empty() == false").
Proof.
  apply (constraint_add_appends_conjunct "i<N" (mk_constraint ["0<=i"])).
  discriminate.
Defined.

Lemma space_replace_splits_dimension_witness :
  dimensions (space_replace "i" "i0" "i1" (mk_space ["i"; "j"])) = ["i0"; "i1"; "j"]
  /\ space_replace "i" "i0" "i1" (space_replace "i" "i0" "i1" (mk_space ["i"; "j"]))
     = space_replace "i" "i0" "i1" (mk_space ["i"; "j"]).
Proof.
  destruct (space_replace_splits_dimension "i" "i0" "i1" (mk_space ["i"; "j"]))
    as (Hdims & _ & _ & Hagain & _); [discriminate|discriminate|].
  split; [rewrite Hdims; reflexivity|exact Hagain].
Defined.

Lemma map_new_reads_text_as_constraints_witness :
  map_new split_string_model space_parse_model "{S0[i,j] -> S0[i,j]}"
  = Ok {| parameters := space_empty;
          domain_name := "S0";
          range_name := " S0";
          domain := mk_space ["i"; "j"];
          range := mk_space ["i"; "j"];
          map_constraints := mk_constraint ["{S0[i,j] -> S0[i,j]"] |}.
Proof.
  exact (map_new_reads_text_as_constraints split_string_model space_parse_model
           "S0" "i,j" " " " S0" "i,j" ""
           eq_refl eq_refl eq_refl eq_refl eq_refl eq_refl eq_refl).
Defined.

Lemma map_new_reads_printed_map_witness :
  exists text,
    map_get_str S0_map = Ok text
    /\ map_new split_string_model space_parse_model text
       = Ok {| parameters := space_empty;
               domain_name := "S0";
               range_name := "S0";
               domain := mk_space ["i"; "j"];
               range := mk_space ["i0"; "i1"];
               map_constraints := mk_constraint ["0<=i "; " i<N "] |}.
Proof.
  exact (map_new_reads_printed_map split_string_model space_parse_model S0_map
           eq_refl eq_refl eq_refl eq_refl eq_refl eq_refl).
Defined.

(** A map without constraints does not print and parse back to itself. *)
Lemma map_new_printed_unconstrained :
  map_get_str S0_map_unconstrained = Ok "{S0[i,j] ->S0[i0,i1] }"
  /\ map_constraints <$> map_new split_string_model space_parse_model
                           "{S0[i,j] ->S0[i0,i1] }"
     = Ok (mk_constraint ["{S0[i,j] ->S0[i0,i1] "]).
Proof. split; vm_compute; reflexivity. Qed.

Lemma computation_new_registers_once_witness :
  computation_objects world1 !! 1%nat = None
  /\ computations_list world1 !! "S0" = Some 0%nat
  /\ computations_list world1_redeclared !! "S0" = Some 0%nat
  /\ exists c : computation,
       computation_objects world1_redeclared !! 1%nat = Some c /\ name c = "S0".
Proof.
  destruct (computation_new_registers_once
              isl_set_read_from_str isl_set_to_str isl_map_read_from_str
              3 S0_text (Some 0%nat) world1 world1_redeclared 1%nat)
    as (Hfresh & _ & _ & _ & c & Hc & _ & _ & Hkept & _).
  - vm_compute. reflexivity.
  - split; [exact Hfresh|]. split; [reflexivity|].
    split; [apply (Hkept "S0" 0%nat); reflexivity|].
    exists c. split; [exact Hc|].
    assert (E : Some c = Some computation0) by (rewrite <- Hc; reflexivity).
    injection E as ->. reflexivity.
Defined.

Lemma library_new_starts_empty_witness :
  exists (l : @library isl_ast_node),
    libraries world_library !! 0%nat = Some l
    /\ lib_name l = "library0"
    /\ get_isl_ast l
       = Err (AssertionFailed
                "Generate the ISL ast using gen_isl_ast() before calling get_isl_ast().")
    /\ parallelize "S0" 0 l = Ok (false, l).
Proof.
  destruct (library_new_starts_empty (mk_ctx 0) "library0" world_empty world_library 0%nat)
    as (_ & _ & _ & _ & l & cx & Hl & Hname & _ & _ & _ & Hast & Htags).
  - vm_compute. reflexivity.
  - exists l. split; [exact Hl|]. split; [exact Hname|]. split; [exact Hast|].
    apply Htags; reflexivity.
Defined.

Lemma get_isl_ast_after_gen_isl_ast_witness :
  exists (l' : @library isl_ast_node),
    libraries world3 !! 0%nat = Some l'
    /\ is_Some (ast l')
    /\ get_isl_ast l' = Ok (ast l', l')
    /\ parallelize "S0" 0 l' = Ok (false, l').
Proof.
  destruct (get_isl_ast_after_gen_isl_ast
              isl_ast_build_node_from_schedule_map
              library_get_time_processor_representation
              library_get_time_processor_identity_relation 0%nat world2 world3)
    as (_ & _ & l & l' & Hl & Hl' & Hframe & Hpar & _ & Hget).
  - reflexivity.
  - assert (El : l = library0).
    { assert (E : Some l = Some library0) by (rewrite <- Hl; reflexivity).
      injection E as ->. reflexivity. }
    assert (Hast : is_Some (ast l')).
    { assert (E : is_Some (libraries world3 !! 0%nat ≫= ast))
        by (eexists; reflexivity).
      rewrite Hl' in E. exact E. }
    exists l'. split; [exact Hl'|]. split; [exact Hast|].
    destruct Hast as [node Hnode].
    split; [rewrite Hget, Hnode; reflexivity|].
    rewrite Hpar, El. reflexivity.
Defined.

(** A second buffer named [buf0], of 20 by 20: it is made, and the list of
    the function still holds the first one, of 10 by 10. *)
Lemma buffer_new_checks_dimensions_witness :
  buffer_new halide_buffer_new_model halide_buffer_name_model
    "buf0" 2 [20; 20] tt None (Some 0%nat) buffers_lists0
  = Ok (mk_buffer "buf0" 2 [20; 20] tt None (Some 0%nat), buffers_lists0)
  /\ exists buffers_list,
       buffers_lists0 !! 0%nat = Some buffers_list
       /\ buffers_list !! "buf0" = Some (tt, [10; 10], None, "buf0").
Proof.
  assert (Hrun : buffer_new halide_buffer_new_model halide_buffer_name_model
                   "buf0" 2 [20; 20] tt None (Some 0%nat) buffers_lists0
                 = Ok (mk_buffer "buf0" 2 [20; 20] tt None (Some 0%nat), buffers_lists0)).
  { vm_compute. reflexivity. }
  destruct (buffer_new_checks_dimensions halide_buffer_new_model halide_buffer_name_model
              "buf0" 2 [20; 20] tt None (Some 0%nat) buffers_lists0 buffers_lists0
              (mk_buffer "buf0" 2 [20; 20] tt None (Some 0%nat)))
    as (_ & _ & _ & _ & h & buffers_list & buf & Hfct & Hlist & _);
    [lia | exact Hrun | ].
  split; [exact Hrun|].
  injection Hfct as <-. exists buffers_list. split; [exact Hlist|].
  assert (E : Some buffers_list = buffers_lists0 !! 0%nat) by (rewrite Hlist; reflexivity).
  assert (E' : buffers_lists0 !! 0%nat
               = Some ({[ "buf0" := (tt, [10; 10], None, "buf0") ]}
                       : gmap string halide_buffer)) by reflexivity.
  rewrite E' in E. injection E as ->. reflexivity.
Defined.

(** The buffer of the tutorial, [buf0("buf0", 2, {10,10}, ...)], declared
    in a function that has no buffer yet. *)
Lemma buffer_new_tutorial :
  buffer_new halide_buffer_new_model halide_buffer_name_model
    "buf0" 2 [10; 10] tt None (Some 0%nat) {[ 0%nat := ∅ ]}
  = Ok (mk_buffer "buf0" 2 [10; 10] tt None (Some 0%nat), buffers_lists0)
  /\ is_ok (buffer_new halide_buffer_new_model halide_buffer_name_model
              "buf0" 3 [10; 10] tt None (Some 0%nat) {[ 0%nat := ∅ ]}) = false.
Proof. split; vm_compute; reflexivity. Qed.

(** The constructor of [computation] on the program of the tutorial:
    without a function, with an empty text, and with a text that is not
    read as a set. *)
Lemma computation_new_rejects_witness :
  computation_new isl_set_read_from_str isl_set_to_str isl_map_read_from_str
    3 S0_text None world0 = Err (AssertionFailed "fct != NULL")
  /\ computation_new isl_set_read_from_str isl_set_to_str isl_map_read_from_str
       3 "" (Some 0%nat) world0 = Err (AssertionFailed "Empty iteration space")
  /\ computation_new isl_set_read_from_str isl_set_to_str isl_map_read_from_str
       3 "{S1[i" (Some 0%nat) world0 = Err NullPointer.
Proof.
  split; [|split].
  - apply (computation_new_rejects isl_set_read_from_str isl_set_to_str
             isl_map_read_from_str 3 S0_text None world0). reflexivity.
  - apply (computation_new_rejects isl_set_read_from_str isl_set_to_str
             isl_map_read_from_str 3 "" (Some 0%nat) world0);
      [eexists|]; reflexivity.
  - destruct (computation_new_rejects isl_set_read_from_str isl_set_to_str
                isl_map_read_from_str 3 "{S1[i" (Some 0%nat) world0)
      as (_ & _ & _ & Hnull & _).
    apply (Hnull 0%nat function0 0%nat library0); try reflexivity. discriminate.
Defined.


(** [gen_time_processor_IR] on a computation whose schedule starts from
    another space than that of its iteration set. *)
Lemma gen_time_processor_IR_edges_witness :
  exists c' : computation,
    gen_time_processor_IR computation0_misplaced = Ok (tt, c')
    /\ time_processor_space c' = None
    /\ get_time_processor_identity_relation c'
       = Err (AssertionFailed "get_time_processor_representation() != NULL").
Proof.
  destruct (gen_time_processor_IR_edges computation0_misplaced) as (_ & _ & H).
  destruct (H S0_iteration_set X_to_S0) as (c' & Hrun & Htp & _ & _ & Hid).
  - reflexivity.
  - reflexivity.
  - discriminate.
  - exists c'. auto.
Defined.

End MoreTutorialFacts.
